(** * The multi-key Gemini client of [core/gemini_client.py]

    A shallow embedding of [GeminiClient]: the shared credential pool, key
    rotation, [call_with_retry], [parse_intent] with its heuristic fallback,
    and the status methods.  Class-level attributes of the Python class are
    the fields of [state]; everything the client takes from outside (the
    remote endpoint, the SDK constructor, the process environment, the
    regular-expression and JSON libraries, the clock and the random
    generator) is a field of [world]. *)

From stdpp Require Import gmap strings list numbers.
From Stdlib Require Import Ascii ZArith QArith Qcanon Lia.

Open Scope string_scope.

(** ** Python values, exceptions and results *)

Record exn := Exn { exn_class : string; exn_str : string }.

Definition Exception (msg : string) : exn := Exn "Exception" msg.
Definition ValueError (msg : string) : exn := Exn "ValueError" msg.
Definition TypeError (msg : string) : exn := Exn "TypeError" msg.
Definition AttributeError (msg : string) : exn := Exn "AttributeError" msg.
Definition JSONDecodeError (msg : string) : exn := Exn "JSONDecodeError" msg.

Inductive result (A : Type) : Type :=
  | Return (a : A)
  | Raise (e : exn).
Arguments Return {A} a.
Arguments Raise {A} e.

Definition bind {A B : Type} (r : result A) (k : A -> result B) : result B :=
  match r with
  | Return a => k a
  | Raise e => Raise e
  end.

Notation "'try!' x := r 'in' k" := (bind r (fun x => k))
  (at level 10, x name, r at level 100, k at level 200).

Definition is_return {A : Type} (r : result A) : bool :=
  match r with Return _ => true | Raise _ => false end.

(** Floats are carried as exact rationals, with the two special values
    [float] and [json.loads] can produce. *)
Inductive pyfloat : Type :=
  | Fin (q : Qc)
  | Inf (negative : bool)
  | NaN.

(** JSON-like values: what [json.loads] produces and what the client
    returns.  Dictionaries keep insertion order, as Python's do. *)
#[warnings="-register-all"]
Inductive pyval : Type :=
  | VNone
  | VBool (b : bool)
  | VInt (z : Z)
  | VFloat (x : pyfloat)
  | VStr (s : string)
  | VList (l : list pyval)
  | VDict (d : list (string * pyval))
  | VObject (repr : string).

Fixpoint dict_get (d : list (string * pyval)) (k : string) : option pyval :=
  match d with
  | [] => None
  | (k', v) :: d' => if String.eqb k' k then Some v else dict_get d' k
  end.

Fixpoint dict_set (d : list (string * pyval)) (k : string) (v : pyval)
  : list (string * pyval) :=
  match d with
  | [] => [(k, v)]
  | (k', v') :: d' =>
      if String.eqb k' k then (k, v) :: d' else (k', v') :: dict_set d' k v
  end.

(** ** Strings: the [str] operations the client uses *)

Fixpoint prefixb (p s : string) : bool :=
  match p, s with
  | EmptyString, _ => true
  | String a p', String b s' => Ascii.eqb a b && prefixb p' s'
  | String _ _, EmptyString => false
  end.

(** [sub in s] *)
Fixpoint str_in (sub s : string) : bool :=
  prefixb sub s ||
  match s with
  | EmptyString => false
  | String _ s' => str_in sub s'
  end.

Definition lower_ascii (c : Ascii.ascii) : Ascii.ascii :=
  let n := Ascii.nat_of_ascii c in
  if (65 <=? n)%nat && (n <=? 90)%nat then Ascii.ascii_of_nat (n + 32) else c.

(** [s.lower()] on the ASCII letters; other bytes are left as they are. *)
Fixpoint lower (s : string) : string :=
  match s with
  | EmptyString => EmptyString
  | String c s' => String (lower_ascii c) (lower s')
  end.

(** [any(keyword in s for keyword in keywords)] *)
Definition any_in (keywords : list string) (s : string) : bool :=
  existsb (fun keyword => str_in keyword s) keywords.

(** A [str] is held as the bytes of its UTF-8 encoding.  [code_points_from]
    reads the characters back: [pending] continuation bytes are still due
    for the character begun in [acc]. *)
Fixpoint code_points_from (pending : nat) (acc : N) (s : string) : list N :=
  match s with
  | EmptyString => []
  | String c s' =>
      let b := Ascii.N_of_ascii c in
      match pending with
      | O =>
          if (b <? 128)%N then b :: code_points_from 0 0 s'
          else if (b <? 224)%N then code_points_from 1 (b mod 32) s'
          else if (b <? 240)%N then code_points_from 2 (b mod 16) s'
          else code_points_from 3 (b mod 8) s'
      | S O => (acc * 64 + b mod 64)%N :: code_points_from 0 0 s'
      | S pending' => code_points_from pending' (acc * 64 + b mod 64) s'
      end
  end.

Definition code_points (s : string) : list N := code_points_from 0 0 s.

(** The characters [str.split] takes for blanks: the ASCII white space and
    separators, NEL, the no-break space, and the Unicode spaces and line
    and paragraph separators. *)
Definition is_space (c : N) : bool :=
  ((9 <=? c) && (c <=? 13) || (28 <=? c) && (c <=? 32)
   || (c =? 0x85) || (c =? 0xA0) || (c =? 0x1680)
   || (0x2000 <=? c) && (c <=? 0x200A)
   || (c =? 0x2028) || (c =? 0x2029) || (c =? 0x202F) || (c =? 0x205F)
   || (c =? 0x3000))%N.

(** The number of maximal runs of non-blank characters.  [inword] tells
    whether the previous character belonged to a word. *)
Fixpoint count_words (inword : bool) (l : list N) : nat :=
  match l with
  | [] => 0
  | c :: l' =>
      if is_space c then count_words false l'
      else (if inword then 0 else 1) + count_words true l'
  end.

(** [len(s.split())] *)
Definition split_len (s : string) : nat := count_words false (code_points s).

(** ** The outside world *)

Record client := Client { client_api_key : string }.

Record candidate := {
  candidate_parts : option (list string);   (* content.parts, their .text *)
  candidate_content_text : option string    (* content.text *)
}.

Record response := {
  response_truthy : bool;                      (* bool(response) *)
  response_text : option string;               (* response.text when present *)
  response_candidates : option (list candidate)
}.

(** How the client classifies the answer to one remote call. *)
Inductive outcome : Type :=
  | Succeeded
  | QuotaExhausted
  | Failed.

(** What the run of a client leaves behind: remote calls with their
    outcome, key rotations logged and sleeps taken, oldest first. *)
Inductive event : Type :=
  | EvCall (key_name : string) (attempt : nat) (o : outcome)
  | EvRotation (original_key key_name : string)
  | EvSleep (attempt : nat) (wait_time : Qc).

Record world := {
  (* os.environ *)
  environ : gmap string string;
  (* genai.Client(api_key=...): None when the constructor raises *)
  genai_Client : string -> option client;
  (* client.models.generate_content(model, contents, config), which may
     answer differently as the history grows *)
  generate_content :
    list event -> client -> string -> string -> pyfloat -> Z -> result response;
  (* raw output of the random generator, one entry per draw *)
  entropy : nat -> N;
  (* time.time(), in seconds *)
  time_time : list event -> Qc;
  (* datetime.utcnow().isoformat() *)
  utcnow_isoformat : list event -> string;
  (* re.sub(pattern, repl, text), re.search(pattern, text, DOTALL).group(1),
     re.findall(pattern, text) *)
  re_sub : string -> string -> string -> string;
  re_search : string -> string -> option string;
  re_findall : string -> string -> list string;
  (* json.loads: None is JSONDecodeError *)
  json_loads : string -> option pyval;
  (* int(s) and float(s): None is ValueError *)
  py_int : string -> option Z;
  py_float : string -> option pyfloat
}.

(** ** Class-level state shared by all instances *)

Record state := {
  _shared_key_index : nat;
  _shared_key_failures : gmap string Z;
  _shared_clients : gmap string (option client);
  _api_keys_loaded : list (string * string);
  _all_keys_exhausted : bool;
  rng : nat;            (* draws taken from the random generator so far *)
  trace : list event
}.

Definition class_initial : state := {|
  _shared_key_index := 0;
  _shared_key_failures := ∅;
  _shared_clients := ∅;
  _api_keys_loaded := [];
  _all_keys_exhausted := false;
  rng := 0;
  trace := []
|}.

Definition set_index (i : nat) (st : state) : state :=
  {| _shared_key_index := i;
     _shared_key_failures := _shared_key_failures st;
     _shared_clients := _shared_clients st;
     _api_keys_loaded := _api_keys_loaded st;
     _all_keys_exhausted := _all_keys_exhausted st;
     rng := rng st; trace := trace st |}.

Definition set_failures (f : gmap string Z) (st : state) : state :=
  {| _shared_key_index := _shared_key_index st;
     _shared_key_failures := f;
     _shared_clients := _shared_clients st;
     _api_keys_loaded := _api_keys_loaded st;
     _all_keys_exhausted := _all_keys_exhausted st;
     rng := rng st; trace := trace st |}.

Definition set_clients (c : gmap string (option client)) (st : state) : state :=
  {| _shared_key_index := _shared_key_index st;
     _shared_key_failures := _shared_key_failures st;
     _shared_clients := c;
     _api_keys_loaded := _api_keys_loaded st;
     _all_keys_exhausted := _all_keys_exhausted st;
     rng := rng st; trace := trace st |}.

Definition set_api_keys (k : list (string * string)) (st : state) : state :=
  {| _shared_key_index := _shared_key_index st;
     _shared_key_failures := _shared_key_failures st;
     _shared_clients := _shared_clients st;
     _api_keys_loaded := k;
     _all_keys_exhausted := _all_keys_exhausted st;
     rng := rng st; trace := trace st |}.

Definition set_exhausted (b : bool) (st : state) : state :=
  {| _shared_key_index := _shared_key_index st;
     _shared_key_failures := _shared_key_failures st;
     _shared_clients := _shared_clients st;
     _api_keys_loaded := _api_keys_loaded st;
     _all_keys_exhausted := b;
     rng := rng st; trace := trace st |}.

Definition set_rng (n : nat) (st : state) : state :=
  {| _shared_key_index := _shared_key_index st;
     _shared_key_failures := _shared_key_failures st;
     _shared_clients := _shared_clients st;
     _api_keys_loaded := _api_keys_loaded st;
     _all_keys_exhausted := _all_keys_exhausted st;
     rng := n; trace := trace st |}.

Definition emit (e : event) (st : state) : state :=
  {| _shared_key_index := _shared_key_index st;
     _shared_key_failures := _shared_key_failures st;
     _shared_clients := _shared_clients st;
     _api_keys_loaded := _api_keys_loaded st;
     _all_keys_exhausted := _all_keys_exhausted st;
     rng := rng st; trace := (trace st ++ [e])%list |}.

(** ** The random generator and the clock *)

(** [random.random()]: a 53-bit fraction in [0, 1) taken from the next
    entry of the entropy stream. *)
Definition random_random (w : world) (st : state) : Qc :=
  Q2Qc (Z.of_N (entropy w (rng st) mod 2 ^ 53) # 2 ^ 53).

(** [random.uniform(a, b)] is [a + (b - a) * random()]. *)
Definition random_uniform (w : world) (st : state) (a b : Qc) : Qc :=
  (a + (b - a) * random_random w st)%Qc.

(** [random.randint(a, b)]: some integer of [a..b], chosen by the entropy;
    an empty range raises ValueError. *)
Definition random_randint (w : world) (st : state) (a b : Z) : result Z :=
  if (b <? a)%Z then Raise (ValueError "empty range for randrange()")
  else Return (a + Z.of_N (entropy w (rng st)) mod (b - a + 1))%Z.

(** [random.choice(seq)]: IndexError on an empty sequence. *)
Definition random_choice {A : Type} (w : world) (st : state) (seq : list A)
  : result A :=
  let empty := Exn "IndexError" "Cannot choose from an empty sequence" in
  match seq with
  | [] => Raise empty
  | _ =>
      match seq !! N.to_nat (entropy w (rng st) mod N.of_nat (length seq)) with
      | Some x => Return x
      | None => Raise empty
      end
  end.

Definition draw (st : state) : state := set_rng (S (rng st)) st.

(** ** Loading the pool *)

Definition getenv (w : world) (name : string) : option string :=
  environ w !! name.

(** Truth value of [os.getenv(...)]: set and not empty. *)
Definition env_truthy (o : option string) : option string :=
  match o with
  | Some (String c s) => Some (String c s)
  | _ => None
  end.

(** The decimal form of a one-digit number, for the f-strings over
    [range(1, 4)]. *)
Definition str_of_digit (i : nat) : string :=
  String (Ascii.ascii_of_nat (48 + i)) EmptyString.

Definition _load_api_keys (w : world) : list (string * string) :=
  let keys : list (string * string) := [] in
  let keys :=
    match env_truthy (getenv w "GEMINI_API_KEY") with
    | Some primary => (keys ++ [("PRIMARY", primary)])%list
    | None => keys
    end in
  fold_left
    (fun keys i =>
       match env_truthy (getenv w ("GEMINI_API_KEY_" +:+ str_of_digit i)) with
       | Some backup => (keys ++ [("BACKUP_" +:+ str_of_digit i, backup)])%list
       | None => keys
       end)
    (seq 1 3) keys.

Definition _initialize_all_clients (w : world) (st : state) : state :=
  fold_left
    (fun st '(name, api_key) =>
       set_clients (<[name := genai_Client w api_key]> (_shared_clients st)) st)
    (_api_keys_loaded st) st.

(** Attributes assigned on the instance by [__init__]; [api_keys],
    [clients] and [key_failures] are bound to the shared class-level
    objects and are read from [state]. *)
Record instance := {
  model_name : string;
  max_tokens : Z;
  temperature : pyfloat;
  mock_mode : bool
}.

Definition is_nil {A : Type} (l : list A) : bool :=
  match l with [] => true | _ => false end.

Definition __init__ (w : world) (st : state) : result instance * state :=
  let st :=
    if is_nil (_api_keys_loaded st) then
      let st := set_api_keys (_load_api_keys w) st in
      let st :=
        set_failures
          (list_to_map ((fun '(name, _) => (name, 0%Z)) <$> _api_keys_loaded st))
          st in
      _initialize_all_clients w st
    else st in
  let model_name := default "gemini-2.5-flash-lite" (getenv w "GEMINI_MODEL") in
  match py_int w (default "8192" (getenv w "GEMINI_MAX_TOKENS")) with
  | None => (Raise (ValueError "invalid literal for int()"), st)
  | Some max_tokens =>
      match py_float w (default "0.2" (getenv w "GEMINI_TEMPERATURE")) with
      | None => (Raise (ValueError "could not convert string to float"), st)
      | Some temperature =>
          (Return {| model_name := model_name; max_tokens := max_tokens;
                     temperature := temperature; mock_mode := false |}, st)
      end
  end.

(** ** Current key and rotation *)

Definition _get_key_name_at (st : state) (index : nat) : string :=
  match _api_keys_loaded st !! index with
  | Some (name, _) => name
  | None => "UNKNOWN"
  end.

Definition _get_current_key_name (st : state) : string :=
  _get_key_name_at st (_shared_key_index st).

(** [self.clients.get(key_name)] *)
Definition clients_get (st : state) (key_name : string) : option client :=
  default None (_shared_clients st !! key_name).

Definition _get_current_client (st : state) : option client :=
  clients_get st (_get_current_key_name st).

Definition is_some {A : Type} (o : option A) : bool :=
  match o with Some _ => true | None => false end.

(** The [for i in range(len(self.api_keys) - 1)] loop of
    [_rotate_to_next_key], with [n] iterations left. *)
Fixpoint rotate_loop (n : nat) (original_key : string) (st : state)
  : bool * state :=
  match n with
  | O => (false, st)
  | S n' =>
      let st :=
        set_index ((_shared_key_index st + 1) mod length (_api_keys_loaded st)) st in
      let key_name := _get_current_key_name st in
      if is_some (clients_get st key_name) && negb (String.eqb key_name original_key)
      then (true, emit (EvRotation original_key key_name) st)
      else rotate_loop n' original_key st
  end.

Definition _rotate_to_next_key (st : state) : bool * state :=
  let original_index := _shared_key_index st in
  let original_key := _get_key_name_at st original_index in
  if (length (_api_keys_loaded st) =? 1)%nat then (false, st)
  else rotate_loop (length (_api_keys_loaded st) - 1) original_key st.

(** ** The dispatcher *)

Definition is_quota_error (error_str : string) : bool :=
  str_in "429" error_str || str_in "RESOURCE_EXHAUSTED" error_str.

Definition classify (error_str : string) : outcome :=
  if is_quota_error error_str then QuotaExhausted else Failed.

Definition exhausted_global : exn :=
  Exception "All API keys quota exhausted (global state)".

Definition all_keys_exhausted_error : exn :=
  Exception "All API keys quota exhausted".

Definition record_failure (key_name : string) (st : state) : state :=
  set_failures
    (<[key_name := (default 0 (_shared_key_failures st !! key_name) + 1)%Z]>
       (_shared_key_failures st)) st.

Definition record_success (key_name : string) (st : state) : state :=
  set_failures (<[key_name := 0%Z]> (_shared_key_failures st)) st.

(** [(2 ** attempt) + random.uniform(0, 1)] *)
Definition backoff_delay (w : world) (st : state) (attempt : nat) : Qc :=
  (Q2Qc (inject_Z (2 ^ Z.of_nat attempt)) + random_uniform w st 0 1)%Qc.

(** The [for attempt in range(max_retries)] loop of [call_with_retry]:
    [remaining] iterations are left and the next one is number [attempt]. *)
Fixpoint retry_loop (w : world) (self : instance) (prompt : string)
    (remaining attempt : nat) (last_error : option exn) (st : state)
  : result response * state :=
  match remaining with
  | O => (Raise (default (Exception "All retries failed") last_error), st)
  | S remaining' =>
      if _all_keys_exhausted st then (Raise exhausted_global, st)
      else
        match _get_current_client st with
        | None =>
            let '(_, st) := _rotate_to_next_key st in
            retry_loop w self prompt remaining' (S attempt) last_error st
        | Some client =>
            let key_name := _get_current_key_name st in
            let reply :=
              generate_content w (trace st) client (model_name self) prompt
                (temperature self) (max_tokens self) in
            match reply with
            | Return response =>
                let st := emit (EvCall key_name attempt Succeeded) st in
                (Return response, record_success key_name st)
            | Raise e =>
                let error_str := exn_str e in
                let st := emit (EvCall key_name attempt (classify error_str)) st in
                let st := record_failure key_name st in
                if is_quota_error error_str then
                  let '(rotated, st) := _rotate_to_next_key st in
                  if negb rotated then
                    (Raise all_keys_exhausted_error, set_exhausted true st)
                  else
                    let wait_time := backoff_delay w st attempt in
                    let st := emit (EvSleep attempt wait_time) (draw st) in
                    retry_loop w self prompt remaining' (S attempt) (Some e) st
                else (Raise e, st)
            end
        end
  end.

Definition call_with_retry (w : world) (self : instance) (prompt : string)
    (max_retries : nat) (st : state) : result response * state :=
  if _all_keys_exhausted st then (Raise exhausted_global, st)
  else retry_loop w self prompt max_retries 0 None st.

(** ** Operations on Python values *)

Definition qc (n : Z) (d : positive) : Qc := Q2Qc (n # d).

(** [int(x)] on a float: truncation towards zero; OverflowError on an
    infinity and ValueError on a NaN. *)
Definition int_of_Qc (q : Qc) : Z := Z.quot (Qnum (this q)) (Zpos (Qden (this q))).

Definition py_int_of_float (x : pyfloat) : result Z :=
  match x with
  | Fin q => Return (int_of_Qc q)
  | Inf _ => Raise (Exn "OverflowError" "cannot convert float infinity to integer")
  | NaN => Raise (ValueError "cannot convert float NaN to integer")
  end.

Definition float_mul (x : pyfloat) (k : Z) : pyfloat :=
  match x with
  | Fin q => Fin (q * Q2Qc (inject_Z k))%Qc
  | other => other
  end.

(** [round(x, 2)] on a finite float, halves to the even neighbour. *)
Definition round2 (q : Qc) : Qc :=
  let x := (this q * 100)%Q in
  let f := (Qnum x / Zpos (Qden x))%Z in
  let twice_rest := (2 * Qnum x - 2 * f * Zpos (Qden x))%Z in
  let n :=
    match (twice_rest ?= Zpos (Qden x))%Z with
    | Lt => f
    | Gt => (f + 1)%Z
    | Eq => if Z.even f then f else (f + 1)%Z
    end in
  qc n 100.

(** [key in data] *)
Definition py_contains (data : pyval) (key : string) : result bool :=
  match data with
  | VDict d => Return (is_some (dict_get d key))
  | VList l =>
      Return (existsb (fun v => match v with VStr s => String.eqb s key | _ => false end) l)
  | VStr s => Return (str_in key s)
  | _ => Raise (TypeError "argument is not iterable")
  end.

(** [data[key]] with a string key *)
Definition py_getitem (data : pyval) (key : string) : result pyval :=
  match data with
  | VDict d =>
      match dict_get d key with
      | Some v => Return v
      | None => Raise (Exn "KeyError" key)
      end
  | _ => Raise (TypeError "indices must be integers")
  end.

(** [data[key] = v] with a string key *)
Definition py_setitem (data : pyval) (key : string) (v : pyval) : result pyval :=
  match data with
  | VDict d => Return (VDict (dict_set d key v))
  | _ => Raise (TypeError "object does not support item assignment")
  end.

Definition in_strings (s : string) (l : list string) : bool :=
  existsb (String.eqb s) l.

(** ** Validation of a parsed intent *)

Definition required_fields : list string :=
  ["workload_type"; "scale"; "requirements"; "constraints"; "parsing_confidence"].

Definition valid_workloads : list string :=
  ["api_backend"; "web_app"; "data_processing"; "ml_inference";
   "batch_processing"; "realtime_streaming"; "mobile_backend"; "gaming_server"].

Definition Qc_leb (a b : Qc) : bool := Qle_bool (this a) (this b).

(** [isinstance(c, (int, float)) and 0.0 <= c <= 1.0] *)
Definition confidence_ok (c : pyval) : bool :=
  match c with
  | VBool _ => true
  | VInt z => (0 <=? z)%Z && (z <=? 1)%Z
  | VFloat (Fin q) => Qc_leb 0 q && Qc_leb q 1
  | _ => false
  end.

Fixpoint check_required (fields : list string) (data : pyval) : result unit :=
  match fields with
  | [] => Return tt
  | field :: fields' =>
      try! present := py_contains data field in
      if negb present then Raise (ValueError ("Missing required field: " +:+ field))
      else check_required fields' data
  end.

Definition _validate_intent_structure (data : pyval) : result unit :=
  try! _u := check_required required_fields data in
  try! workload := py_getitem data "workload_type" in
  if negb (match workload with VStr s => in_strings s valid_workloads | _ => false end)
  then Raise (ValueError "Invalid workload_type")
  else
    try! confidence := py_getitem data "parsing_confidence" in
    if negb (confidence_ok confidence)
    then Raise (ValueError "Invalid parsing_confidence")
    else Return tt.

(** ** Computations over the shared state that may raise *)

Definition M (A : Type) : Type := state -> result A * state.

Definition ret {A : Type} (a : A) : M A := fun st => (Return a, st).

Definition throw {A : Type} (e : exn) : M A := fun st => (Raise e, st).

Definition lift {A : Type} (r : result A) : M A := fun st => (r, st).

Definition mbind {A B : Type} (m : M A) (k : A -> M B) : M B :=
  fun st =>
    match m st with
    | (Return a, st') => k a st'
    | (Raise e, st') => (Raise e, st')
    end.

(** [try: m except <filter>: handler]; an exception the filter rejects
    passes through. *)
Definition try_except {A : Type} (m : M A) (catches : exn -> bool)
    (handler : exn -> M A) : M A :=
  fun st =>
    match m st with
    | (Raise e, st') => if catches e then handler e st' else (Raise e, st')
    | done => done
    end.

Notation "'do!' x := m 'in' k" := (mbind m (fun x => k))
  (at level 10, x name, m at level 100, k at level 200).

Definition m_randint (w : world) (a b : Z) : M Z :=
  fun st => (random_randint w st a b, draw st).

Definition m_choice {A : Type} (w : world) (seq : list A) : M A :=
  fun st => (random_choice w st seq, draw st).

Definition m_uniform (w : world) (a b : Qc) : M Qc :=
  fun st => (Return (random_uniform w st a b), draw st).

(** ** The fallback responder *)

Definition workload_keywords : list (string * list string) :=
  [("api_backend", ["api"; "rest"; "endpoint"; "backend"; "service"; "microservice"]);
   ("web_app", ["web"; "website"; "frontend"; "app"; "portal"; "dashboard"]);
   ("data_processing", ["data"; "process"; "etl"; "pipeline"; "batch"; "analytics"]);
   ("ml_inference", ["ml"; "ai"; "model"; "learning"; "inference"; "prediction"]);
   ("realtime_streaming", ["stream"; "realtime"; "live"; "websocket"; "socket"]);
   ("mobile_backend", ["mobile"; "app backend"; "ios"; "android"]);
   ("gaming_server", ["game"; "gaming"; "multiplayer"; "real-time"])].

Definition regions : list (string * list string) :=
  [("india", ["india"; "mumbai"; "delhi"; "bangalore"; "chennai"]);
   ("us-east", ["us east"; "virginia"; "us-east"]);
   ("us-west", ["us west"; "oregon"; "california"; "us-west"]);
   ("europe", ["europe"; "frankfurt"; "london"; "paris"]);
   ("asia", ["asia"; "singapore"; "tokyo"]);
   ("australia", ["australia"; "sydney"])].

(** The [for name, keywords in table.items(): if any(...): ...; break]
    loops: the first entry with a keyword in the input, else the default. *)
Fixpoint first_match (table : list (string * list string)) (input_lower : string)
    (dflt : string) : string :=
  match table with
  | [] => dflt
  | (name, keywords) :: table' =>
      if any_in keywords input_lower then name
      else first_match table' input_lower dflt
  end.

(** [s.replace(c, '')] for a one-character [c] *)
Fixpoint remove_char (c : Ascii.ascii) (s : string) : string :=
  match s with
  | EmptyString => EmptyString
  | String a s' =>
      if Ascii.eqb a c then remove_char c s' else String a (remove_char c s')
  end.

(** [int(float(text) * factor)] *)
Definition scaled_int (w : world) (text : string) (factor : Z) : result Z :=
  match py_float w text with
  | None => Raise (ValueError "could not convert string to float")
  | Some x => py_int_of_float (float_mul x factor)
  end.

Definition numbers_pattern : string := "\d+[,.]?\d*[kKmM]?".

Definition detect_monthly_users (w : world) (user_input : string) : M Z :=
  let numbers := re_findall w numbers_pattern user_input in
  match numbers with
  | [] => ret 10000%Z
  | first :: _ =>
      try_except
        (let num_str := lower first in
         if str_in "k" num_str then
           lift (scaled_int w (remove_char "k"%char num_str) 1000)
         else if str_in "m" num_str then
           lift (scaled_int w (remove_char "m"%char num_str) 1000000)
         else
           lift (match py_float w num_str with
                 | None => Raise (ValueError "could not convert string to float")
                 | Some x => py_int_of_float x
                 end))
        (fun _ => true)
        (fun _ => m_choice w [1000; 5000; 10000; 50000; 100000]%Z)
  end.

Definition estimate_rps (w : world) (monthly_users : Z) : M Z :=
  if (monthly_users <? 1000)%Z then m_randint w 1 10
  else if (monthly_users <? 10000)%Z then m_randint w 10 50
  else if (monthly_users <? 100000)%Z then m_randint w 50 200
  else m_randint w 200 1000.

Definition detect_traffic_pattern (w : world) (input_lower : string) : M string :=
  if any_in ["steady"; "consistent"; "constant"] input_lower then ret "steady"
  else if any_in ["burst"; "spike"; "peak"; "seasonal"] input_lower then ret "bursty"
  else if any_in ["variable"; "varying"] input_lower then ret "variable"
  else m_choice w ["steady"; "variable"; "bursty"].

Definition detect_latency (input_lower : string) : string :=
  if str_in "low latency" input_lower || str_in "fast" input_lower then "low"
  else if str_in "ultra low" input_lower || str_in "real-time" input_lower
  then "ultra_low"
  else "medium".

Definition detect_availability (input_lower : string) : string :=
  if str_in "high availability" input_lower || str_in "99.9" input_lower
  then "critical" else "high".

Definition detect_compliance (input_lower : string) : list pyval :=
  let compliance : list pyval := [] in
  let compliance :=
    if any_in ["gdpr"; "europe"] input_lower
    then (compliance ++ [VStr "gdpr"])%list else compliance in
  let compliance :=
    if any_in ["hipaa"; "health"] input_lower
    then (compliance ++ [VStr "hipaa"])%list else compliance in
  if any_in ["pci"; "payment"] input_lower
  then (compliance ++ [VStr "pci"])%list else compliance.

Definition detect_budget_sensitivity (input_lower : string) : string :=
  if str_in "budget" input_lower && any_in ["tight"; "low"; "cost"] input_lower
  then "high" else "medium".

Definition detect_team_experience (input_lower : string) : string :=
  if any_in ["junior"; "beginner"; "new"] input_lower then "junior"
  else if any_in ["senior"; "expert"] input_lower then "senior"
  else "intermediate".

Definition detect_time_to_market (input_lower : string) : string :=
  if any_in ["urgent"; "immediate"; "asap"] input_lower then "immediate"
  else if any_in ["week"; "soon"] input_lower then "1_week"
  else "1_month".

Definition mock_confidence (w : world) (user_input : string) : M Qc :=
  let word_count := split_len user_input in
  if (word_count <? 10)%nat then
    do! u := m_uniform w (qc 6 10) (qc 75 100) in ret (round2 u)
  else if (word_count <? 30)%nat then
    do! u := m_uniform w (qc 75 100) (qc 85 100) in ret (round2 u)
  else
    do! u := m_uniform w (qc 85 100) (qc 95 100) in ret (round2 u).

Definition _enhanced_mock_parse (w : world) (user_input : string) : M pyval :=
  let input_lower := lower user_input in
  let detected_workload := first_match workload_keywords input_lower "api_backend" in
  do! monthly_users := detect_monthly_users w user_input in
  do! estimated_rps := estimate_rps w monthly_users in
  do! traffic_pattern := detect_traffic_pattern w input_lower in
  let geography := first_match regions input_lower "global" in
  let latency := detect_latency input_lower in
  let availability := detect_availability input_lower in
  let compliance := detect_compliance input_lower in
  let budget_sensitivity := detect_budget_sensitivity input_lower in
  let team_experience := detect_team_experience input_lower in
  let time_to_market := detect_time_to_market input_lower in
  do! confidence := mock_confidence w user_input in
  fun st =>
    (Return (VDict
       [("workload_type", VStr detected_workload);
        ("scale", VDict [("monthly_users", VInt monthly_users);
                         ("estimated_rps", VInt estimated_rps);
                         ("traffic_pattern", VStr traffic_pattern)]);
        ("requirements", VDict [("latency", VStr latency);
                                ("availability", VStr availability);
                                ("geography", VStr geography);
                                ("compliance", VList compliance)]);
        ("constraints", VDict [("budget_sensitivity", VStr budget_sensitivity);
                               ("team_experience", VStr team_experience);
                               ("time_to_market", VStr time_to_market)]);
        ("parsing_confidence", VFloat (Fin confidence));
        ("parsing_source", VStr "enhanced_mock");
        ("llm_model", VStr "mock_heuristic_v1");
        ("timestamp", VStr (utcnow_isoformat w (trace st)))]), st).

(** ** The remote path *)

Definition dq : string := String (Ascii.ascii_of_nat 34) EmptyString.

Definition nl : string := String (Ascii.ascii_of_nat 10) EmptyString.

(** The lines of the prompt up to the request; the request continues the
    last one. *)
Definition prompt_header_lines : list string :=
  ["You are an expert cloud infrastructure architect at Google. Parse this user request into structured JSON.";
   EmptyString;
   "USER REQUEST: " +:+ dq].

(** The rest of the request's line and the lines after it. *)
Definition prompt_footer_lines : list string :=
  [dq;
   EmptyString;
   "Return ONLY a valid JSON object with these exact fields:";
   "- workload_type (must be one of: api_backend, web_app, data_processing, ml_inference, batch_processing, realtime_streaming, mobile_backend, gaming_server)";
   "- scale (object with: monthly_users [number], estimated_rps [number], traffic_pattern [string: steady/variable/bursty/seasonal])";
   "- requirements (object with: latency [string: ultra_low/low/medium/high], availability [string: critical/high/medium/low], geography [string], compliance [array of strings: gdpr/hipaa/pci/soc2])";
   "- constraints (object with: budget_sensitivity [string: very_low/low/medium/high], team_experience [string: beginner/junior/intermediate/senior/expert], time_to_market [string: immediate/1_week/1_month/flexible])";
   "- parsing_confidence (number between 0.0 and 1.0 with 2 decimal places)";
   EmptyString;
   "Example response format:";
   "{";
   "    " +:+ dq +:+ "workload_type" +:+ dq +:+ ": " +:+ dq +:+ "api_backend" +:+ dq +:+ ",";
   "    " +:+ dq +:+ "scale" +:+ dq +:+ ": {";
   "        " +:+ dq +:+ "monthly_users" +:+ dq +:+ ": 50000,";
   "        " +:+ dq +:+ "estimated_rps" +:+ dq +:+ ": 150,";
   "        " +:+ dq +:+ "traffic_pattern" +:+ dq +:+ ": " +:+ dq +:+ "variable" +:+ dq;
   "    },";
   "    " +:+ dq +:+ "requirements" +:+ dq +:+ ": {";
   "        " +:+ dq +:+ "latency" +:+ dq +:+ ": " +:+ dq +:+ "low" +:+ dq +:+ ",";
   "        " +:+ dq +:+ "availability" +:+ dq +:+ ": " +:+ dq +:+ "high" +:+ dq +:+ ",";
   "        " +:+ dq +:+ "geography" +:+ dq +:+ ": " +:+ dq +:+ "india" +:+ dq +:+ ",";
   "        " +:+ dq +:+ "compliance" +:+ dq +:+ ": [" +:+ dq +:+ "gdpr" +:+ dq +:+ "]";
   "    },";
   "    " +:+ dq +:+ "constraints" +:+ dq +:+ ": {";
   "        " +:+ dq +:+ "budget_sensitivity" +:+ dq +:+ ": " +:+ dq +:+ "medium" +:+ dq +:+ ",";
   "        " +:+ dq +:+ "team_experience" +:+ dq +:+ ": " +:+ dq +:+ "intermediate" +:+ dq +:+ ",";
   "        " +:+ dq +:+ "time_to_market" +:+ dq +:+ ": " +:+ dq +:+ "1_week" +:+ dq;
   "    },";
   "    " +:+ dq +:+ "parsing_confidence" +:+ dq +:+ ": 0.94";
   "}";
   EmptyString;
   "CRITICAL INSTRUCTIONS:";
   "1. Return ONLY the JSON object, no markdown, no code blocks, no explanations";
   "2. Estimate realistic numbers based on the user request";
   "3. If geography not specified, use " +:+ dq +:+ "global" +:+ dq;
   "4. If compliance not mentioned, use empty array []";
   "5. parsing_confidence should reflect your certainty";
   EmptyString;
   "JSON OUTPUT:"].

Definition _create_intent_parsing_prompt (user_input : string) : string :=
  String.concat nl prompt_header_lines +:+ user_input
  +:+ String.concat nl prompt_footer_lines.

Definition json_patterns : list string := ["(\{.*\})"; "(\[.*\])"].

Fixpoint search_json (w : world) (patterns : list string) (text : string)
  : option string :=
  match patterns with
  | [] => None
  | pattern :: patterns' =>
      match re_search w pattern text with
      | Some json_str =>
          match json_loads w json_str with
          | Some _ => Some json_str
          | None => search_json w patterns' text
          end
      | None => search_json w patterns' text
      end
  end.

Definition _extract_json_from_response (w : world) (text : string) : option string :=
  let text := re_sub w "```json\s*" EmptyString text in
  let text := re_sub w "```\s*" EmptyString text in
  search_json w json_patterns text.

(** The [hasattr] cascade that pulls the text out of a response; a missing
    attribute and an empty value both end in the empty string. *)
Definition extract_response_text (r : response) : string :=
  match response_text r with
  | Some text => text
  | None =>
      match response_candidates r with
      | Some (candidate :: _) =>
          match candidate_parts candidate with
          | Some parts => match parts with text :: _ => text | [] => EmptyString end
          | None => default EmptyString (candidate_content_text candidate)
          end
      | _ => EmptyString
      end
  end.

Definition is_empty (s : string) : bool :=
  match s with EmptyString => true | _ => false end.

Definition current_key_name : M string :=
  fun st => (Return (_get_current_key_name st), st).

Definition is_JSONDecodeError (e : exn) : bool :=
  String.eqb (exn_class e) "JSONDecodeError".

Definition default_max_retries : nat := 3.

Definition _parse_with_gemini (w : world) (self : instance) (user_input : string)
  : M pyval :=
  let prompt := _create_intent_parsing_prompt user_input in
  try_except
    (do! response := call_with_retry w self prompt default_max_retries in
     if negb (response_truthy response)
     then throw (ValueError "Failed to get response after retries")
     else
       let response_text := extract_response_text response in
       if is_empty response_text
       then throw (ValueError "Could not extract text from Gemini response")
       else
         match _extract_json_from_response w response_text with
         | None => throw (ValueError "Could not extract valid JSON from response")
         | Some json_text =>
             if is_empty json_text
             then throw (ValueError "Could not extract valid JSON from response")
             else
               match json_loads w json_text with
               | None => throw (JSONDecodeError "Expecting value")
               | Some result =>
                   do! _u := lift (_validate_intent_structure result) in
                   do! result := lift (py_setitem result "parsing_source" (VStr "gemini_api")) in
                   do! result := lift (py_setitem result "llm_model" (VStr (model_name self))) in
                   do! key_name := current_key_name in
                   do! result := lift (py_setitem result "active_key" (VStr key_name)) in
                   ret result
               end
         end)
    is_JSONDecodeError
    (fun _ => _enhanced_mock_parse w user_input).

(** ** The call contract *)

(** [int((time.time() - start_time) * 1000)] *)
Definition elapsed_ms (w : world) (start_time : Qc) (st : state) : Z :=
  int_of_Qc ((time_time w (trace st) - start_time) * Q2Qc (inject_Z 1000))%Qc.

Definition stamp (w : world) (start_time : Qc) (active_key : state -> string)
    (result : pyval) : M pyval :=
  fun st =>
    (try! result := py_setitem result "processing_time_ms"
                      (VInt (elapsed_ms w start_time st)) in
     py_setitem result "active_key" (VStr (active_key st)), st).

Definition parse_intent (w : world) (self : instance) (user_input : string)
  : M pyval :=
  fun st =>
    let start_time := time_time w (trace st) in
    try_except
      (do! result := _parse_with_gemini w self user_input in
       stamp w start_time _get_current_key_name result)
      (fun _ => true)
      (fun _ =>
         do! result := _enhanced_mock_parse w user_input in
         stamp w start_time (fun _ => "MOCK_FALLBACK") result)
      st.

(** ** Status methods and attribute lookup *)

Definition api_keys_value (st : state) : pyval :=
  VList ((fun '(name, key) => VList [VStr name; VStr key]) <$> _api_keys_loaded st).

Definition clients_value (st : state) : pyval :=
  VDict ((fun '(name, c) =>
            (name, match c with Some _ => VObject "genai.Client" | None => VNone end))
           <$> map_to_list (_shared_clients st)).

Definition key_failures_value (st : state) : pyval :=
  VDict ((fun '(name, n) => (name, VInt n)) <$> map_to_list (_shared_key_failures st)).

(** Names bound on the instance: the seven assignments of [__init__];
    no other method assigns an attribute of [self]. *)
Definition instance_dict (self : instance) (st : state) : list (string * pyval) :=
  [("api_keys", api_keys_value st);
   ("clients", clients_value st);
   ("key_failures", key_failures_value st);
   ("model_name", VStr (model_name self));
   ("max_tokens", VInt (max_tokens self));
   ("temperature", VFloat (temperature self));
   ("mock_mode", VBool (mock_mode self))].

Definition method_names : list string :=
  ["__init__"; "_load_api_keys"; "_initialize_all_clients"; "_get_current_key_name";
   "_rotate_to_next_key"; "_get_key_name_at"; "_get_current_client";
   "call_with_retry"; "parse_intent"; "_parse_with_gemini";
   "_create_intent_parsing_prompt"; "_extract_json_from_response";
   "_validate_intent_structure"; "_enhanced_mock_parse"; "get_status";
   "get_key_rotation_info"].

(** Names bound in the class body, followed by what every object has. *)
Definition class_dict (st : state) : list (string * pyval) :=
  ([("_shared_key_index", VInt (Z.of_nat (_shared_key_index st)));
    ("_shared_key_failures", key_failures_value st);
    ("_shared_clients", clients_value st);
    ("_api_keys_loaded", api_keys_value st);
    ("_all_keys_exhausted", VBool (_all_keys_exhausted st))]
   ++ ((fun name => (name, VObject "method")) <$> method_names)
   ++ [("__class__", VObject "GeminiClient"); ("__dict__", VObject "dict");
       ("__doc__", VStr "Production Gemini client with multi-key support and rotation");
       ("__module__", VStr "core.gemini_client")])%list.

(** [self.<name>]: the instance first, then the class; the class defines no
    [__getattr__]. *)
Definition getattr (self : instance) (st : state) (name : string) : result pyval :=
  match dict_get (instance_dict self st) name with
  | Some v => Return v
  | None =>
      match dict_get (class_dict st) name with
      | Some v => Return v
      | None =>
          Raise (AttributeError
                   ("'GeminiClient' object has no attribute '" +:+ name +:+ "'"))
      end
  end.

Definition get_status (self : instance) (st : state) : pyval :=
  let key_status :=
    (fun '(name, _) =>
       (name, VDict
          [("initialized", VBool (is_some (clients_get st name)));
           ("failures", VInt (default 0%Z (_shared_key_failures st !! name)));
           ("is_current", VBool (String.eqb name (_get_current_key_name st)))]))
      <$> _api_keys_loaded st in
  VDict
    [("current_key", VStr (_get_current_key_name st));
     ("total_keys", VInt (Z.of_nat (length (_api_keys_loaded st))));
     ("keys", VDict key_status);
     ("model_name", VStr (model_name self));
     ("mock_mode", VBool (mock_mode self));
     ("max_tokens", VInt (max_tokens self));
     ("temperature", VFloat (temperature self))].

Definition get_key_rotation_info (self : instance) (st : state) : result pyval :=
  let current_key := _get_current_key_name st in
  try! current_index := getattr self st "current_key_index" in
  Return (VDict
    [("current_key", VStr current_key);
     ("current_index", current_index);
     ("total_keys", VInt (Z.of_nat (length (_api_keys_loaded st))));
     ("key_failures", key_failures_value st);
     ("keys", VList ((fun '(name, _) => VStr name) <$> _api_keys_loaded st))]).

(** ** Sequences of dispatcher operations *)

Inductive op : Type :=
  | OpInit
  | OpRotate
  | OpRecordFailure (key_name : string)
  | OpRecordSuccess (key_name : string)
  | OpCall (prompt : string) (max_retries : nat)
  | OpParse (user_input : string).

Definition run_op (w : world) (self : instance) (o : op) (st : state) : state :=
  match o with
  | OpInit => snd (__init__ w st)
  | OpRotate => snd (_rotate_to_next_key st)
  | OpRecordFailure key_name => record_failure key_name st
  | OpRecordSuccess key_name => record_success key_name st
  | OpCall prompt max_retries => snd (call_with_retry w self prompt max_retries st)
  | OpParse user_input => snd (parse_intent w self user_input st)
  end.

Definition run_ops (w : world) (self : instance) (ops : list op) (st : state)
  : state :=
  fold_left (fun st o => run_op w self o st) ops st.

(** The slot under the current index has a client that was constructed. *)
Definition current_usable (st : state) : bool :=
  is_some (_get_current_client st).

(** The current index is a position of the pool (or the pool is still
    empty and the index is where the class body put it). *)
Definition index_ok (st : state) : Prop :=
  (_api_keys_loaded st = [] /\ _shared_key_index st = 0%nat)
  \/ (_shared_key_index st < length (_api_keys_loaded st))%nat.

(** [st'] has the pool and the clients of [st]. *)
Definition same_pool (st st' : state) : Prop :=
  _api_keys_loaded st' = _api_keys_loaded st
  /\ _shared_clients st' = _shared_clients st.


(** ** A concrete world for examples

    The remote endpoint answers by the first letter of the API key: keys
    starting with [q] are out of quota, keys starting with [e] fail for
    another reason, all others succeed.  The SDK refuses the key [bad]. *)

Definition sample_response (text : string) : response :=
  {| response_truthy := true; response_text := Some text;
     response_candidates := None |}.

Definition quota_error : exn := Exn "ClientError" "429 RESOURCE_EXHAUSTED".
Definition server_error : exn := Exn "ServerError" "500 INTERNAL".

Definition sample_world (env : list (string * string)) : world := {|
  environ := list_to_map env;
  genai_Client := fun k => if String.eqb k "bad" then None else Some (Client k);
  generate_content := fun _ c _ _ _ _ =>
    if prefixb "q" (client_api_key c) then Raise quota_error
    else if prefixb "e" (client_api_key c) then Raise server_error
    else Return (sample_response (client_api_key c));
  entropy := fun _ => (2 ^ 52)%N;
  time_time := fun _ => Q2Qc 0;
  utcnow_isoformat := fun _ => "2025-01-01T00:00:00";
  re_sub := fun _ _ text => text;
  re_search := fun _ text => Some text;
  re_findall := fun _ _ => [];
  json_loads := fun _ => None;
  py_int := fun _ => Some 8192%Z;
  py_float := fun _ => Some (Fin (qc 2 10))
|}.

Definition sample_instance : instance :=
  {| model_name := "gemini-2.5-flash-lite"; max_tokens := 8192;
     temperature := Fin (qc 2 10); mock_mode := false |}.

(** The shared state right after the first instance was built. *)
Definition started (w : world) : state := snd (__init__ w class_initial).

(** The key names of the remote calls in a trace, in order. *)
Definition called_keys (tr : list event) : list string :=
  omap (fun e => match e with EvCall k _ _ => Some k | _ => None end) tr.

(** The waits taken in a trace, as attempt numbers. *)
Definition sleeps (tr : list event) : list nat :=
  omap (fun e => match e with EvSleep a _ => Some a | _ => None end) tr.

(** The waits taken in a trace, as durations in seconds. *)
Definition waits (tr : list event) : list Qc :=
  omap (fun e => match e with EvSleep _ d => Some d | _ => None end) tr.

Definition rotations (tr : list event) : list (string * string) :=
  omap (fun e => match e with EvRotation a b => Some (a, b) | _ => None end) tr.

(** ** Vocabulary for the statements about a dispatch *)

Definition pool_names (st : state) : list string := (_api_keys_loaded st).*1.

(** Every slot of the pool has a client. *)
Definition all_usable (st : state) : Prop :=
  Forall (fun name => is_some (clients_get st name) = true) (pool_names st).

(** The endpoint answers every call for [prompt] with a quota error. *)
Definition always_quota (w : world) (self : instance) (prompt : string) : Prop :=
  forall tr c, exists e,
    generate_content w tr c (model_name self) prompt
      (temperature self) (max_tokens self) = Raise e
    /\ is_quota_error (exn_str e) = true.

(** The names met when walking the ring of slots from [start], [count]
    slots long. *)
Definition ring_names (st : state) (start count : nat) : list string :=
  (fun j => _get_key_name_at st ((start + j) mod length (_api_keys_loaded st)))
    <$> seq 0 count.

(** The wait after attempt [a] lies between [2^a] and [2^a + 1]. *)
Definition delay_in_band (a : nat) (d : Qc) : Prop :=
  (Q2Qc (inject_Z (2 ^ Z.of_nat a)) <= d)%Qc
  /\ (d <= Q2Qc (inject_Z (2 ^ Z.of_nat a)) + 1)%Qc.

(** A wait is justified when the two events before it are a call that ran
    into the quota and the rotation from that slot to another one, in an
    attempt below the retry bound. *)
Definition wait_justified (max_retries : nat) (prev2 prev1 : option event)
    (a : nat) (d : Qc) : Prop :=
  match prev2, prev1 with
  | Some (EvCall k a' QuotaExhausted), Some (EvRotation k1 k2) =>
      a' = a /\ k1 = k /\ k2 <> k /\ (a < max_retries)%nat /\ delay_in_band a d
  | _, _ => False
  end.

(** A call made right after a wait goes to the slot rotated to. *)
Definition call_after_wait (prev2 prev1 : option event) (k : string) : Prop :=
  match prev2, prev1 with
  | Some (EvRotation _ k2), Some (EvSleep _ _) => k = k2
  | _, _ => True
  end.

Fixpoint waits_ok (max_retries : nat) (prev2 prev1 : option event)
    (tr : list event) : Prop :=
  match tr with
  | [] => True
  | ev :: tr' =>
      match ev with
      | EvSleep a d => wait_justified max_retries prev2 prev1 a d
      | EvCall k _ _ => call_after_wait prev2 prev1 k
      | EvRotation _ _ => True
      end
      /\ waits_ok max_retries prev1 (Some ev) tr'
  end.

Definition ends_with_wait (tr : list event) : bool :=
  match reverse tr with
  | EvSleep _ _ :: _ => true
  | _ => false
  end.

(** The events of the attempts from number [a] on, starting on the slot
    [cur] whose client exists. *)
Inductive calls (m : nat) : nat -> string -> list event -> Prop :=
  | calls_none a cur : calls m a cur []
  | calls_last a cur o : calls m a cur [EvCall cur a o]
  | calls_retry a cur next d tr :
      next <> cur -> (a < m)%nat -> delay_in_band a d ->
      calls m (S a) next tr ->
      calls m a cur
        (EvCall cur a QuotaExhausted :: EvRotation cur next :: EvSleep a d :: tr).

(** The same from a slot that may lack a client: such a slot is skipped
    by a rotation, logged when it finds another slot. *)
Inductive attempts (m : nat) : nat -> list event -> Prop :=
  | attempts_calls a cur tr : calls m a cur tr -> attempts m a tr
  | attempts_skip a orig next tr :
      calls m (S a) next tr -> attempts m a (EvRotation orig next :: tr)
  | attempts_stuck a tr : attempts m (S a) tr -> attempts m a tr.

(** No slot of the loaded pool gets a client. *)
Definition no_usable_slot (w : world) : Prop :=
  Forall (fun entry => genai_Client w (snd entry) = None) (_load_api_keys w).

(** Both numeric settings of the constructor, or their defaults, are
    accepted by [int] and [float]. *)
Definition settings_parse (w : world) : bool :=
  is_some (py_int w (default "8192" (getenv w "GEMINI_MAX_TOKENS")))
  && is_some (py_float w (default "0.2" (getenv w "GEMINI_TEMPERATURE"))).

(** The shared state of a client without a usable slot: the pool is what the
    environment gives, no name has a client, nothing was called, rotated
    or waited for, and the breaker is untripped. *)
Definition idle_without_client (w : world) (st : state) : Prop :=
  _api_keys_loaded st = _load_api_keys w
  /\ (forall name, clients_get st name = None)
  /\ trace st = []
  /\ _all_keys_exhausted st = false.

(** The SDK accepts every key of the loaded pool. *)
Definition every_key_accepted (w : world) : Prop :=
  Forall (fun entry => is_some (genai_Client w (snd entry)) = true)
    (_load_api_keys w).

(** ** Vocabulary for the statements about results *)

(** [st'] differs from [st] at most in the number of random draws. *)
Definition rng_only (st st' : state) : Prop := exists n, st' = set_rng n st.

(** A payload that passes [_validate_intent_structure] and carries a
    confidence between 0 and 1. *)
Definition valid_payload (v : pyval) : Prop :=
  _validate_intent_structure v = Return tt
  /\ exists d c, v = VDict d
       /\ Forall (fun field => is_some (dict_get d field) = true) required_fields
       /\ dict_get d "parsing_confidence" = Some (VFloat (Fin c))
       /\ (0 <= c)%Qc /\ (c <= 1)%Qc.

(** A result that came from the fallback responder. *)
Definition fallback_result (r : result pyval) : Prop :=
  exists d, r = Return (VDict d)
    /\ dict_get d "parsing_source" = Some (VStr "enhanced_mock")
    /\ dict_get d "active_key" = Some (VStr "MOCK_FALLBACK")
    /\ valid_payload (VDict d).

(** One [parse_intent] per input, in order, on the shared state. *)
Fixpoint parse_all (w : world) (self : instance) (inputs : list string)
    (st : state) : list (result pyval) * state :=
  match inputs with
  | [] => ([], st)
  | user_input :: inputs' =>
      let '(r, st) := parse_intent w self user_input st in
      let '(rs, st) := parse_all w self inputs' st in
      (r :: rs, st)
  end.

Definition not_sleep (p : option event) : Prop :=
  match p with Some (EvSleep _ _) => False | _ => True end.

(** ** Vocabulary for the further statements *)

(** The environment variable behind each slot name, in loading order. *)
Definition slot_variables : list (string * string) :=
  [("PRIMARY", "GEMINI_API_KEY"); ("BACKUP_1", "GEMINI_API_KEY_1");
   ("BACKUP_2", "GEMINI_API_KEY_2"); ("BACKUP_3", "GEMINI_API_KEY_3")].

(** The entry a slot contributes to the pool: its variable is set to a
    string that is not empty. *)
Definition slot_entry (w : world) (slot : string * string)
  : option (string * string) :=
  match environ w !! slot.2 with
  | Some (String c s) => Some (slot.1, String c s)
  | _ => None
  end.

(** The slot at position [i] is one a rotation away from the slot named
    [original_key] may stop at: it has a client and another name. *)
Definition eligible (st : state) (original_key : string) (i : nat) : bool :=
  is_some (clients_get st (_get_key_name_at st i))
  && negb (String.eqb (_get_key_name_at st i) original_key).

(** A call in a trace that ran into the quota, and any other event. *)
Definition quota_or_no_call (e : event) : Prop :=
  match e with
  | EvCall _ _ o => o = QuotaExhausted
  | _ => True
  end.

(** A remote call on [key_name] that did not succeed. *)
Definition failed_call_on (key_name : string) (e : event) : bool :=
  match e with
  | EvCall k _ Succeeded => false
  | EvCall k _ _ => String.eqb k key_name
  | _ => false
  end.

(** How many calls on [key_name] in a trace did not succeed. *)
Definition failed_calls (key_name : string) (tr : list event) : Z :=
  Z.of_nat (length (List.filter (failed_call_on key_name) tr)).

(** [self.key_failures.get(key_name, 0)] *)
Definition failures_of (st : state) (key_name : string) : Z :=
  default 0%Z (_shared_key_failures st !! key_name).

(** No slot of the pool other than those named [key_name] has a client. *)
Definition no_alternative (st : state) (key_name : string) : Prop :=
  Forall (fun name => name = key_name \/ clients_get st name = None)
    (pool_names st).

(** A parsed intent as [_validate_intent_structure] wants it: a dictionary
    with the five required fields, a workload type from the list and a
    confidence that is a number between 0 and 1. *)
Definition well_formed_intent (v : pyval) : Prop :=
  exists d workload confidence,
    v = VDict d
    /\ Forall (fun field => is_some (dict_get d field) = true) required_fields
    /\ dict_get d "workload_type" = Some (VStr workload)
    /\ workload ∈ valid_workloads
    /\ dict_get d "parsing_confidence" = Some confidence
    /\ confidence_ok confidence = true.

(** The first required field a dictionary lacks, in the order of the
    check. *)
Definition first_missing (d : list (string * pyval)) : option string :=
  List.find (fun field => negb (is_some (dict_get d field))) required_fields.

(** [v[k1][k2]...] through nested dictionaries. *)
Fixpoint py_path (v : pyval) (path : list string) : option pyval :=
  match path with
  | [] => Some v
  | key :: path' =>
      match v with
      | VDict d =>
          match dict_get d key with
          | Some v' => py_path v' path'
          | None => None
          end
      | _ => None
      end
  end.

(** The range [random.randint] is asked for, by the number of users. *)
Definition rps_band (monthly_users : Z) : Z * Z :=
  if (monthly_users <? 1000)%Z then (1, 10)%Z
  else if (monthly_users <? 10000)%Z then (10, 50)%Z
  else if (monthly_users <? 100000)%Z then (50, 200)%Z
  else (200, 1000)%Z.

(** The range [random.uniform] is asked for, in hundredths, by the number
    of words. *)
Definition confidence_band (word_count : nat) : Z * Z :=
  if (word_count <? 10)%nat then (60, 75)%Z
  else if (word_count <? 30)%nat then (75, 85)%Z
  else (85, 95)%Z.

(** The string under [path] is one of [values]. *)
Definition field_in (v : pyval) (path : list string) (values : list string)
  : Prop :=
  exists s, py_path v path = Some (VStr s) /\ s ∈ values.

(** The response text with the code fences removed. *)
Definition without_fences (w : world) (text : string) : string :=
  re_sub w "```\s*" EmptyString (re_sub w "```json\s*" EmptyString text).

(** What [pattern] finds in the cleaned text, if [json.loads] accepts it. *)
Definition json_candidate (w : world) (pattern text : string) : option string :=
  match re_search w pattern (without_fences w text) with
  | Some json_str => if is_some (json_loads w json_str) then Some json_str else None
  | None => None
  end.

(** The provenance fields of a result. *)
Definition tagged (d : list (string * pyval)) (source model key : string) : Prop :=
  dict_get d "parsing_source" = Some (VStr source)
  /\ dict_get d "llm_model" = Some (VStr model)
  /\ dict_get d "active_key" = Some (VStr key).

(** The entry [get_status] reports for one slot. *)
Definition key_status_of (st : state) (name : string) : pyval :=
  VDict [("initialized", VBool (is_some (clients_get st name)));
         ("failures", VInt (failures_of st name));
         ("is_current", VBool (String.eqb name (_get_current_key_name st)))].

(** The names a status report flags as current. *)
Definition flagged_current (keys : list (string * pyval)) : list string :=
  omap (fun entry =>
          match py_path entry.2 ["is_current"] with
          | Some (VBool true) => Some entry.1
          | _ => None
          end) keys.

(** The pool is empty or what the environment of [w] gives. *)
Definition pool_loaded_from (w : world) (st : state) : Prop :=
  _api_keys_loaded st = [] \/ _api_keys_loaded st = _load_api_keys w.

(** ** Phase 1 on a parsed intent ([phases/phase1_intent_capture.py]) *)

Definition categories : list (string * string) :=
  [("api_backend", "compute_intensive");
   ("web_app", "compute_intensive");
   ("data_processing", "data_intensive");
   ("ml_inference", "ai_ml");
   ("batch_processing", "data_intensive");
   ("realtime_streaming", "realtime");
   ("mobile_backend", "compute_intensive");
   ("gaming_server", "realtime")].

(** [table.get(key, dflt)] on a dictionary keyed by strings: a key of
    another hashable type is not in it; a list or a dictionary cannot be
    hashed. *)
Definition table_get (table : list (string * string)) (key : pyval)
    (dflt : string) : result string :=
  match key with
  | VStr s =>
      Return (default dflt
                (snd <$> List.find (fun entry => String.eqb (fst entry) s) table))
  | VList _ | VDict _ => Raise (TypeError "unhashable type")
  | _ => Return dflt
  end.

Definition _categorize_workload (workload_type : pyval) : result string :=
  table_get categories workload_type "general".

Definition Qc_ltb (a b : Qc) : bool := negb (Qc_leb b a).

(** [x < n] for an integer [n] *)
Definition py_lt_int (x : pyval) (n : Z) : result bool :=
  match x with
  | VInt z => Return (z <? n)%Z
  | VBool b => Return ((if b then 1 else 0) <? n)%Z
  | VFloat (Fin q) => Return (Qc_ltb q (Q2Qc (inject_Z n)))
  | VFloat (Inf negative) => Return negative
  | VFloat NaN => Return false
  | _ => Raise (TypeError "'<' not supported between these instances")
  end.

Definition _determine_scale_tier (monthly_users : pyval) : result string :=
  try! tiny := py_lt_int monthly_users 1000 in
  if tiny then Return "tier_1_tiny"
  else
    try! small := py_lt_int monthly_users 10000 in
    if small then Return "tier_2_small"
    else
      try! medium := py_lt_int monthly_users 100000 in
      if medium then Return "tier_3_medium"
      else
        try! large := py_lt_int monthly_users 1000000 in
        if large then Return "tier_4_large" else Return "tier_5_enterprise".

(** Truth value of a value in an [if]. *)
Definition py_truthy (v : pyval) : bool :=
  match v with
  | VNone => false
  | VBool b => b
  | VInt z => negb (z =? 0)%Z
  | VFloat (Fin q) => negb (Qc_leb q 0 && Qc_leb 0 q)
  | VFloat _ => true
  | VStr s => negb (is_empty s)
  | VList l => negb (is_nil l)
  | VDict d => negb (is_nil d)
  | VObject _ => true
  end.

(** [v == s] and [v in strings] for strings: a value of another type
    equals none. *)
Definition py_eq_str (v : pyval) (s : string) : bool :=
  match v with VStr t => String.eqb t s | _ => false end.

Definition py_in_strs (v : pyval) (strings : list string) : bool :=
  existsb (py_eq_str v) strings.

(** [data[outer][inner]] *)
Definition py_getitem2 (data : pyval) (outer inner : string) : result pyval :=
  try! obj := py_getitem data outer in py_getitem obj inner.

Definition _assess_risk_level (intent_result : pyval) : result string :=
  let risk_factors := 0%Z in
  try! team_experience := py_getitem2 intent_result "constraints" "team_experience" in
  let risk_factors :=
    if py_in_strs team_experience ["beginner"; "junior"]
    then (risk_factors + 1)%Z else risk_factors in
  try! availability := py_getitem2 intent_result "requirements" "availability" in
  let risk_factors :=
    if py_eq_str availability "critical"
    then (risk_factors + 1)%Z else risk_factors in
  try! compliance := py_getitem2 intent_result "requirements" "compliance" in
  let risk_factors :=
    if py_truthy compliance then (risk_factors + 1)%Z else risk_factors in
  try! time_to_market := py_getitem2 intent_result "constraints" "time_to_market" in
  let risk_factors :=
    if py_eq_str time_to_market "immediate"
    then (risk_factors + 1)%Z else risk_factors in
  if (risk_factors =? 0)%Z then Return "low"
  else if (risk_factors <=? 2)%Z then Return "medium"
  else Return "high".

(** The slot at position [p] is out of quota for [prompt] whenever it is
    called. *)
Definition slot_out_of_quota (w : world) (self : instance) (prompt : string)
    (st : state) (p : nat) : Prop :=
  forall c tr,
    clients_get st (_get_key_name_at st p) = Some c ->
    exists e,
      generate_content w tr c (model_name self) prompt
        (temperature self) (max_tokens self) = Raise e
      /\ is_quota_error (exn_str e) = true.

(** The slot at position [p] answers [prompt] with [resp] whenever it is
    called. *)
Definition slot_answers (w : world) (self : instance) (prompt : string)
    (st : state) (p : nat) (resp : response) : Prop :=
  forall c tr,
    clients_get st (_get_key_name_at st p) = Some c ->
    generate_content w tr c (model_name self) prompt
      (temperature self) (max_tokens self) = Return resp.

(** The position [j] slots after the current one, in ring order. *)
Definition ring_position (st : state) (j : nat) : nat :=
  (_shared_key_index st + j) mod length (_api_keys_loaded st).

(** The example response of the prompt, as a value. *)
Definition sample_payload : pyval :=
  VDict [("workload_type", VStr "api_backend");
         ("scale", VDict [("monthly_users", VInt 50000);
                          ("estimated_rps", VInt 150);
                          ("traffic_pattern", VStr "variable")]);
         ("requirements", VDict [("latency", VStr "low");
                                 ("availability", VStr "high");
                                 ("geography", VStr "india");
                                 ("compliance", VList [VStr "gdpr"])]);
         ("constraints", VDict [("budget_sensitivity", VStr "medium");
                                ("team_experience", VStr "intermediate");
                                ("time_to_market", VStr "1_week")]);
         ("parsing_confidence", VFloat (Fin (qc 94 100)))].

(** The sample world with a JSON library that reads every text as
    [sample_payload]. *)
Definition answering_world (env : list (string * string)) : world :=
  let w := sample_world env in
  {| environ := environ w;
     genai_Client := genai_Client w;
     generate_content := generate_content w;
     entropy := entropy w;
     time_time := time_time w;
     utcnow_isoformat := utcnow_isoformat w;
     re_sub := re_sub w;
     re_search := re_search w;
     re_findall := re_findall w;
     json_loads := fun _ => Some sample_payload;
     py_int := py_int w;
     py_float := py_float w |}.

(** * Properties *)


(** ** Rotation *)

Lemma same_pool_refl st : same_pool st st.
Proof. by split. Qed.

Lemma same_pool_trans st1 st2 st3 :
  same_pool st1 st2 -> same_pool st2 st3 -> same_pool st1 st3.
Proof. intros [H1 H2] [H3 H4]. split; congruence. Qed.

Lemma clients_get_same_pool st st' name :
  same_pool st st' -> clients_get st' name = clients_get st name.
Proof. intros [_ H]. unfold clients_get. by rewrite H. Qed.

Lemma key_name_at_same_pool st st' i :
  same_pool st st' -> _get_key_name_at st' i = _get_key_name_at st i.
Proof. intros [H _]. unfold _get_key_name_at. by rewrite H. Qed.

(** What a rotation loop leaves alone, and what it guarantees when it
    reports success. *)
Lemma rotate_loop_spec n orig st :
  let r := rotate_loop n orig st in
  same_pool st (snd r)
  /\ _shared_key_failures (snd r) = _shared_key_failures st
  /\ _all_keys_exhausted (snd r) = _all_keys_exhausted st
  /\ rng (snd r) = rng st
  /\ (fst r = false -> trace (snd r) = trace st)
  /\ (fst r = true ->
      current_usable (snd r) = true
      /\ _get_current_key_name (snd r) <> orig
      /\ trace (snd r)
         = (trace st ++ [EvRotation orig (_get_current_key_name (snd r))])%list).
Proof.
  revert st. induction n as [|n IH]; intros st; simpl.
  - split_and!; done.
  - set (st1 := set_index _ st).
    destruct (is_some (clients_get st1 (_get_current_key_name st1))
              && negb (String.eqb (_get_current_key_name st1) orig)) eqn:Hc.
    + apply andb_true_iff in Hc as [Hu Hne]. simpl.
      apply negb_true_iff, String.eqb_neq in Hne.
      split_and!; try done.
    + destruct (IH st1) as (Hp & Hf & He & Hr & Hfalse & Htrue).
      split_and!; try done.
Qed.

Lemma rotate_loop_index n orig st :
  (0 < length (_api_keys_loaded st))%nat ->
  let st' := snd (rotate_loop n orig st) in
  _shared_key_index st' = _shared_key_index st
  \/ (_shared_key_index st' < length (_api_keys_loaded st))%nat.
Proof.
  revert st. induction n as [|n IH]; intros st Hlen; simpl; [by left|].
  set (st1 := set_index _ st).
  assert (Hlt : (_shared_key_index st1 < length (_api_keys_loaded st))%nat).
  { subst st1. simpl. apply Nat.mod_upper_bound. lia. }
  destruct (is_some _ && _); simpl; [by right|].
  destruct (IH st1 Hlen) as [H|H].
  - right. fold st1. rewrite H. done.
  - right. done.
Qed.

Lemma rotate_spec st :
  let r := _rotate_to_next_key st in
  same_pool st (snd r)
  /\ _shared_key_failures (snd r) = _shared_key_failures st
  /\ _all_keys_exhausted (snd r) = _all_keys_exhausted st
  /\ rng (snd r) = rng st
  /\ (fst r = false -> trace (snd r) = trace st)
  /\ (fst r = true ->
      current_usable (snd r) = true
      /\ _get_current_key_name (snd r) <> _get_current_key_name st
      /\ trace (snd r)
         = (trace st ++ [EvRotation (_get_current_key_name st)
                           (_get_current_key_name (snd r))])%list).
Proof.
  unfold _rotate_to_next_key.
  destruct (length (_api_keys_loaded st) =? 1)%nat.
  - simpl. split_and!; done.
  - apply rotate_loop_spec.
Qed.

Lemma rotate_index_ok st :
  index_ok st -> index_ok (snd (_rotate_to_next_key st)).
Proof.
  intros Hok. unfold _rotate_to_next_key.
  destruct (length (_api_keys_loaded st) =? 1)%nat; [done|].
  destruct Hok as [[Hnil Hz]|Hlt].
  - rewrite Hnil. simpl. left. done.
  - pose proof (rotate_loop_spec (length (_api_keys_loaded st) - 1)
                  (_get_key_name_at st (_shared_key_index st)) st) as ((Hk & _) & _).
    destruct (rotate_loop_index (length (_api_keys_loaded st) - 1)
                (_get_key_name_at st (_shared_key_index st)) st) as [H|H];
      [lia| |]; right; rewrite Hk; lia.
Qed.

(** ** The dispatcher keeps the pool and the index in range *)

Lemma index_ok_ext st st' :
  _api_keys_loaded st' = _api_keys_loaded st ->
  _shared_key_index st' = _shared_key_index st ->
  index_ok st -> index_ok st'.
Proof. unfold index_ok. intros -> ->. done. Qed.

Lemma retry_loop_pool w self prompt remaining :
  forall attempt last_error st,
    let r := retry_loop w self prompt remaining attempt last_error st in
    same_pool st (snd r) /\ (index_ok st -> index_ok (snd r)).
Proof.
  induction remaining as [|remaining IH]; intros attempt last_error st; simpl.
  { split; [apply same_pool_refl | done]. }
  destruct (_all_keys_exhausted st).
  { split; [apply same_pool_refl | done]. }
  destruct (_get_current_client st) as [c|].
  - destruct (generate_content w (trace st) c (model_name self) prompt
                (temperature self) (max_tokens self)) as [resp|e]; simpl.
    { split; [by split | by apply index_ok_ext]. }
    destruct (is_quota_error (exn_str e)); simpl; [|split; [by split | by apply index_ok_ext]].
    match goal with |- context [_rotate_to_next_key ?s] => set (st1 := s) end.
    pose proof (rotate_spec st1) as (Hp & _).
    pose proof (rotate_index_ok st1) as Hi.
    destruct (_rotate_to_next_key st1) as [rotated st2]; simpl in *.
    assert (Hp1 : same_pool st st1) by (by split).
    assert (Hi1 : index_ok st -> index_ok st1) by (by apply index_ok_ext).
    destruct rotated; simpl.
    + match goal with |- context [retry_loop _ _ _ _ _ _ ?s] => set (st3 := s) end.
      destruct (IH (S attempt) (Some e) st3) as [Hp3 Hi3].
      assert (Hp23 : same_pool st2 st3) by (by split).
      split.
      * eauto using same_pool_trans.
      * intros H. apply Hi3. eapply (index_ok_ext st2); [done..|]. auto.
    + split.
      * eapply same_pool_trans; [exact Hp1|]. destruct Hp. by split.
      * intros H. eapply (index_ok_ext st2); [done..|]. auto.
  - pose proof (rotate_spec st) as (Hp & _).
    pose proof (rotate_index_ok st) as Hi.
    destruct (_rotate_to_next_key st) as [rotated st2]; simpl in *.
    destruct (IH (S attempt) last_error st2) as [Hp3 Hi3].
    split; [eauto using same_pool_trans | auto].
Qed.

Lemma call_with_retry_pool w self prompt max_retries st :
  let r := call_with_retry w self prompt max_retries st in
  same_pool st (snd r) /\ (index_ok st -> index_ok (snd r)).
Proof.
  unfold call_with_retry. destruct (_all_keys_exhausted st).
  - split; [apply same_pool_refl | done].
  - apply retry_loop_pool.
Qed.

(** ** Numbers: the random fraction, [uniform] and [round] *)

Lemma Q2Qc_le (p q : Q) : (p <= q)%Q -> (Q2Qc p <= Q2Qc q)%Qc.
Proof. intros H. unfold Qcle. simpl. by rewrite !Qred_correct. Qed.

Lemma Q2Qc_lt (p q : Q) : (p < q)%Q -> (Q2Qc p < Q2Qc q)%Qc.
Proof. intros H. unfold Qclt. simpl. by rewrite !Qred_correct. Qed.

Lemma random_random_bounds w st :
  (0 <= random_random w st)%Qc /\ (random_random w st < 1)%Qc.
Proof.
  unfold random_random.
  assert (H : (0 <= Z.of_N (entropy w (rng st) mod 2 ^ 53) < 2 ^ 53)%Z).
  { split; [apply N2Z.is_nonneg|]. change (2 ^ 53)%Z with (Z.of_N (2 ^ 53)).
    apply N2Z.inj_lt, N.mod_upper_bound. done. }
  split.
  - change 0%Qc with (Q2Qc 0). apply Q2Qc_le. unfold Qle. simpl. lia.
  - apply Q2Qc_lt. unfold Qlt. simpl. lia.
Qed.

Lemma random_uniform_bounds w st (a b : Qc) :
  (a <= b)%Qc ->
  (a <= random_uniform w st a b)%Qc /\ (random_uniform w st a b <= b)%Qc.
Proof.
  intros Hab. unfold random_uniform.
  destruct (random_random_bounds w st) as [H0 H1].
  set (r := random_random w st) in *.
  assert (Hd : (0 <= b - a)%Qc).
  { apply Qcle_minus_iff in Hab. done. }
  split.
  - rewrite <- (Qcplus_0_r a) at 1. apply Qcplus_le_compat; [apply Qcle_refl|].
    rewrite <- (Qcmult_0_l r). by apply Qcmult_le_compat_r.
  - replace b with (a + (b - a) * 1)%Qc at 2 by ring.
    apply Qcplus_le_compat; [apply Qcle_refl|].
    rewrite !(Qcmult_comm (b - a)).
    apply Qcmult_le_compat_r; [by apply Qclt_le_weak | done].
Qed.

(** Rounding to two decimals keeps a probability a probability. *)
Lemma round2_unit (q : Qc) :
  (0 <= q)%Qc -> (q <= 1)%Qc -> (0 <= round2 q)%Qc /\ (round2 q <= 1)%Qc.
Proof.
  intros H0 H1. unfold Qcle in H0, H1. simpl in H0, H1.
  unfold Qle in H0, H1. simpl in H0, H1.
  unfold round2, qc.
  destruct (this q) as [n d]. simpl in *.
  set (f := (n * 100 / Z.pos (d * 1))%Z).
  assert (Hd : Z.pos (d * 1) = Z.pos d) by lia.
  assert (Hf0 : (0 <= f)%Z) by (apply Z.div_pos; lia).
  assert (Hmod : (n * 100 = Z.pos (d * 1) * f + (n * 100) mod Z.pos (d * 1))%Z)
    by (apply Z.div_mod; lia).
  assert (Hr : (0 <= (n * 100) mod Z.pos (d * 1) < Z.pos (d * 1))%Z)
    by (apply Z.mod_pos_bound; lia).
  assert (Hf100 : (f <= 100)%Z) by nia.
  set (m := match _ with Lt => f | Eq => _ | Gt => _ end).
  assert (Hm : (0 <= m <= 100)%Z).
  { subst m.
    destruct (Z.compare_spec (2 * (n * 100) - 2 * f * Z.pos (d * 1)) (Z.pos (d * 1)))
      as [He|Hl|Hg].
    - destruct (Z.even f); [lia|]. nia.
    - lia.
    - nia. }
  split.
  - change 0%Qc with (Q2Qc 0). apply Q2Qc_le. unfold Qle. simpl. lia.
  - change 1%Qc with (Q2Qc 1). apply Q2Qc_le. unfold Qle. simpl. lia.
Qed.

Lemma Qc_leb_true (a b : Qc) : (a <= b)%Qc -> Qc_leb a b = true.
Proof. intros H. unfold Qc_leb. by apply Qle_bool_iff. Qed.

Lemma Qc_leb_le (a b : Qc) : Qc_leb a b = true -> (a <= b)%Qc.
Proof. unfold Qc_leb. intros H. by apply Qle_bool_iff in H. Qed.

(** ** The fallback responder is total *)


Lemma rng_only_refl st : rng_only st st.
Proof. exists (rng st). by destruct st. Qed.

Lemma rng_only_draw st : rng_only st (draw st).
Proof. by exists (S (rng st)). Qed.

Lemma rng_only_trans st1 st2 st3 :
  rng_only st1 st2 -> rng_only st2 st3 -> rng_only st1 st3.
Proof. intros [n ->] [m ->]. by exists m. Qed.

Lemma rng_only_fields st st' :
  rng_only st st' ->
  trace st' = trace st
  /\ _all_keys_exhausted st' = _all_keys_exhausted st
  /\ _shared_key_index st' = _shared_key_index st
  /\ _shared_key_failures st' = _shared_key_failures st
  /\ same_pool st st'.
Proof. intros [n ->]. by split_and!. Qed.

Lemma random_choice_total {A : Type} w st (seq : list A) :
  seq <> [] -> exists x, random_choice w st seq = Return x.
Proof.
  intros Hne. unfold random_choice. destruct seq as [|a seq]; [done|].
  set (l := a :: seq).
  destruct (lookup_lt_is_Some_2 l
              (N.to_nat (entropy w (rng st) mod N.of_nat (length l)))) as [x Hx].
  - assert (entropy w (rng st) mod N.of_nat (length l) < N.of_nat (length l))%N
      by (apply N.mod_upper_bound; subst l; simpl; lia).
    lia.
  - rewrite Hx. by exists x.
Qed.

Lemma random_randint_total w st a b :
  (a <= b)%Z -> exists z, random_randint w st a b = Return z.
Proof.
  intros H. unfold random_randint.
  destruct (Z.ltb_spec b a); [lia|]. by eexists.
Qed.

Lemma detect_monthly_users_total w user_input st :
  exists z st', detect_monthly_users w user_input st = (Return z, st')
                /\ rng_only st st'.
Proof.
  unfold detect_monthly_users.
  destruct (re_findall w numbers_pattern user_input) as [|first rest].
  { exists 10000%Z, st. split; [done | apply rng_only_refl]. }
  unfold try_except.
  match goal with
  | |- context [match ?m st with _ => _ end] =>
      assert (Hm : exists r, m st = (r, st))
  end.
  { destruct (str_in "k" (lower first)); [by eexists|].
    destruct (str_in "m" (lower first)); by eexists. }
  destruct Hm as [r ->].
  destruct r as [z|e].
  - exists z, st. split; [done | apply rng_only_refl].
  - unfold m_choice.
    destruct (random_choice_total w st [1000; 5000; 10000; 50000; 100000]%Z)
      as [z ->]; [done|].
    exists z, (draw st). split; [done | apply rng_only_draw].
Qed.

Lemma estimate_rps_total w monthly_users st :
  exists z, estimate_rps w monthly_users st = (Return z, draw st).
Proof.
  unfold estimate_rps, m_randint.
  repeat case_match;
    match goal with
    | |- context [random_randint w st ?a ?b] =>
        destruct (random_randint_total w st a b) as [z ->]; [lia|]
    end; by eexists.
Qed.

Lemma detect_traffic_pattern_total w input_lower st :
  exists s st', detect_traffic_pattern w input_lower st = (Return s, st')
                /\ rng_only st st'.
Proof.
  unfold detect_traffic_pattern.
  repeat case_match;
    try (eexists _, st; split; [reflexivity | apply rng_only_refl]).
  unfold m_choice.
  destruct (random_choice_total w st ["steady"; "variable"; "bursty"])
    as [s ->]; [done|].
  exists s, (draw st). split; [done | apply rng_only_draw].
Qed.

Lemma qc_le (a b : Z) (d : positive) : (a <= b)%Z -> (qc a d <= qc b d)%Qc.
Proof. intros H. apply Q2Qc_le. unfold Qle. simpl. nia. Qed.

Lemma mock_confidence_total w user_input st :
  exists c, mock_confidence w user_input st = (Return c, draw st)
            /\ (0 <= c)%Qc /\ (c <= 1)%Qc.
Proof.
  assert (Hband : forall a b : Z,
             (0 <= a)%Z -> (a <= b)%Z -> (b <= 100)%Z ->
             let u := random_uniform w st (qc a 100) (qc b 100) in
             (0 <= round2 u)%Qc /\ (round2 u <= 1)%Qc).
  { intros a b Ha Hab Hb u.
    destruct (random_uniform_bounds w st (qc a 100) (qc b 100)) as [Hl Hu];
      [by apply qc_le|].
    apply round2_unit.
    - eapply Qcle_trans; [|exact Hl]. by apply (qc_le 0 a 100).
    - eapply Qcle_trans; [exact Hu|]. by apply (qc_le b 100 100). }
  unfold mock_confidence, mbind, m_uniform, ret.
  repeat case_match; eexists; (split; [reflexivity|]).
  - replace (qc 6 10) with (qc 60 100) by (apply Qc_is_canon; reflexivity).
    apply Hband; lia.
  - apply Hband; lia.
  - apply Hband; lia.
Qed.

Lemma first_match_elim (P : string -> Prop) table input_lower dflt :
  P dflt -> Forall (fun entry => P (fst entry)) table ->
  P (first_match table input_lower dflt).
Proof.
  intros Hd Ht. induction Ht as [|[name keywords] table Hn Ht IH]; simpl; [done|].
  by destruct (any_in keywords input_lower).
Qed.

Lemma first_match_workload_valid input_lower :
  in_strings (first_match workload_keywords input_lower "api_backend")
    valid_workloads = true.
Proof.
  apply (first_match_elim (fun s => in_strings s valid_workloads = true));
    [reflexivity|].
  unfold workload_keywords. repeat constructor.
Qed.

Lemma dict_get_set_eq d k v : dict_get (dict_set d k v) k = Some v.
Proof.
  induction d as [|[k' v'] d IH]; simpl.
  - by rewrite String.eqb_refl.
  - destruct (String.eqb k' k) eqn:E; simpl.
    + by rewrite String.eqb_refl.
    + by rewrite E.
Qed.

Lemma dict_get_set_ne d k k' v :
  k <> k' -> dict_get (dict_set d k v) k' = dict_get d k'.
Proof.
  intros Hne. induction d as [|[k0 v0] d IH]; simpl.
  - apply String.eqb_neq in Hne. by rewrite Hne.
  - destruct (String.eqb k0 k) eqn:E; simpl.
    + apply String.eqb_eq in E. subst k0.
      apply String.eqb_neq in Hne. by rewrite Hne.
    + by rewrite IH.
Qed.

(** Validation reads the five required fields and nothing else. *)
Lemma validate_ext d d' :
  Forall (fun field => dict_get d' field = dict_get d field) required_fields ->
  _validate_intent_structure (VDict d') = _validate_intent_structure (VDict d).
Proof.
  intros H.
  repeat (apply Forall_cons_1 in H as [? H]).
  unfold _validate_intent_structure, required_fields, check_required,
    py_contains, py_getitem, bind.
  by repeat match goal with E : dict_get d' _ = _ |- _ => rewrite E; clear E end.
Qed.

Lemma validate_is_dict v :
  _validate_intent_structure v = Return tt -> exists d, v = VDict d.
Proof.
  unfold _validate_intent_structure, bind. intros H.
  destruct (check_required required_fields v); [|done].
  destruct v; simpl in H; try done. by eexists.
Qed.

Lemma mock_dict_valid wl sc rq cs c rest :
  in_strings wl valid_workloads = true ->
  (0 <= c)%Qc -> (c <= 1)%Qc ->
  valid_payload
    (VDict (("workload_type", VStr wl) :: ("scale", sc) :: ("requirements", rq)
            :: ("constraints", cs) :: ("parsing_confidence", VFloat (Fin c))
            :: rest)).
Proof.
  intros Hwl H0 H1. split.
  - cbv -[in_strings valid_workloads Qc_leb Q2Qc].
    rewrite Hwl.
    by rewrite !Qc_leb_true.
  - eexists _, c. split; [reflexivity|]. split_and!; try done.
    repeat constructor.
Qed.

Lemma mock_parse_spec w user_input st :
  exists d st',
    _enhanced_mock_parse w user_input st = (Return (VDict d), st')
    /\ rng_only st st'
    /\ valid_payload (VDict d)
    /\ dict_get d "parsing_source" = Some (VStr "enhanced_mock")
    /\ dict_get d "processing_time_ms" = None
    /\ dict_get d "active_key" = None.
Proof.
  unfold _enhanced_mock_parse, mbind.
  destruct (detect_monthly_users_total w user_input st) as (mu & st1 & -> & R1).
  destruct (estimate_rps_total w mu st1) as (rps & ->).
  destruct (detect_traffic_pattern_total w (lower user_input) (draw st1))
    as (tp & st3 & -> & R3).
  destruct (mock_confidence_total w user_input st3) as (c & -> & Hc0 & Hc1).
  eexists _, _. split; [reflexivity|]. split_and!; try reflexivity.
  - eauto using rng_only_trans, rng_only_draw.
  - apply mock_dict_valid; [apply first_match_workload_valid | done..].
Qed.

(** ** The call contract never raises *)

Lemma valid_payload_set d k v :
  k ∉ required_fields ->
  valid_payload (VDict d) -> valid_payload (VDict (dict_set d k v)).
Proof.
  intros Hk [Hv (d0 & c & [= <-] & Hreq & Hc & H0 & H1)].
  assert (Hsame : Forall (fun field => dict_get (dict_set d k v) field
                                       = dict_get d field) required_fields).
  { apply Forall_forall. intros f Hf. apply dict_get_set_ne.
    intros ->. apply Hk. by apply list_elem_of_In. }
  split.
  - by rewrite (validate_ext d).
  - eexists _, c. split; [reflexivity|]. split_and!; try done.
    + apply Forall_forall. intros f Hf. rewrite dict_get_set_ne.
      * by apply (proj1 (Forall_forall _ _) Hreq).
      * intros ->. apply Hk. by apply list_elem_of_In.
    + rewrite dict_get_set_ne; [done|]. intros ->. apply Hk.
      by apply (bool_decide_unpack _).
Qed.

Lemma stamp_dict w start_time active_key d st :
  stamp w start_time active_key (VDict d) st
  = (Return (VDict (dict_set
               (dict_set d "processing_time_ms" (VInt (elapsed_ms w start_time st)))
               "active_key" (VStr (active_key st)))), st).
Proof. reflexivity. Qed.

Lemma stamp_mock w start_time d st :
  valid_payload (VDict d) ->
  dict_get d "parsing_source" = Some (VStr "enhanced_mock") ->
  fallback_result (fst (stamp w start_time (fun _ => "MOCK_FALLBACK") (VDict d) st)).
Proof.
  intros Hv Hs. rewrite stamp_dict. simpl. eexists. split; [reflexivity|].
  split_and!.
  - by rewrite !dict_get_set_ne.
  - apply dict_get_set_eq.
  - apply valid_payload_set; [by apply (bool_decide_unpack _)|].
    apply valid_payload_set; [by apply (bool_decide_unpack _)|]. done.
Qed.

Lemma parse_with_gemini_dict w self user_input st :
  match fst (_parse_with_gemini w self user_input st) with
  | Return v => exists d, v = VDict d
  | Raise _ => True
  end.
Proof.
  pose proof (mock_parse_spec w user_input) as Hmock.
  unfold _parse_with_gemini, try_except, mbind.
  destruct (call_with_retry w self (_create_intent_parsing_prompt user_input)
              default_max_retries st) as [[resp|e] st1].
  - destruct (response_truthy resp); simpl; [|done].
    destruct (is_empty (extract_response_text resp)); simpl; [done|].
    destruct (_extract_json_from_response w (extract_response_text resp))
      as [json_text|]; simpl; [|done].
    destruct (is_empty json_text); simpl; [done|].
    destruct (json_loads w json_text) as [result|]; simpl.
    + unfold lift.
      destruct (_validate_intent_structure result) as [[]|e] eqn:Hv; simpl.
      * destruct (validate_is_dict _ Hv) as [d ->]. simpl. by eexists.
      * destruct (is_JSONDecodeError e); simpl; [|done].
        destruct (Hmock st1) as (d & st' & -> & _). simpl. by eexists.
    + destruct (Hmock st1) as (d & st' & -> & _). simpl. by eexists.
  - destruct (is_JSONDecodeError e); simpl; [|done].
    destruct (Hmock st1) as (d & st' & -> & _). simpl. by eexists.
Qed.

Lemma parse_intent_after_raise w self user_input st e st1 :
  _parse_with_gemini w self user_input st = (Raise e, st1) ->
  fallback_result (fst (parse_intent w self user_input st))
  /\ rng_only st1 (snd (parse_intent w self user_input st)).
Proof.
  intros E. unfold parse_intent, try_except, mbind. rewrite E.
  destruct (mock_parse_spec w user_input st1) as (d & st' & -> & Hr & Hv & Hs & _).
  split; [by apply stamp_mock | done].
Qed.

Lemma parse_intent_returns w self user_input st :
  exists d, fst (parse_intent w self user_input st) = Return (VDict d).
Proof.
  destruct (_parse_with_gemini w self user_input st) as [[v|e] st1] eqn:E.
  - pose proof (parse_with_gemini_dict w self user_input st) as H.
    rewrite E in H. destruct H as [d ->].
    unfold parse_intent, try_except, mbind. rewrite E, stamp_dict. by eexists.
  - destruct (parse_intent_after_raise _ _ _ _ _ _ E) as [(d & -> & _) _].
    by eexists.
Qed.

(** ** With the breaker tripped *)

Lemma call_with_retry_tripped w self prompt max_retries st :
  _all_keys_exhausted st = true ->
  call_with_retry w self prompt max_retries st = (Raise exhausted_global, st).
Proof. intros H. unfold call_with_retry. by rewrite H. Qed.

Lemma parse_intent_tripped w self user_input st :
  _all_keys_exhausted st = true ->
  fallback_result (fst (parse_intent w self user_input st))
  /\ rng_only st (snd (parse_intent w self user_input st)).
Proof.
  intros H. apply (parse_intent_after_raise _ _ _ _ exhausted_global).
  unfold _parse_with_gemini, try_except, mbind.
  by rewrite call_with_retry_tripped.
Qed.


(** C2: once the breaker is tripped, every later [parse_intent]
    returns a fallback result, the remote endpoint is never reached (the
    trace does not grow) and the breaker stays tripped. *)
Theorem tripped_breaker_goes_to_fallback w self inputs st :
  _all_keys_exhausted st = true ->
  let r := parse_all w self inputs st in
  Forall fallback_result (fst r)
  /\ length (fst r) = length inputs
  /\ trace (snd r) = trace st
  /\ _all_keys_exhausted (snd r) = true.
Proof.
  revert st. induction inputs as [|user_input inputs IH]; intros st Htrip; simpl.
  { by split_and!. }
  destruct (parse_intent_tripped w self user_input st Htrip) as [Hfb Hrng].
  destruct (parse_intent w self user_input st) as [r st1]; simpl in *.
  apply rng_only_fields in Hrng as (Htr & Hex & _).
  destruct (IH st1) as (Hall & Hlen & Htr' & Hex'); [congruence|].
  destruct (parse_all w self inputs st1) as [rs st2]; simpl in *.
  split_and!; [by constructor | by f_equal | congruence | done].
Qed.

(** C5: [parse_intent] returns a dictionary on every input; whenever the
    remote path raises, the result is the fallback's; and the fallback
    responder itself returns, on every input, a payload that passes
    validation with a confidence between 0 and 1. *)
Theorem parse_intent_never_raises w self user_input st :
  (exists d, fst (parse_intent w self user_input st) = Return (VDict d))
  /\ match fst (_parse_with_gemini w self user_input st) with
     | Raise _ => fallback_result (fst (parse_intent w self user_input st))
     | Return _ => True
     end
  /\ (exists d, fst (_enhanced_mock_parse w user_input st) = Return (VDict d)
                /\ valid_payload (VDict d)).
Proof.
  split_and!.
  - apply parse_intent_returns.
  - destruct (_parse_with_gemini w self user_input st) as [[v|e] st1] eqn:E;
      simpl; [done|].
    by destruct (parse_intent_after_raise _ _ _ _ _ _ E).
  - destruct (mock_parse_spec w user_input st) as (d & st' & -> & _ & Hv & _).
    by exists d.
Qed.

(** C10: [get_key_rotation_info] raises AttributeError on every instance
    and in every state of the class: [current_key_index] is bound neither
    on the instance nor on the class. *)
Theorem get_key_rotation_info_raises self st :
  dict_get (instance_dict self st) "current_key_index" = None
  /\ dict_get (class_dict st) "current_key_index" = None
  /\ get_key_rotation_info self st
     = Raise (AttributeError
                "'GeminiClient' object has no attribute 'current_key_index'").
Proof.
  assert (Hinstance : dict_get (instance_dict self st) "current_key_index" = None)
    by reflexivity.
  assert (Hclass : dict_get (class_dict st) "current_key_index" = None)
    by reflexivity.
  split_and!; [done | done |].
  unfold get_key_rotation_info, getattr. by rewrite Hinstance, Hclass.
Qed.

(** ** Single attempts *)

Lemma retry_loop_failed w self prompt remaining attempt last_error st c e :
  _all_keys_exhausted st = false ->
  _get_current_client st = Some c ->
  generate_content w (trace st) c (model_name self) prompt
    (temperature self) (max_tokens self) = Raise e ->
  is_quota_error (exn_str e) = false ->
  retry_loop w self prompt (S remaining) attempt last_error st
  = (Raise e,
     record_failure (_get_current_key_name st)
       (emit (EvCall (_get_current_key_name st) attempt Failed) st)).
Proof.
  intros Hex Hc Hreply Hq. simpl.
  rewrite Hex, Hc, Hreply. unfold classify. by rewrite Hq.
Qed.

(** C4: an attempt answered by an error that is not a quota error ends the
    dispatch at once with that same error: the trace gains the one call and
    neither a rotation nor a wait, the current index stays where it was and
    the breaker stays untripped. *)
Theorem non_quota_error_fails_immediately
    w self prompt remaining attempt last_error st c e :
  _all_keys_exhausted st = false ->
  _get_current_client st = Some c ->
  generate_content w (trace st) c (model_name self) prompt
    (temperature self) (max_tokens self) = Raise e ->
  is_quota_error (exn_str e) = false ->
  let r := retry_loop w self prompt (S remaining) attempt last_error st in
  fst r = Raise e
  /\ _shared_key_index (snd r) = _shared_key_index st
  /\ trace (snd r)
     = (trace st ++ [EvCall (_get_current_key_name st) attempt Failed])%list
  /\ _all_keys_exhausted (snd r) = false
  /\ rng (snd r) = rng st
  /\ _shared_key_failures (snd r) !! _get_current_key_name st
     = Some (default 0 (_shared_key_failures st !! _get_current_key_name st) + 1)%Z.
Proof.
  intros Hex Hc Hreply Hq.
  rewrite (retry_loop_failed _ _ _ _ _ _ _ c e); [|done..]. simpl.
  split_and!; try done. apply lookup_insert_eq.
Qed.

Lemma current_client_at st i name key c :
  _shared_key_index st = i ->
  _api_keys_loaded st !! i = Some (name, key) ->
  clients_get st name = Some c ->
  _get_current_key_name st = name /\ _get_current_client st = Some c.
Proof.
  intros Hi Hk Hc.
  assert (_get_current_key_name st = name) as Hn.
  { unfold _get_current_key_name, _get_key_name_at. by rewrite Hi, Hk. }
  split; [done|]. unfold _get_current_client. by rewrite Hn.
Qed.

Lemma rotate_loop_S n orig st :
  rotate_loop (S n) orig st
  = let st1 :=
      set_index ((_shared_key_index st + 1) mod length (_api_keys_loaded st)) st in
    let key_name := _get_current_key_name st1 in
    if is_some (clients_get st1 key_name) && negb (String.eqb key_name orig)
    then (true, emit (EvRotation orig key_name) st1)
    else rotate_loop n orig st1.
Proof. reflexivity. Qed.

(** Rotation when the next slot in ring order has a client. *)
Lemma rotate_next_usable st next :
  (2 <= length (_api_keys_loaded st))%nat ->
  _get_key_name_at st
    ((_shared_key_index st + 1) mod length (_api_keys_loaded st)) = next ->
  is_some (clients_get st next) = true ->
  next <> _get_current_key_name st ->
  _rotate_to_next_key st
  = (true,
     emit (EvRotation (_get_current_key_name st) next)
       (set_index ((_shared_key_index st + 1) mod length (_api_keys_loaded st)) st)).
Proof.
  intros Hlen Hnext Hus Hne. unfold _rotate_to_next_key.
  destruct (Nat.eqb_spec (length (_api_keys_loaded st)) 1) as [Heq|_]; [lia|].
  destruct (length (_api_keys_loaded st) - 1)%nat as [|n] eqn:Hn; [lia|].
  rewrite rotate_loop_S. cbv zeta.
  assert (Hcur : _get_current_key_name
                   (set_index ((_shared_key_index st + 1)
                               mod length (_api_keys_loaded st)) st) = next)
    by exact Hnext.
  rewrite Hcur.
  change (clients_get (set_index _ st) next) with (clients_get st next).
  rewrite Hus. apply String.eqb_neq in Hne. fold (_get_current_key_name st).
  by rewrite Hne.
Qed.

(** One iteration of the retry loop, by the answer of the endpoint. *)
Lemma retry_loop_success w self prompt remaining attempt last_error st c resp :
  _all_keys_exhausted st = false ->
  _get_current_client st = Some c ->
  generate_content w (trace st) c (model_name self) prompt
    (temperature self) (max_tokens self) = Return resp ->
  retry_loop w self prompt (S remaining) attempt last_error st
  = (Return resp,
     record_success (_get_current_key_name st)
       (emit (EvCall (_get_current_key_name st) attempt Succeeded) st)).
Proof. intros Hex Hc Hr. simpl. by rewrite Hex, Hc, Hr. Qed.

Lemma retry_loop_quota w self prompt remaining attempt last_error st c e :
  _all_keys_exhausted st = false ->
  _get_current_client st = Some c ->
  generate_content w (trace st) c (model_name self) prompt
    (temperature self) (max_tokens self) = Raise e ->
  is_quota_error (exn_str e) = true ->
  retry_loop w self prompt (S remaining) attempt last_error st
  = let st1 :=
      record_failure (_get_current_key_name st)
        (emit (EvCall (_get_current_key_name st) attempt QuotaExhausted) st) in
    let '(rotated, st2) := _rotate_to_next_key st1 in
    if negb rotated then (Raise all_keys_exhausted_error, set_exhausted true st2)
    else retry_loop w self prompt remaining (S attempt) (Some e)
           (emit (EvSleep attempt (backoff_delay w st2 attempt)) (draw st2)).
Proof.
  intros Hex Hc Hr Hq. simpl. rewrite Hex, Hc, Hr. unfold classify.
  by rewrite Hq.
Qed.

(** C8: with a single slot whose call runs into the quota, the dispatch
    fails on the first attempt with the all-keys-exhausted error; nothing
    is rotated, nothing is waited for, and the breaker is tripped. *)
Theorem single_slot_exhausts_immediately
    w self prompt max_retries st name key c e :
  _api_keys_loaded st = [(name, key)] ->
  _shared_key_index st = 0%nat ->
  _all_keys_exhausted st = false ->
  clients_get st name = Some c ->
  generate_content w (trace st) c (model_name self) prompt
    (temperature self) (max_tokens self) = Raise e ->
  is_quota_error (exn_str e) = true ->
  let r := call_with_retry w self prompt (S max_retries) st in
  fst r = Raise all_keys_exhausted_error
  /\ trace (snd r) = (trace st ++ [EvCall name 0 QuotaExhausted])%list
  /\ _all_keys_exhausted (snd r) = true
  /\ _shared_key_index (snd r) = 0%nat.
Proof.
  intros Hkeys Hi Hex Hc Hreply Hq.
  destruct (current_client_at st 0 name key c) as [Hn Hcur];
    [done | by rewrite Hkeys | done |].
  unfold call_with_retry. rewrite Hex.
  rewrite (retry_loop_quota _ _ _ _ _ _ _ c e); [|done..].
  cbv zeta. rewrite Hn.
  unfold _rotate_to_next_key. cbn [_api_keys_loaded record_failure set_failures emit].
  rewrite Hkeys. simpl.
  by split_and!.
Qed.

(** C9: with the pool [P; B1], P active, P always out of quota and B1
    always answering, the dispatch returns B1's answer after one failed
    call, one rotation and one wait; the breaker stays untripped and B1's
    failure count is 0. *)
Theorem rotates_once_to_working_backup
    w self prompt max_retries st p kp b1 kb cp cb e answer :
  _api_keys_loaded st = [(p, kp); (b1, kb)] ->
  p <> b1 ->
  _shared_key_index st = 0%nat ->
  _all_keys_exhausted st = false ->
  clients_get st p = Some cp ->
  clients_get st b1 = Some cb ->
  (forall tr, generate_content w tr cp (model_name self) prompt
                (temperature self) (max_tokens self) = Raise e) ->
  is_quota_error (exn_str e) = true ->
  (forall tr, generate_content w tr cb (model_name self) prompt
                (temperature self) (max_tokens self) = Return answer) ->
  let r := call_with_retry w self prompt (S (S max_retries)) st in
  fst r = Return answer
  /\ (exists wait_time,
        trace (snd r)
        = (trace st ++ [EvCall p 0 QuotaExhausted; EvRotation p b1;
                        EvSleep 0 wait_time; EvCall b1 1 Succeeded])%list
        /\ wait_time = backoff_delay w st 0)
  /\ _all_keys_exhausted (snd r) = false
  /\ _shared_key_index (snd r) = 1%nat
  /\ _shared_key_failures (snd r) !! b1 = Some 0%Z.
Proof.
  intros Hkeys Hne Hi Hex Hcp Hcb Hp Hq Hb.
  destruct (current_client_at st 0 p kp cp) as [Hn Hcur];
    [done | by rewrite Hkeys | done |].
  unfold call_with_retry. rewrite Hex.
  rewrite (retry_loop_quota _ _ _ _ _ _ _ cp e); [|done..].
  cbv zeta. rewrite Hn.
  set (st1 := record_failure p (emit (EvCall p 0 QuotaExhausted) st)).
  assert (Hrot : _rotate_to_next_key st1
                 = (true, emit (EvRotation p b1) (set_index 1 st1))).
  { rewrite (rotate_next_usable st1 b1).
    - change (_get_current_key_name st1) with (_get_current_key_name st).
      change (_shared_key_index st1) with (_shared_key_index st).
      change (_api_keys_loaded st1) with (_api_keys_loaded st).
      rewrite Hn, Hi, Hkeys. reflexivity.
    - subst st1. simpl. rewrite Hkeys. simpl. lia.
    - subst st1. unfold _get_key_name_at. simpl. rewrite Hkeys, Hi. reflexivity.
    - change (clients_get st1 b1) with (clients_get st b1). by rewrite Hcb.
    - change (_get_current_key_name st1) with (_get_current_key_name st).
      rewrite Hn. done. }
  rewrite Hrot. cbn [negb].
  set (st2 := emit (EvRotation p b1) (set_index 1 st1)).
  set (st3 := emit (EvSleep 0 (backoff_delay w st2 0)) (draw st2)).
  destruct (current_client_at st3 1 b1 kb cb) as [Hn3 Hcur3];
    [done | by (change (_api_keys_loaded st3) with (_api_keys_loaded st);
               rewrite Hkeys) | done |].
  rewrite (retry_loop_success _ _ _ _ _ _ _ cb answer); [|done..].
  rewrite Hn3. simpl.
  split_and!; try done.
  - eexists. split; [by rewrite <- !app_assoc|]. done.
  - apply lookup_insert_eq.
Qed.

(** ** Where the waits of a dispatch fall *)

Lemma backoff_delay_band w st a : delay_in_band a (backoff_delay w st a).
Proof.
  unfold delay_in_band, backoff_delay.
  destruct (random_uniform_bounds w st 0 1) as [Hl Hu]; [done|].
  split.
  - rewrite <- (Qcplus_0_r (Q2Qc _)) at 1.
    apply Qcplus_le_compat; [apply Qcle_refl | done].
  - apply Qcplus_le_compat; [apply Qcle_refl | done].
Qed.

Lemma current_usable_client st :
  current_usable st = true -> exists c, _get_current_client st = Some c.
Proof. unfold current_usable. destruct (_get_current_client st); by eauto. Qed.

Lemma retry_loop_calls w self prompt remaining :
  forall attempt last_error st,
    current_usable st = true ->
    let r := retry_loop w self prompt remaining attempt last_error st in
    exists tr, trace (snd r) = (trace st ++ tr)%list
               /\ calls (attempt + remaining) attempt (_get_current_key_name st) tr.
Proof.
  induction remaining as [|remaining IH]; intros attempt last_error st Hus.
  { exists []. split; [by rewrite app_nil_r | constructor]. }
  destruct (_all_keys_exhausted st) eqn:Hex.
  { exists []. simpl. rewrite Hex. split; [by rewrite app_nil_r | constructor]. }
  destruct (current_usable_client st Hus) as [c Hc].
  destruct (generate_content w (trace st) c (model_name self) prompt
              (temperature self) (max_tokens self)) as [resp|e] eqn:Hreply.
  { rewrite (retry_loop_success _ _ _ _ _ _ _ c resp); [|done..].
    eexists. split; [reflexivity | constructor]. }
  destruct (is_quota_error (exn_str e)) eqn:Hq.
  2:{ rewrite (retry_loop_failed _ _ _ _ _ _ _ c e); [|done..].
      eexists. split; [reflexivity | constructor]. }
  rewrite (retry_loop_quota _ _ _ _ _ _ _ c e); [|done..]. cbv zeta.
  set (st1 := record_failure _ _).
  pose proof (rotate_spec st1) as (_ & _ & _ & _ & Hfalse & Htrue).
  destruct (_rotate_to_next_key st1) as [[] st2]; simpl in *.
  - destruct Htrue as (Hus2 & Hne & Htr2); [done|].
    set (st3 := emit (EvSleep attempt (backoff_delay w st2 attempt)) (draw st2)).
    destruct (IH (S attempt) (Some e) st3 Hus2) as (tr & Htr & Hcalls).
    exists (EvCall (_get_current_key_name st) attempt QuotaExhausted
            :: EvRotation (_get_current_key_name st) (_get_current_key_name st2)
            :: EvSleep attempt (backoff_delay w st2 attempt) :: tr).
    split.
    + rewrite Htr. subst st3. simpl. rewrite Htr2. subst st1. simpl.
      by rewrite <- !app_assoc.
    + constructor; [done | lia | apply backoff_delay_band |].
      by rewrite Nat.add_succ_r.
  - eexists. split; [rewrite Hfalse by done; reflexivity | constructor].
Qed.

Lemma retry_loop_attempts w self prompt remaining :
  forall attempt last_error st,
    let r := retry_loop w self prompt remaining attempt last_error st in
    exists tr, trace (snd r) = (trace st ++ tr)%list
               /\ attempts (attempt + remaining) attempt tr.
Proof.
  induction remaining as [|remaining IH]; intros attempt last_error st.
  { exists []. split; [by rewrite app_nil_r|].
    apply (attempts_calls _ _ EmptyString), calls_none. }
  destruct (_get_current_client st) as [c|] eqn:Hc.
  { destruct (retry_loop_calls w self prompt (S remaining) attempt last_error st)
      as (tr & Htr & Hcalls).
    - unfold current_usable. by rewrite Hc.
    - exists tr. split; [done|]. by eapply attempts_calls. }
  simpl. destruct (_all_keys_exhausted st).
  { exists []. split; [by rewrite app_nil_r|].
    apply (attempts_calls _ _ EmptyString), calls_none. }
  rewrite Hc.
  pose proof (rotate_spec st) as (_ & _ & _ & _ & Hfalse & Htrue).
  destruct (_rotate_to_next_key st) as [[] st2]; simpl in *.
  - destruct Htrue as (Hus2 & Hne & Htr2); [done|].
    destruct (retry_loop_calls w self prompt remaining (S attempt) last_error st2 Hus2)
      as (tr & Htr & Hcalls).
    eexists. split.
    + rewrite Htr, Htr2, <- app_assoc. reflexivity.
    + apply attempts_skip. by rewrite Nat.add_succ_r.
  - destruct (IH (S attempt) last_error st2) as (tr & Htr & Hatt).
    exists tr. split; [by rewrite Htr, Hfalse|].
    apply attempts_stuck. by rewrite Nat.add_succ_r.
Qed.


Lemma call_after_wait_not_sleep p2 p1 k : not_sleep p1 -> call_after_wait p2 p1 k.
Proof. destruct p2 as [[]|], p1 as [[]|]; simpl; done. Qed.

Lemma calls_waits_ok m a cur tr :
  calls m a cur tr ->
  forall p2 p1, call_after_wait p2 p1 cur -> waits_ok m p2 p1 tr.
Proof.
  induction 1 as [| |a cur next d tr Hne Ha Hd Hcalls IH]; intros p2 p1 Hp;
    simpl; [done | done |].
  split_and!; try done. by apply IH.
Qed.

Lemma attempts_waits_ok m a tr :
  attempts m a tr -> forall p2 p1, not_sleep p1 -> waits_ok m p2 p1 tr.
Proof.
  induction 1 as [a cur tr Hcalls | a orig next tr Hcalls | a tr Hatt IH];
    intros p2 p1 Hp.
  - eapply calls_waits_ok; [done|]. by apply call_after_wait_not_sleep.
  - simpl. split; [done|]. eapply calls_waits_ok; [done|].
    by apply call_after_wait_not_sleep.
  - by apply IH.
Qed.

(** C7 (as the code has it): in every dispatch, each wait comes directly
    after a call that ran into the quota and the rotation from that slot to
    a different one, and a call that follows a wait goes to the slot
    rotated to; so no wait precedes the first attempt.  The wait after
    attempt [a] lies between [2^a] and [2^a + 1], with [a] below
    [max_retries]. *)
Theorem waits_only_after_quota_rotation w self prompt max_retries st :
  let r := call_with_retry w self prompt max_retries st in
  exists tr, trace (snd r) = (trace st ++ tr)%list
             /\ waits_ok max_retries None None tr.
Proof.
  unfold call_with_retry. destruct (_all_keys_exhausted st).
  { exists []. split; [by rewrite app_nil_r | done]. }
  destruct (retry_loop_attempts w self prompt max_retries 0 None st)
    as (tr & Htr & Hatt).
  exists tr. split; [done|]. by eapply attempts_waits_ok.
Qed.

(** ** A pool of usable slots that are all out of quota *)

Lemma key_name_at_lookup st i name :
  pool_names st !! i = Some name -> _get_key_name_at st i = name.
Proof.
  unfold pool_names, _get_key_name_at. rewrite list_lookup_fmap.
  destruct (_api_keys_loaded st !! i) as [[n k]|]; simpl; congruence.
Qed.

Lemma pool_names_lookup st i :
  (i < length (_api_keys_loaded st))%nat ->
  pool_names st !! i = Some (_get_key_name_at st i).
Proof.
  intros Hi. unfold pool_names, _get_key_name_at. rewrite list_lookup_fmap.
  destruct (lookup_lt_is_Some_2 (_api_keys_loaded st) i Hi) as [[n k] ->]. done.
Qed.

Lemma next_index_differs i n : (2 <= n)%nat -> (i < n)%nat -> ((i + 1) mod n <> i)%nat.
Proof.
  intros Hn Hi. destruct (decide (i + 1 < n)%nat).
  - rewrite Nat.mod_small; lia.
  - replace (i + 1)%nat with n by lia. rewrite Nat.Div0.mod_same. lia.
Qed.

Lemma ring_names_S st start count :
  ring_names st start (S count)
  = _get_key_name_at st (start mod length (_api_keys_loaded st))
    :: ring_names st ((start + 1) mod length (_api_keys_loaded st)) count.
Proof.
  unfold ring_names. simpl. rewrite Nat.add_0_r. f_equal.
  rewrite <- fmap_S_seq, <- list_fmap_compose. apply list_fmap_ext.
  intros _ j _. simpl. f_equal.
  rewrite Nat.Div0.add_mod_idemp_l. f_equal. lia.
Qed.

Lemma called_keys_app tr1 tr2 :
  called_keys (tr1 ++ tr2) = (called_keys tr1 ++ called_keys tr2)%list.
Proof. unfold called_keys. apply omap_app. Qed.

Lemma sleeps_app tr1 tr2 : sleeps (tr1 ++ tr2) = (sleeps tr1 ++ sleeps tr2)%list.
Proof. unfold sleeps. apply omap_app. Qed.

Lemma retry_loop_all_quota w self prompt :
  always_quota w self prompt ->
  forall remaining attempt last_error st,
    NoDup (pool_names st) ->
    (2 <= length (_api_keys_loaded st))%nat ->
    all_usable st ->
    (_shared_key_index st < length (_api_keys_loaded st))%nat ->
    _all_keys_exhausted st = false ->
    match last_error with
    | Some e => is_quota_error (exn_str e) = true
    | None => True
    end ->
    let r := retry_loop w self prompt remaining attempt last_error st in
    _all_keys_exhausted (snd r) = false
    /\ (exists e, fst r = Raise e /\ e <> all_keys_exhausted_error)
    /\ exists tr, trace (snd r) = (trace st ++ tr)%list
         /\ called_keys tr = ring_names st (_shared_key_index st) remaining
         /\ sleeps tr = seq attempt remaining.
Proof.
  intros Hquota.
  induction remaining as [|remaining IH];
    intros attempt last_error st Hnd Hlen Hall Hi Hex Hlast.
  { simpl. split_and!; [done| |exists []; by rewrite app_nil_r].
    destruct last_error as [e|]; simpl; eexists; (split; [reflexivity|]).
    - intros ->. done.
    - done. }
  set (cur := _get_key_name_at st (_shared_key_index st)).
  assert (Hcur : pool_names st !! _shared_key_index st = Some cur)
    by by apply pool_names_lookup.
  assert (Hc : exists c, _get_current_client st = Some c).
  { apply current_usable_client. unfold current_usable, _get_current_client.
    unfold all_usable in Hall.
    eapply Forall_lookup_1 in Hall; [|exact Hcur]. done. }
  destruct Hc as [c Hc].
  destruct (Hquota (trace st) c) as (e & Hreply & Hq).
  rewrite (retry_loop_quota _ _ _ _ _ _ _ c e); [|done..]. cbv zeta.
  fold cur. change (_get_current_key_name st) with cur.
  set (st1 := record_failure cur (emit (EvCall cur attempt QuotaExhausted) st)).
  set (i' := ((_shared_key_index st + 1) mod length (_api_keys_loaded st))%nat).
  assert (Hi' : (i' < length (_api_keys_loaded st))%nat)
    by (apply Nat.mod_upper_bound; lia).
  set (next := _get_key_name_at st i').
  assert (Hnext : pool_names st !! i' = Some next) by by apply pool_names_lookup.
  assert (Hne : next <> cur).
  { intros Heq. rewrite Heq in Hnext.
    pose proof (NoDup_lookup _ _ _ _ Hnd Hnext Hcur) as Hsame.
    by apply (next_index_differs (_shared_key_index st)
                (length (_api_keys_loaded st))). }
  rewrite (rotate_next_usable st1 next); [|done| done | |done].
  2:{ change (clients_get st1 next) with (clients_get st next).
      unfold all_usable in Hall.
      eapply Forall_lookup_1 in Hall; [|exact Hnext]. done. }
  cbn [negb].
  change (_get_current_key_name st1) with cur.
  change (_shared_key_index st1) with (_shared_key_index st).
  change (_api_keys_loaded st1) with (_api_keys_loaded st). fold i'.
  set (st2 := emit (EvRotation cur next) (set_index i' st1)).
  set (st3 := emit (EvSleep attempt (backoff_delay w st2 attempt)) (draw st2)).
  destruct (IH (S attempt) (Some e) st3) as (Hex' & Hres & tr & Htr & Hkeys & Hsl);
    try done.
  split_and!; [done | done |].
  exists (EvCall cur attempt QuotaExhausted :: EvRotation cur next
          :: EvSleep attempt (backoff_delay w st2 attempt) :: tr).
  split_and!.
  - rewrite Htr. subst st3 st2 st1. simpl. by rewrite <- !app_assoc.
  - rewrite ring_names_S, Nat.mod_small by done.
    simpl. f_equal. exact Hkeys.
  - simpl. by f_equal.
Qed.

(** When the pool holds at least two usable slots and every call runs into
    the quota, [call_with_retry] makes exactly [max_retries] calls, walking
    the ring of slots from the current one and wrapping around, waits after
    every one of them, fails with an error other than the
    all-keys-exhausted error, and leaves the breaker untripped. *)
Lemma exhausted_pool_never_trips_breaker w self prompt max_retries st :
  always_quota w self prompt ->
  NoDup (pool_names st) ->
  (2 <= length (_api_keys_loaded st))%nat ->
  all_usable st ->
  (_shared_key_index st < length (_api_keys_loaded st))%nat ->
  _all_keys_exhausted st = false ->
  let r := call_with_retry w self prompt max_retries st in
  _all_keys_exhausted (snd r) = false
  /\ (exists e, fst r = Raise e /\ e <> all_keys_exhausted_error)
  /\ exists tr, trace (snd r) = (trace st ++ tr)%list
       /\ called_keys tr = ring_names st (_shared_key_index st) max_retries
       /\ sleeps tr = seq 0 max_retries.
Proof.
  intros Hq Hnd Hlen Hall Hi Hex. unfold call_with_retry. rewrite Hex.
  by apply retry_loop_all_quota.
Qed.

(** ** Construction *)

Lemma init_state w st :
  snd (__init__ w st)
  = if is_nil (_api_keys_loaded st)
    then _initialize_all_clients w
           (set_failures
              (list_to_map ((fun '(name, _) => (name, 0%Z)) <$> _load_api_keys w))
              (set_api_keys (_load_api_keys w) st))
    else st.
Proof.
  unfold __init__.
  destruct (py_int w _); [destruct (py_float w _)|]; reflexivity.
Qed.

(** The client constructor is run once per entry; an entry's client is
    the one built last for its name. *)
Lemma init_clients_fold w (l : list (string * string)) :
  forall st,
    let st' :=
      fold_left
        (fun st '(name, api_key) =>
           set_clients (<[name := genai_Client w api_key]> (_shared_clients st)) st)
        l st in
    _api_keys_loaded st' = _api_keys_loaded st
    /\ _shared_key_index st' = _shared_key_index st
    /\ _all_keys_exhausted st' = _all_keys_exhausted st
    /\ trace st' = trace st
    /\ (forall name,
          _shared_clients st' !! name = _shared_clients st !! name
          \/ exists key, (name, key) ∈ l
               /\ _shared_clients st' !! name = Some (genai_Client w key))
    /\ (forall name key, (name, key) ∈ l ->
          exists key', (name, key') ∈ l
            /\ _shared_clients st' !! name = Some (genai_Client w key')).
Proof.
  induction l as [|[n0 k0] l IH]; intros st; simpl.
  { split_and!; try done.
    - intros name. by left.
    - intros name key H. by apply elem_of_nil in H. }
  set (st1 := set_clients _ st).
  destruct (IH st1) as (Hk & Hi & He & Ht & Hsame & Hin).
  assert (Hall : forall name,
             _shared_clients (fold_left
               (fun st '(name, api_key) =>
                  set_clients (<[name := genai_Client w api_key]> (_shared_clients st)) st)
               l st1) !! name = _shared_clients st !! name
             \/ exists key, (name, key) ∈ (n0, k0) :: l
                  /\ _shared_clients (fold_left
                       (fun st '(name, api_key) =>
                          set_clients (<[name := genai_Client w api_key]>
                                         (_shared_clients st)) st)
                       l st1) !! name = Some (genai_Client w key)).
  { intros name. destruct (Hsame name) as [H|(key & Hkey & H)].
    - destruct (decide (n0 = name)) as [->|Hne].
      + right. exists k0. split; [by left|].
        rewrite H. subst st1. simpl. apply lookup_insert_eq.
      + left. rewrite H. subst st1. simpl. by apply lookup_insert_ne.
    - right. exists key. split; [by right | done]. }
  split_and!; try done.
  intros name key Hel. apply elem_of_cons in Hel as [[= -> ->]|Hel].
  - destruct (Hall n0) as [H|H]; [|done].
    destruct (Hsame n0) as [H'|(key & Hkey & H')].
    + exists k0. split; [by left|]. rewrite H'. subst st1. simpl.
      apply lookup_insert_eq.
    + exists key. split; [by right | done].
  - destruct (Hin name key Hel) as (key' & Hel' & H).
    exists key'. split; [by right | done].
Qed.

Lemma init_index_ok w st : index_ok st -> index_ok (snd (__init__ w st)).
Proof.
  intros Hok. rewrite init_state.
  destruct (_api_keys_loaded st) as [|entry keys] eqn:Hkeys; simpl; [|done].
  unfold _initialize_all_clients.
  match goal with |- index_ok (fold_left _ ?l ?s) =>
    destruct (init_clients_fold w l s) as (Hk & Hi & _) end.
  simpl in *. unfold index_ok. rewrite Hk, Hi.
  destruct Hok as [[_ Hz]|Hlt]; [|rewrite Hkeys in Hlt; simpl in Hlt; lia].
  rewrite Hz. destruct (_load_api_keys w); [by left | right; simpl; lia].
Qed.

Lemma all_usable_same_pool st st' :
  same_pool st st' -> all_usable st -> all_usable st'.
Proof.
  intros [Hk Hc]. unfold all_usable, pool_names, clients_get.
  by rewrite Hk, Hc.
Qed.

Lemma init_all_usable w st :
  every_key_accepted w -> all_usable st -> all_usable (snd (__init__ w st)).
Proof.
  intros Hacc Hall. rewrite init_state.
  destruct (_api_keys_loaded st) as [|entry keys] eqn:Hkeys; simpl; [|done].
  unfold _initialize_all_clients.
  match goal with |- all_usable (fold_left _ ?l ?s) =>
    destruct (init_clients_fold w l s) as (Hk & _ & _ & _ & _ & Hin) end.
  simpl in *. unfold all_usable, pool_names. rewrite Hk.
  apply Forall_forall. intros name Hname.
  apply list_elem_of_In, list_elem_of_fmap in Hname as ([n k] & -> & Hel).
  destruct (Hin n k Hel) as (key' & Hel' & Hc).
  unfold clients_get. simpl. rewrite Hc. simpl.
  apply list_elem_of_In in Hel'.
  by apply (proj1 (Forall_forall _ _) Hacc (n, key')).
Qed.

(** ** The state after [parse_intent] *)

Lemma parse_with_gemini_state w self user_input st :
  rng_only
    (snd (call_with_retry w self (_create_intent_parsing_prompt user_input)
            default_max_retries st))
    (snd (_parse_with_gemini w self user_input st)).
Proof.
  pose proof (mock_parse_spec w user_input) as Hmock.
  unfold _parse_with_gemini, try_except, mbind.
  destruct (call_with_retry w self (_create_intent_parsing_prompt user_input)
              default_max_retries st) as [[resp|e] st1]; simpl.
  - destruct (response_truthy resp); simpl; [|apply rng_only_refl].
    destruct (is_empty (extract_response_text resp)); simpl; [apply rng_only_refl|].
    destruct (_extract_json_from_response w (extract_response_text resp))
      as [json_text|]; simpl; [|apply rng_only_refl].
    destruct (is_empty json_text); simpl; [apply rng_only_refl|].
    destruct (json_loads w json_text) as [result|]; simpl.
    + unfold lift.
      destruct (_validate_intent_structure result) as [[]|e] eqn:Hv; simpl.
      * destruct (validate_is_dict _ Hv) as [d ->]. simpl. apply rng_only_refl.
      * destruct (is_JSONDecodeError e); simpl; [|apply rng_only_refl].
        by destruct (Hmock st1) as (d & st' & -> & ? & _).
    + by destruct (Hmock st1) as (d & st' & -> & ? & _).
  - destruct (is_JSONDecodeError e); simpl; [|apply rng_only_refl].
    by destruct (Hmock st1) as (d & st' & -> & ? & _).
Qed.

Lemma parse_intent_state w self user_input st :
  rng_only
    (snd (call_with_retry w self (_create_intent_parsing_prompt user_input)
            default_max_retries st))
    (snd (parse_intent w self user_input st)).
Proof.
  eapply rng_only_trans; [apply parse_with_gemini_state|].
  destruct (_parse_with_gemini w self user_input st) as [[v|e] st1] eqn:E.
  - pose proof (parse_with_gemini_dict w self user_input st) as H.
    rewrite E in H. destruct H as [d ->].
    unfold parse_intent, try_except, mbind. rewrite E, stamp_dict.
    apply rng_only_refl.
  - by destruct (parse_intent_after_raise _ _ _ _ _ _ E).
Qed.

Lemma parse_intent_pool w self user_input st :
  let st' := snd (parse_intent w self user_input st) in
  same_pool st st' /\ (index_ok st -> index_ok st').
Proof.
  pose proof (parse_intent_state w self user_input st) as Hr.
  apply rng_only_fields in Hr as (_ & _ & Hi & _ & Hp).
  destruct (call_with_retry_pool w self (_create_intent_parsing_prompt user_input)
              default_max_retries st) as [Hp1 Hi1].
  split; [eauto using same_pool_trans|].
  intros Hok. destruct Hp as [Hk _].
  eapply index_ok_ext; [exact Hk | exact Hi | auto].
Qed.

(** ** The index under any sequence of operations *)

Lemma run_op_invariant w self o st :
  let st' := run_op w self o st in
  (index_ok st -> index_ok st')
  /\ (every_key_accepted w -> all_usable st -> all_usable st').
Proof.
  destruct o; simpl.
  - split; [apply init_index_ok | apply init_all_usable].
  - pose proof (rotate_spec st) as (Hp & _).
    split; [apply rotate_index_ok | intros _; by apply all_usable_same_pool].
  - by split.
  - by split.
  - destruct (call_with_retry_pool w self prompt max_retries st) as [Hp Hi].
    split; [done | intros _; by apply all_usable_same_pool].
  - destruct (parse_intent_pool w self user_input st) as [Hp Hi].
    split; [done | intros _; by apply all_usable_same_pool].
Qed.

Lemma run_ops_invariant w self ops :
  forall st,
    let st' := run_ops w self ops st in
    (index_ok st -> index_ok st')
    /\ (every_key_accepted w -> all_usable st -> all_usable st').
Proof.
  induction ops as [|o ops IH]; intros st; simpl; [by split|].
  destruct (run_op_invariant w self o st) as [H1 H2].
  destruct (IH (run_op w self o st)) as [H3 H4].
  split; auto.
Qed.

Lemma all_usable_current st :
  all_usable st ->
  (_shared_key_index st < length (_api_keys_loaded st))%nat ->
  current_usable st = true.
Proof.
  intros Hall Hi. unfold current_usable, _get_current_client, _get_current_key_name.
  unfold all_usable in Hall.
  eapply Forall_lookup_1 in Hall; [|by apply pool_names_lookup]. done.
Qed.

(** C3 (as the code has it): after any sequence of operations the current
    index is a position of the pool; a rotation that reports success
    leaves it on a slot with a client; and when the SDK accepted every key,
    it is on a slot with a client at all times once the pool is loaded. *)
Theorem current_index_stays_in_pool w self ops :
  let st := run_ops w self ops class_initial in
  index_ok st
  /\ (fst (_rotate_to_next_key st) = true ->
      current_usable (snd (_rotate_to_next_key st)) = true)
  /\ (every_key_accepted w -> _api_keys_loaded st <> [] ->
      current_usable st = true).
Proof.
  destruct (run_ops_invariant w self ops class_initial) as [Hi Hu].
  assert (Hok : index_ok (run_ops w self ops class_initial)).
  { apply Hi. by left. }
  split_and!; [done | |].
  - intros Hrot.
    pose proof (rotate_spec (run_ops w self ops class_initial))
      as (_ & _ & _ & _ & _ & Htrue).
    by destruct (Htrue Hrot).
  - intros Hacc Hne. apply all_usable_current.
    + apply Hu; [done|]. by constructor.
    + destruct Hok as [[Hnil _]|Hlt]; done.
Qed.

(** ** A pool without a usable slot *)

Lemma no_client_rotation_fails st :
  (forall name, clients_get st name = None) ->
  let r := _rotate_to_next_key st in
  fst r = false
  /\ trace (snd r) = trace st
  /\ _all_keys_exhausted (snd r) = _all_keys_exhausted st
  /\ (forall name, clients_get (snd r) name = None).
Proof.
  intros Hnone.
  pose proof (rotate_spec st) as (Hp & _ & He & _ & Hfalse & Htrue).
  assert (Hnone' : forall name, clients_get (snd (_rotate_to_next_key st)) name = None).
  { intros name. by rewrite (clients_get_same_pool st). }
  destruct (fst (_rotate_to_next_key st)) eqn:Hb.
  - destruct Htrue as (Hus & _); [done|].
    unfold current_usable, _get_current_client in Hus. by rewrite Hnone' in Hus.
  - by split_and!; [|apply Hfalse|..].
Qed.

Lemma retry_loop_no_client w self prompt remaining :
  forall attempt st,
    _all_keys_exhausted st = false ->
    (forall name, clients_get st name = None) ->
    let r := retry_loop w self prompt remaining attempt None st in
    fst r = Raise (Exception "All retries failed")
    /\ trace (snd r) = trace st
    /\ _all_keys_exhausted (snd r) = false.
Proof.
  induction remaining as [|remaining IH]; intros attempt st Hex Hnone; simpl.
  { by split_and!. }
  rewrite Hex. unfold _get_current_client. rewrite Hnone.
  destruct (no_client_rotation_fails st Hnone) as (_ & Htr & He & Hnone').
  destruct (_rotate_to_next_key st) as [rotated st2]; simpl in *.
  destruct (IH (S attempt) st2) as (Hr & Htr' & He'); [congruence | done |].
  split_and!; [done | congruence | done].
Qed.

Lemma started_no_usable w :
  no_usable_slot w ->
  _api_keys_loaded (started w) = _load_api_keys w
  /\ _all_keys_exhausted (started w) = false
  /\ trace (started w) = []
  /\ forall name, clients_get (started w) name = None.
Proof.
  intros Hno. unfold started. rewrite init_state. simpl.
  unfold _initialize_all_clients.
  match goal with |- context [fold_left _ ?l ?s] =>
    destruct (init_clients_fold w l s) as (Hk & _ & He & Ht & Hsame & _) end.
  simpl in *. split_and!; try done.
  intros name. unfold clients_get.
  destruct (Hsame name) as [->|(key & Hel & ->)]; [done|]. simpl.
  unfold no_usable_slot in Hno.
  apply list_elem_of_In in Hel.
  by apply (proj1 (Forall_forall _ _) Hno (name, key)).
Qed.

Lemma init_returns w st : is_return (fst (__init__ w st)) = settings_parse w.
Proof.
  unfold __init__, settings_parse.
  destruct (py_int w _); [destruct (py_float w _)|]; reflexivity.
Qed.

Lemma init_raises_value_error w st :
  match fst (__init__ w st) with
  | Return self => mock_mode self = false
  | Raise e => exn_class e = "ValueError"
  end.
Proof.
  unfold __init__.
  destruct (py_int w _); [destruct (py_float w _)|]; reflexivity.
Qed.

Lemma started_idle w : no_usable_slot w -> idle_without_client w (started w).
Proof.
  intros Hno. destruct (started_no_usable w Hno) as (Hk & Hex & Htr & Hnone).
  by split_and!.
Qed.

Lemma call_idle w self prompt max_retries st :
  idle_without_client w st ->
  let r := call_with_retry w self prompt max_retries st in
  fst r = Raise (Exception "All retries failed")
  /\ idle_without_client w (snd r).
Proof.
  intros (Hk & Hnone & Htr & Hex).
  destruct (call_with_retry_pool w self prompt max_retries st) as [Hp _].
  unfold call_with_retry in *. rewrite Hex in *.
  destruct (retry_loop_no_client w self prompt max_retries 0 st Hex Hnone)
    as (Hr & Ht & He).
  split; [done|]. destruct Hp as [Hk' Hcl]. split_and!.
  - by rewrite Hk'.
  - intros name. unfold clients_get. rewrite Hcl. apply Hnone.
  - by rewrite Ht.
  - done.
Qed.

Lemma parse_idle w self user_input st :
  idle_without_client w st ->
  let r := parse_intent w self user_input st in
  fallback_result (fst r) /\ idle_without_client w (snd r).
Proof.
  intros Hidle.
  destruct (call_idle w self (_create_intent_parsing_prompt user_input)
              default_max_retries st Hidle) as (Hr & Hk & Hnone & Htr & Hex).
  split.
  - destruct (call_with_retry w self (_create_intent_parsing_prompt user_input)
                default_max_retries st) as [r st1] eqn:E.
    simpl in Hr. subst r.
    eapply (parse_intent_after_raise _ _ _ _ (Exception "All retries failed") st1).
    unfold _parse_with_gemini, try_except, mbind. by rewrite E.
  - pose proof (parse_intent_state w self user_input st) as Hrng.
    apply rng_only_fields in Hrng as (Ht' & He' & _ & _ & Hk' & Hcl).
    split_and!.
    + by rewrite Hk'.
    + intros name. unfold clients_get. rewrite Hcl. apply Hnone.
    + by rewrite Ht'.
    + by rewrite He'.
Qed.

Lemma init_idle w st :
  no_usable_slot w -> idle_without_client w st ->
  idle_without_client w (snd (__init__ w st)).
Proof.
  intros Hno (Hk & Hnone & Htr & Hex). rewrite init_state.
  destruct (_api_keys_loaded st) as [|entry keys] eqn:Hkeys; simpl;
    [|by split_and!; [rewrite Hkeys|..]].
  unfold _initialize_all_clients.
  match goal with |- idle_without_client w (fold_left _ ?l ?s) =>
    destruct (init_clients_fold w l s) as (Hk' & _ & He & Ht & Hsame & _) end.
  simpl in *. split_and!; [done | | congruence | congruence].
  intros name. unfold clients_get.
  destruct (Hsame name) as [->|(key & Hel & ->)]; [apply Hnone|]. simpl.
  unfold no_usable_slot in Hno.
  apply list_elem_of_In in Hel.
  by apply (proj1 (Forall_forall _ _) Hno (name, key)).
Qed.

Lemma run_op_idle w self o st :
  no_usable_slot w -> idle_without_client w st ->
  idle_without_client w (run_op w self o st).
Proof.
  intros Hno Hidle. destruct o; simpl.
  - by apply init_idle.
  - destruct Hidle as (Hk & Hnone & Htr & Hex).
    destruct (no_client_rotation_fails st Hnone) as (_ & Ht & He & Hnone').
    pose proof (rotate_spec st) as ([Hk' _] & _).
    split_and!; [by rewrite Hk' | done | by rewrite Ht | by rewrite He].
  - exact Hidle.
  - exact Hidle.
  - by destruct (call_idle w self prompt max_retries st Hidle).
  - by destruct (parse_idle w self user_input st Hidle).
Qed.

Lemma run_ops_idle w self ops :
  no_usable_slot w ->
  forall st, idle_without_client w st ->
    idle_without_client w (run_ops w self ops st).
Proof.
  intros Hno. induction ops as [|o ops IH]; intros st Hidle; simpl; [done|].
  apply IH. by apply run_op_idle.
Qed.

(** C6 (as the code has it): when no slot is usable, because nothing is
    configured or because the SDK refused every key, the pool is what was
    loaded, possibly empty, and construction does not fail on that
    account: the constructor returns exactly when the two numeric settings
    are accepted by [int] and [float], and what it raises otherwise is a
    ValueError.  From then on, after any sequence of constructions,
    rotations, failure and success records, dispatches and [parse_intent]
    calls, no name has a client, no call, rotation or wait has taken place
    and the breaker is untripped; every dispatch fails with "All retries
    failed" without reaching the endpoint and without tripping the
    breaker, and [parse_intent] answers with the fallback. *)
Theorem construction_without_usable_slot
    w self ops prompt max_retries user_input :
  no_usable_slot w ->
  let st := run_ops w self ops (started w) in
  is_return (fst (__init__ w class_initial)) = settings_parse w
  /\ match fst (__init__ w class_initial) with
     | Return self' => mock_mode self' = false
     | Raise e => exn_class e = "ValueError"
     end
  /\ _api_keys_loaded (started w) = _load_api_keys w
  /\ idle_without_client w st
  /\ fst (call_with_retry w self prompt max_retries st)
     = Raise (Exception "All retries failed")
  /\ trace (snd (call_with_retry w self prompt max_retries st)) = []
  /\ _all_keys_exhausted (snd (call_with_retry w self prompt max_retries st)) = false
  /\ fallback_result (fst (parse_intent w self user_input st))
  /\ trace (snd (parse_intent w self user_input st)) = [].
Proof.
  intros Hno st.
  assert (Hidle : idle_without_client w st)
    by (apply run_ops_idle; [done | by apply started_idle]).
  destruct (call_idle w self prompt max_retries st Hidle)
    as (Hr & _ & _ & Ht & He).
  destruct (parse_idle w self user_input st Hidle) as (Hf & _ & _ & Ht' & _).
  split_and!; try done.
  - apply init_returns.
  - apply init_raises_value_error.
  - by destruct (started_idle w Hno).
Qed.

(** ** Concrete runs *)

(** C1 (divergence): with the pool [PRIMARY; BACKUP_1], both out of quota,
    one [call_with_retry] with the default bound calls PRIMARY, BACKUP_1
    and PRIMARY again, waits after each of the three calls, fails with the
    endpoint's quota error and leaves the breaker untripped. *)
Theorem two_exhausted_slots_cycle_without_tripping :
  let w := sample_world [("GEMINI_API_KEY", "q-primary");
                         ("GEMINI_API_KEY_1", "q-backup")] in
  let r := call_with_retry w sample_instance "prompt" default_max_retries
             (started w) in
  fst (__init__ w class_initial) = Return sample_instance
  /\ pool_names (started w) = ["PRIMARY"; "BACKUP_1"]
  /\ all_usable (started w)
  /\ called_keys (trace (snd r)) = ["PRIMARY"; "BACKUP_1"; "PRIMARY"]
  /\ rotations (trace (snd r))
     = [("PRIMARY", "BACKUP_1"); ("BACKUP_1", "PRIMARY"); ("PRIMARY", "BACKUP_1")]
  /\ sleeps (trace (snd r)) = [0; 1; 2]%nat
  /\ fst r = Raise quota_error
  /\ _all_keys_exhausted (snd r) = false.
Proof.
  intros w r. split_and!; try (vm_compute; reflexivity).
  repeat constructor.
Qed.

(** C3 fails as stated: with PRIMARY usable and BACKUP_1 refused by the
    SDK, a rotation from PRIMARY reports failure and leaves the index on
    BACKUP_1, a slot without a client. *)
Lemma failed_rotation_leaves_unusable_slot :
  let w := sample_world [("GEMINI_API_KEY", "k-primary");
                         ("GEMINI_API_KEY_1", "bad")] in
  let st := run_ops w sample_instance [OpInit] class_initial in
  let st' := run_ops w sample_instance [OpInit; OpRotate] class_initial in
  current_usable st = true
  /\ fst (_rotate_to_next_key st) = false
  /\ _shared_key_index st' = 1%nat
  /\ _get_current_key_name st' = "BACKUP_1"
  /\ current_usable st' = false.
Proof. intros w st st'. split_and!; vm_compute; reflexivity. Qed.

(** C6 fails as stated: with no key in the environment the pool is loaded
    empty and construction succeeds. *)
Lemma empty_environment_constructs :
  let w := sample_world [] in
  _load_api_keys w = []
  /\ fst (__init__ w class_initial) = Return sample_instance
  /\ _api_keys_loaded (started w) = []
  /\ _get_current_key_name (started w) = "UNKNOWN".
Proof. intros w. split_and!; vm_compute; reflexivity. Qed.

(** C7 fails as stated: with two slots out of quota the dispatcher waits
    after its last attempt and then gives up; and nothing caps the wait,
    which with twelve retries exceeds 2048 seconds. *)
Lemma wait_before_giving_up :
  let w := sample_world [("GEMINI_API_KEY", "q-primary");
                         ("GEMINI_API_KEY_1", "q-backup")] in
  let r := call_with_retry w sample_instance "prompt" default_max_retries
             (started w) in
  let r12 := call_with_retry w sample_instance "prompt" 12 (started w) in
  is_return (fst r) = false
  /\ length (called_keys (trace (snd r))) = default_max_retries
  /\ ends_with_wait (trace (snd r)) = true
  /\ existsb (fun d => Qc_leb (Q2Qc (inject_Z 2048)) d) (waits (trace (snd r12)))
     = true.
Proof. intros w r r12. split_and!; vm_compute; reflexivity. Qed.

(** ** Instances of the conditional statements *)

Lemma tripped_breaker_goes_to_fallback_witness :
  let w := sample_world [("GEMINI_API_KEY", "q-primary")] in
  let st := snd (call_with_retry w sample_instance "prompt" default_max_retries
                   (started w)) in
  _all_keys_exhausted st = true
  /\ (let r := parse_all w sample_instance
                 ["an api for 5k users"; "a multiplayer game server"] st in
      Forall fallback_result (fst r)
      /\ length (fst r) = 2%nat
      /\ trace (snd r) = trace st
      /\ _all_keys_exhausted (snd r) = true).
Proof.
  intros w st. split; [vm_compute; reflexivity|].
  apply (tripped_breaker_goes_to_fallback w sample_instance
           ["an api for 5k users"; "a multiplayer game server"] st).
  vm_compute; reflexivity.
Defined.

Lemma non_quota_error_fails_immediately_witness :
  let w := sample_world [("GEMINI_API_KEY", "e-primary");
                         ("GEMINI_API_KEY_1", "k-backup")] in
  let st := started w in
  let r := retry_loop w sample_instance "prompt" 3 0 None st in
  (_all_keys_exhausted st = false
   /\ _get_current_client st = Some (Client "e-primary")
   /\ is_quota_error (exn_str server_error) = false)
  /\ fst r = Raise server_error
  /\ _shared_key_index (snd r) = _shared_key_index st
  /\ trace (snd r) = (trace st ++ [EvCall (_get_current_key_name st) 0 Failed])%list
  /\ _all_keys_exhausted (snd r) = false
  /\ rng (snd r) = rng st
  /\ _shared_key_failures (snd r) !! _get_current_key_name st
     = Some (default 0 (_shared_key_failures st !! _get_current_key_name st) + 1)%Z.
Proof.
  intros w st r. split; [split_and!; vm_compute; reflexivity|].
  apply (non_quota_error_fails_immediately w sample_instance "prompt" 2 0 None st
           (Client "e-primary") server_error); vm_compute; reflexivity.
Defined.

Lemma single_slot_exhausts_immediately_witness :
  let w := sample_world [("GEMINI_API_KEY", "q-primary")] in
  let st := started w in
  let r := call_with_retry w sample_instance "prompt" default_max_retries st in
  (_api_keys_loaded st = [("PRIMARY", "q-primary")]
   /\ clients_get st "PRIMARY" = Some (Client "q-primary")
   /\ is_quota_error (exn_str quota_error) = true)
  /\ fst r = Raise all_keys_exhausted_error
  /\ trace (snd r) = (trace st ++ [EvCall "PRIMARY" 0 QuotaExhausted])%list
  /\ _all_keys_exhausted (snd r) = true
  /\ _shared_key_index (snd r) = 0%nat.
Proof.
  intros w st r. split; [split_and!; vm_compute; reflexivity|].
  apply (single_slot_exhausts_immediately w sample_instance "prompt" 2 st
           "PRIMARY" "q-primary" (Client "q-primary") quota_error);
    vm_compute; reflexivity.
Defined.

Lemma rotates_once_to_working_backup_witness :
  let w := sample_world [("GEMINI_API_KEY", "q-primary");
                         ("GEMINI_API_KEY_1", "k-backup")] in
  let st := started w in
  let r := call_with_retry w sample_instance "prompt" default_max_retries st in
  (_api_keys_loaded st = [("PRIMARY", "q-primary"); ("BACKUP_1", "k-backup")]
   /\ clients_get st "PRIMARY" = Some (Client "q-primary")
   /\ clients_get st "BACKUP_1" = Some (Client "k-backup"))
  /\ fst r = Return (sample_response "k-backup")
  /\ (exists wait_time,
        trace (snd r)
        = (trace st ++ [EvCall "PRIMARY" 0 QuotaExhausted;
                        EvRotation "PRIMARY" "BACKUP_1";
                        EvSleep 0 wait_time;
                        EvCall "BACKUP_1" 1 Succeeded])%list
        /\ wait_time = backoff_delay w st 0)
  /\ _all_keys_exhausted (snd r) = false
  /\ _shared_key_index (snd r) = 1%nat
  /\ _shared_key_failures (snd r) !! "BACKUP_1" = Some 0%Z.
Proof.
  intros w st r. split; [split_and!; vm_compute; reflexivity|].
  apply (rotates_once_to_working_backup w sample_instance "prompt" 1 st
           "PRIMARY" "q-primary" "BACKUP_1" "k-backup"
           (Client "q-primary") (Client "k-backup") quota_error
           (sample_response "k-backup"));
    first [discriminate | intros tr; reflexivity | vm_compute; reflexivity].
Defined.

Lemma current_index_stays_in_pool_witness :
  let w := sample_world [("GEMINI_API_KEY", "q-primary");
                         ("GEMINI_API_KEY_1", "k-backup");
                         ("GEMINI_API_KEY_3", "k-spare")] in
  let st := run_ops w sample_instance
              [OpInit; OpCall "prompt" 3; OpRotate; OpParse "an api"]
              class_initial in
  (every_key_accepted w
   /\ _api_keys_loaded st <> []
   /\ fst (_rotate_to_next_key st) = true)
  /\ index_ok st
  /\ current_usable (snd (_rotate_to_next_key st)) = true
  /\ current_usable st = true.
Proof.
  intros w st.
  assert (Hacc : every_key_accepted w) by (repeat constructor).
  assert (Hne : _api_keys_loaded st <> []) by (vm_compute; discriminate).
  assert (Hrot : fst (_rotate_to_next_key st) = true) by (vm_compute; reflexivity).
  split; [by split_and!|].
  destruct (current_index_stays_in_pool w sample_instance
              [OpInit; OpCall "prompt" 3; OpRotate; OpParse "an api"])
    as (H1 & H2 & H3).
  split_and!; [exact H1 | exact (H2 Hrot) | exact (H3 Hacc Hne)].
Defined.

Lemma construction_without_usable_slot_witness :
  let w := sample_world [("GEMINI_API_KEY", "bad");
                         ("GEMINI_API_KEY_2", "bad")] in
  let ops := [OpCall "prompt" 3; OpInit; OpRotate; OpParse "an api"] in
  let st := run_ops w sample_instance ops (started w) in
  no_usable_slot w
  /\ fst (__init__ w class_initial) = Return sample_instance
  /\ _api_keys_loaded st = [("PRIMARY", "bad"); ("BACKUP_2", "bad")]
  /\ fst (call_with_retry w sample_instance "prompt" default_max_retries st)
     = Raise (Exception "All retries failed")
  /\ trace (snd (call_with_retry w sample_instance "prompt" default_max_retries st))
     = []
  /\ _all_keys_exhausted
       (snd (call_with_retry w sample_instance "prompt" default_max_retries st))
     = false
  /\ fallback_result (fst (parse_intent w sample_instance "an api" st))
  /\ trace (snd (parse_intent w sample_instance "an api" st)) = [].
Proof.
  intros w ops st.
  assert (Hno : no_usable_slot w) by (repeat constructor).
  destruct (construction_without_usable_slot w sample_instance ops "prompt"
              default_max_retries "an api" Hno)
    as (_ & _ & _ & (Hk & _) & H5 & H6 & H7 & H8 & H9).
  split_and!; [exact Hno | vm_compute; reflexivity | exact Hk | exact H5 | exact H6
              | exact H7 | exact H8 | exact H9].
Defined.

(** * Further properties *)

(** ** Loading the pool and building clients *)

Lemma load_api_keys_omap w :
  _load_api_keys w = omap (slot_entry w) slot_variables.
Proof.
  unfold _load_api_keys, slot_entry, getenv, env_truthy. simpl.
  change ("GEMINI_API_KEY_" +:+ str_of_digit 1) with "GEMINI_API_KEY_1".
  change ("GEMINI_API_KEY_" +:+ str_of_digit 2) with "GEMINI_API_KEY_2".
  change ("GEMINI_API_KEY_" +:+ str_of_digit 3) with "GEMINI_API_KEY_3".
  change ("BACKUP_" +:+ str_of_digit 1) with "BACKUP_1".
  change ("BACKUP_" +:+ str_of_digit 2) with "BACKUP_2".
  change ("BACKUP_" +:+ str_of_digit 3) with "BACKUP_3".
  destruct (environ w !! "GEMINI_API_KEY") as [[|c0 s0]|];
    destruct (environ w !! "GEMINI_API_KEY_1") as [[|c1 s1]|];
    destruct (environ w !! "GEMINI_API_KEY_2") as [[|c2 s2]|];
    destruct (environ w !! "GEMINI_API_KEY_3") as [[|c3 s3]|]; reflexivity.
Qed.

Lemma slot_entry_name w slot entry :
  slot_entry w slot = Some entry -> entry.1 = slot.1.
Proof.
  unfold slot_entry. destruct (environ w !! slot.2) as [[|c s]|]; [done| |done].
  by intros [= <-].
Qed.

Lemma omap_fst_sublist {A B : Type} (f : A * B -> option (A * B)) l :
  (forall x y, f x = Some y -> y.1 = x.1) ->
  (omap f l).*1 `sublist_of` l.*1.
Proof.
  intros Hf. induction l as [|x l IH]; simpl; [constructor|].
  destruct (f x) as [y|] eqn:E; simpl.
  - rewrite (Hf _ _ E). by constructor.
  - by constructor.
Qed.

Lemma load_api_keys_names w :
  (_load_api_keys w).*1 `sublist_of` slot_variables.*1
  /\ NoDup (_load_api_keys w).*1.
Proof.
  assert (Hsub : (_load_api_keys w).*1 `sublist_of` slot_variables.*1).
  { rewrite load_api_keys_omap. apply omap_fst_sublist, slot_entry_name. }
  split; [exact Hsub|].
  eapply sublist_NoDup; [|exact Hsub]. by apply (bool_decide_unpack _).
Qed.

(** X1: The pool is loaded from four environment variables in a fixed order
    under fixed names; a variable that is unset or empty contributes
    nothing, any other one contributes its value under its slot's name. *)
Theorem load_api_keys_reads_four_variables w :
  (_load_api_keys w).*1 `sublist_of` ["PRIMARY"; "BACKUP_1"; "BACKUP_2"; "BACKUP_3"]
  /\ NoDup (_load_api_keys w).*1
  /\ (forall name key,
        (name, key) ∈ _load_api_keys w
        <-> exists var, (name, var) ∈ slot_variables
              /\ environ w !! var = Some key /\ key <> EmptyString).
Proof.
  destruct (load_api_keys_names w) as [Hsub Hnd].
  split_and!; [exact Hsub | exact Hnd |].
  intros name key. rewrite load_api_keys_omap, list_elem_of_omap. split.
  - intros ([n var] & Hel & Hentry). unfold slot_entry in Hentry. simpl in Hentry.
    destruct (environ w !! var) as [[|c s]|] eqn:E; [done| |done].
    injection Hentry as <- <-. exists var. by split_and!.
  - intros (var & Hel & Henv & Hne). exists (name, var). split; [done|].
    unfold slot_entry. simpl. rewrite Henv. by destruct key.
Qed.

Lemma NoDup_fst_unique {A B : Type} (l : list (A * B)) x y1 y2 :
  NoDup l.*1 -> (x, y1) ∈ l -> (x, y2) ∈ l -> y1 = y2.
Proof.
  induction l as [|[a b] l IH]; simpl; intros Hnd H1 H2.
  { by apply elem_of_nil in H1. }
  inversion_clear Hnd as [|? ? Hnot Hnd'].
  assert (Hin : forall y, (a, y) ∈ l -> False).
  { intros y Hy. apply Hnot, list_elem_of_fmap. by exists (a, y). }
  apply elem_of_cons in H1 as [H1|H1]; apply elem_of_cons in H2 as [H2|H2];
    simplify_eq; try done.
  - by destruct (Hin y2).
  - by destruct (Hin y1).
  - by apply IH.
Qed.

Lemma zero_failures_lookup (l : list (string * string)) name :
  (list_to_map ((fun '(name, _) => (name, 0%Z)) <$> l) : gmap string Z) !! name
  = if decide (name ∈ l.*1) then Some 0%Z else None.
Proof.
  induction l as [|[n k] l IH]; [done|].
  rewrite !fmap_cons. cbn [list_to_map foldr fst].
  destruct (decide (n = name)) as [->|Hne].
  - rewrite lookup_insert_eq. rewrite decide_True; [done | by left].
  - rewrite lookup_insert_ne by done. rewrite IH.
    destruct (decide (name ∈ l.*1)) as [H|H].
    + rewrite decide_True; [done | by right].
    + rewrite decide_False; [done|]. intros [->|H']%elem_of_cons; done.
Qed.

Lemma init_clients_failures w (l : list (string * string)) :
  forall st,
    _shared_key_failures
      (fold_left
         (fun st '(name, api_key) =>
            set_clients (<[name := genai_Client w api_key]> (_shared_clients st)) st)
         l st)
    = _shared_key_failures st
    /\ rng (fold_left
         (fun st '(name, api_key) =>
            set_clients (<[name := genai_Client w api_key]> (_shared_clients st)) st)
         l st) = rng st.
Proof.
  induction l as [|[n k] l IH]; intros st; simpl; [done|].
  destruct (IH (set_clients (<[n:=genai_Client w k]> (_shared_clients st)) st))
    as [-> ->]. done.
Qed.

(** The shared state after the first construction. *)
Lemma started_slots w :
  let st := started w in
  _api_keys_loaded st = _load_api_keys w
  /\ _shared_key_index st = 0%nat
  /\ _all_keys_exhausted st = false
  /\ trace st = []
  /\ (forall name key, (name, key) ∈ _load_api_keys w ->
        _shared_clients st !! name = Some (genai_Client w key)
        /\ _shared_key_failures st !! name = Some 0%Z)
  /\ (forall name, name ∉ (_load_api_keys w).*1 ->
        _shared_clients st !! name = None
        /\ _shared_key_failures st !! name = None)
  /\ match fst (__init__ w class_initial) with
     | Return self =>
         mock_mode self = false
         /\ model_name self
            = default "gemini-2.5-flash-lite" (environ w !! "GEMINI_MODEL")
     | Raise e => exn_class e = "ValueError"
     end.
Proof.
  destruct (load_api_keys_names w) as [_ Hnd].
  unfold started. rewrite init_state. simpl.
  unfold _initialize_all_clients.
  match goal with |- context [fold_left _ ?l ?s] =>
    destruct (init_clients_fold w l s) as (Hk & Hi & He & Ht & Hsame & Hin);
    destruct (init_clients_failures w l s) as [Hf _]
  end.
  simpl in *. rewrite Hf.
  split_and!; try done.
  - intros name key Hel. split.
    + destruct (Hin name key Hel) as (key' & Hel' & ->).
      by rewrite (NoDup_fst_unique _ _ _ _ Hnd Hel Hel').
    + rewrite zero_failures_lookup, decide_True; [done|].
      apply list_elem_of_fmap. by exists (name, key).
  - intros name Hnot. split.
    + destruct (Hsame name) as [->|(key & Hel & _)]; [done|].
      destruct Hnot. apply list_elem_of_fmap. by exists (name, key).
    + by rewrite zero_failures_lookup, decide_False.
  - unfold __init__, getenv.
    destruct (py_int w _); [destruct (py_float w _)|]; done.
Qed.

(** X2: After the first construction the shared state holds, for every slot of
    the loaded pool, the outcome of the client constructor on that slot's
    key ([None] when it raised) and a failure count of zero, and nothing
    for any other name; the index is on the first slot, the breaker is
    untripped and no remote call was made.  The construction itself fails
    with a ValueError only; the instance it returns has [mock_mode] False,
    whatever the pool is, and the model named in the environment. *)
Theorem construction_fills_every_slot w :
  let st := started w in
  _api_keys_loaded st = _load_api_keys w
  /\ _shared_key_index st = 0%nat
  /\ _all_keys_exhausted st = false
  /\ trace st = []
  /\ (forall name key, (name, key) ∈ _load_api_keys w ->
        _shared_clients st !! name = Some (genai_Client w key)
        /\ _shared_key_failures st !! name = Some 0%Z)
  /\ (forall name, name ∉ (_load_api_keys w).*1 ->
        _shared_clients st !! name = None
        /\ _shared_key_failures st !! name = None)
  /\ match fst (__init__ w class_initial) with
     | Return self =>
         mock_mode self = false
         /\ model_name self
            = default "gemini-2.5-flash-lite" (environ w !! "GEMINI_MODEL")
     | Raise e => exn_class e = "ValueError"
     end.
Proof. exact (started_slots w). Qed.

(** X3: The pool is set up once: a second construction in the same environment
    returns the same instance attributes and leaves the shared state as
    the first one left it; and once the pool holds a slot, a construction
    in any environment changes nothing of the shared state, so keys added
    to the environment later are not picked up. *)
Theorem later_construction_keeps_shared_state w st :
  __init__ w (snd (__init__ w st)) = __init__ w st
  /\ forall w', _api_keys_loaded (snd (__init__ w st)) <> [] ->
       snd (__init__ w' (snd (__init__ w st))) = snd (__init__ w st).
Proof.
  split.
  - assert (Hst : snd (__init__ w (snd (__init__ w st))) = snd (__init__ w st)).
    { rewrite (init_state w (snd (__init__ w st))), (init_state w st).
      destruct (_api_keys_loaded st) as [|entry keys] eqn:Hkeys; simpl.
      - unfold _initialize_all_clients. simpl.
        match goal with |- context [fold_left ?f ?l ?s] =>
          destruct (init_clients_fold w l s) as (Hk & _);
          set (st1 := fold_left f l s) in *
        end.
        simpl in Hk. rewrite Hk.
        destruct (_load_api_keys w) as [|e l] eqn:Hl; [|done].
        subst st1. simpl. reflexivity.
      - by rewrite Hkeys. }
    unfold __init__ in *.
    destruct (py_int w _); [destruct (py_float w _)|]; simpl in *; by rewrite Hst.
  - intros w' Hne. rewrite (init_state w' (snd (__init__ w st))).
    by destruct (_api_keys_loaded (snd (__init__ w st))).
Qed.

(** ** Where a rotation goes *)

Lemma ring_step i j n : (((i + 1) mod n + j) mod n = (i + S j) mod n)%nat.
Proof. rewrite Nat.Div0.add_mod_idemp_l. f_equal. lia. Qed.

(** A rotation loop that meets no eligible slot walks its whole range. *)
Lemma rotate_loop_walk k orig :
  forall st,
    (forall j, (1 <= j <= k)%nat ->
       eligible st orig
         ((_shared_key_index st + j) mod length (_api_keys_loaded st)) = false) ->
    rotate_loop k orig st
    = (false,
       match k with
       | O => st
       | S _ =>
           set_index ((_shared_key_index st + k) mod length (_api_keys_loaded st)) st
       end).
Proof.
  induction k as [|k IH]; intros st Hno; [done|].
  rewrite rotate_loop_S. cbv zeta.
  set (st1 := set_index _ st).
  assert (H1 : eligible st orig
                 ((_shared_key_index st + 1) mod length (_api_keys_loaded st)) = false)
    by (apply Hno; lia).
  change (is_some (clients_get st1 (_get_current_key_name st1))
          && negb (String.eqb (_get_current_key_name st1) orig))
    with (eligible st orig
            ((_shared_key_index st + 1) mod length (_api_keys_loaded st))).
  rewrite H1. rewrite IH.
  - destruct k as [|k]; [reflexivity|].
    subst st1. cbn [_shared_key_index _api_keys_loaded set_index].
    rewrite ring_step. reflexivity.
  - intros j Hj. subst st1. cbn [_shared_key_index _api_keys_loaded set_index].
    rewrite ring_step.
    change (eligible (set_index _ st) orig ?p) with (eligible st orig p).
    apply Hno. lia.
Qed.

(** A rotation loop stops at the first eligible slot of its range. *)
Lemma rotate_loop_first k orig :
  forall j st,
    (1 <= j <= k)%nat ->
    (forall j', (1 <= j' < j)%nat ->
       eligible st orig
         ((_shared_key_index st + j') mod length (_api_keys_loaded st)) = false) ->
    eligible st orig
      ((_shared_key_index st + j) mod length (_api_keys_loaded st)) = true ->
    rotate_loop k orig st
    = (true,
       emit (EvRotation orig
               (_get_key_name_at st
                  ((_shared_key_index st + j) mod length (_api_keys_loaded st))))
         (set_index ((_shared_key_index st + j) mod length (_api_keys_loaded st)) st)).
Proof.
  induction k as [|k IH]; intros j st Hj Hno Hyes; [lia|].
  rewrite rotate_loop_S. cbv zeta.
  set (st1 := set_index _ st).
  change (is_some (clients_get st1 (_get_current_key_name st1))
          && negb (String.eqb (_get_current_key_name st1) orig))
    with (eligible st orig
            ((_shared_key_index st + 1) mod length (_api_keys_loaded st))).
  destruct (decide (j = 1%nat)) as [->|Hne].
  - rewrite Hyes. reflexivity.
  - rewrite (Hno 1%nat) by lia.
    destruct j as [|j]; [lia|].
    rewrite (IH j st1); [| lia | |].
    + subst st1. cbn [_shared_key_index _api_keys_loaded set_index].
      rewrite ring_step. reflexivity.
    + intros j' Hj'. subst st1. cbn [_shared_key_index _api_keys_loaded set_index].
      rewrite ring_step.
      change (eligible (set_index _ st) orig ?p) with (eligible st orig p).
      apply Hno. lia.
    + subst st1. cbn [_shared_key_index _api_keys_loaded set_index].
      rewrite ring_step. exact Hyes.
Qed.

(** What a rotation loop that reports failure has seen. *)
Lemma rotate_loop_false k orig :
  forall st,
    fst (rotate_loop k orig st) = false ->
    forall j, (1 <= j <= k)%nat ->
      eligible st orig
        ((_shared_key_index st + j) mod length (_api_keys_loaded st)) = false.
Proof.
  induction k as [|k IH]; intros st Hf j Hj; [lia|].
  rewrite rotate_loop_S in Hf. cbv zeta in Hf.
  set (st1 := set_index _ st) in Hf.
  change (is_some (clients_get st1 (_get_current_key_name st1))
          && negb (String.eqb (_get_current_key_name st1) orig))
    with (eligible st orig
            ((_shared_key_index st + 1) mod length (_api_keys_loaded st))) in Hf.
  destruct (eligible st orig _) eqn:E1 in Hf; [done|].
  destruct (decide (j = 1%nat)) as [->|Hne]; [done|].
  destruct j as [|j]; [lia|].
  specialize (IH st1 Hf j). subst st1.
  cbn [_shared_key_index _api_keys_loaded set_index] in IH.
  rewrite ring_step in IH. apply IH. lia.
Qed.

(** A rotation over two or more slots that reports failure: where it
    leaves the index and what it has seen. *)
Lemma failed_rotation_index st :
  (2 <= length (_api_keys_loaded st))%nat ->
  fst (_rotate_to_next_key st) = false ->
  _rotate_to_next_key st
  = (false,
     set_index ((_shared_key_index st + (length (_api_keys_loaded st) - 1))
                mod length (_api_keys_loaded st)) st)
  /\ (forall j, (1 <= j < length (_api_keys_loaded st))%nat ->
        eligible st (_get_current_key_name st)
          ((_shared_key_index st + j) mod length (_api_keys_loaded st)) = false).
Proof.
  intros Hn Hf. unfold _rotate_to_next_key in *.
  set (n := length (_api_keys_loaded st)) in *.
  destruct (Nat.eqb_spec n 1) as [Hn1|_]; [lia|].
  assert (Hno : forall j, (1 <= j <= n - 1)%nat ->
            eligible st (_get_key_name_at st (_shared_key_index st))
              ((_shared_key_index st + j) mod n) = false).
  { intros j Hj. by apply (rotate_loop_false (n - 1) _ st Hf j). }
  rewrite (rotate_loop_walk (n - 1) _ st Hno).
  destruct (n - 1)%nat as [|k] eqn:Hk; [lia|].
  split; [done|]. intros j Hj. apply Hno. lia.
Qed.

(** X4: A rotation stops at the nearest slot after the current one, in ring
    order, that has a client and a name other than the current one; it
    logs the rotation and changes nothing but the index. *)
Theorem rotation_stops_at_nearest_eligible_slot st j :
  let n := length (_api_keys_loaded st) in
  let i := _shared_key_index st in
  (1 <= j < n)%nat ->
  (forall j', (1 <= j' < j)%nat ->
     eligible st (_get_current_key_name st) ((i + j') mod n) = false) ->
  eligible st (_get_current_key_name st) ((i + j) mod n) = true ->
  _rotate_to_next_key st
  = (true,
     emit (EvRotation (_get_current_key_name st)
             (_get_key_name_at st ((i + j) mod n)))
       (set_index ((i + j) mod n) st)).
Proof.
  intros n i Hj Hno Hyes. unfold _rotate_to_next_key. fold n.
  destruct (Nat.eqb_spec n 1) as [Hn|_]; [lia|].
  apply (rotate_loop_first (n - 1) _ j st); [lia | exact Hno | exact Hyes].
Qed.

(** X5: A rotation over two or more slots that reports failure has found no
    other slot with a client and another name and has issued no
    key-rotation warning (the error it logs on giving up is not part of
    the trace); of the shared state it has changed the index alone, which
    it has moved all the way round to the slot before the one it started
    from. *)
Theorem failed_rotation_moves_index st :
  let n := length (_api_keys_loaded st) in
  let i := _shared_key_index st in
  (2 <= n)%nat ->
  fst (_rotate_to_next_key st) = false ->
  _rotate_to_next_key st = (false, set_index ((i + (n - 1)) mod n) st)
  /\ (forall j, (1 <= j < n)%nat ->
        eligible st (_get_current_key_name st) ((i + j) mod n) = false)
  /\ ((i < n)%nat -> _shared_key_index (snd (_rotate_to_next_key st)) <> i).
Proof.
  intros n i Hn Hf.
  destruct (failed_rotation_index st Hn Hf) as [Hrot Hno].
  split_and!; [exact Hrot | exact Hno |].
  intros Hi. rewrite Hrot. cbn [snd set_index _shared_key_index]. fold i. fold n.
  destruct (decide (i = 0%nat)) as [Hi0|Hi0].
  - rewrite Hi0, Nat.mod_small; lia.
  - replace (i + (n - 1))%nat with ((i - 1) + 1 * n)%nat by lia.
    rewrite Nat.Div0.mod_add, Nat.mod_small; lia.
Qed.

Lemma rotation_stops_at_nearest_eligible_slot_witness :
  let st := started (sample_world [("GEMINI_API_KEY", "k-primary");
                                   ("GEMINI_API_KEY_1", "bad");
                                   ("GEMINI_API_KEY_2", "k-spare")]) in
  (_get_current_key_name st = "PRIMARY"
   /\ eligible st "PRIMARY" 1 = false
   /\ eligible st "PRIMARY" 2 = true
   /\ _get_key_name_at st 2 = "BACKUP_2")
  /\ _rotate_to_next_key st
     = (true,
        emit (EvRotation (_get_current_key_name st)
                (_get_key_name_at st
                   ((_shared_key_index st + 2) mod length (_api_keys_loaded st))))
          (set_index ((_shared_key_index st + 2) mod length (_api_keys_loaded st))
             st)).
Proof.
  intros st. split; [split_and!; vm_compute; reflexivity|].
  apply (rotation_stops_at_nearest_eligible_slot st 2).
  - vm_compute. lia.
  - intros j' Hj'. assert (j' = 1%nat) as -> by lia. vm_compute. reflexivity.
  - vm_compute. reflexivity.
Defined.

Lemma failed_rotation_moves_index_witness :
  let st := started (sample_world [("GEMINI_API_KEY", "k-primary");
                                   ("GEMINI_API_KEY_1", "bad");
                                   ("GEMINI_API_KEY_3", "bad")]) in
  (length (_api_keys_loaded st) = 3%nat
   /\ _shared_key_index st = 0%nat
   /\ fst (_rotate_to_next_key st) = false)
  /\ _shared_key_index (snd (_rotate_to_next_key st)) = 2%nat.
Proof.
  intros st.
  assert (Hn : (2 <= length (_api_keys_loaded st))%nat) by (vm_compute; lia).
  assert (Hf : fst (_rotate_to_next_key st) = false) by (vm_compute; reflexivity).
  split; [split_and!; vm_compute; reflexivity|].
  destruct (failed_rotation_moves_index st Hn Hf) as (-> & _).
  vm_compute. reflexivity.
Defined.

(** ** The size of a dispatch *)

Lemma rotations_app tr1 tr2 :
  rotations (tr1 ++ tr2) = (rotations tr1 ++ rotations tr2)%list.
Proof. unfold rotations. apply omap_app. Qed.

(** What a rotation adds to the trace: nothing, or the one rotation. *)
Lemma rotate_trace st :
  exists tr, trace (snd (_rotate_to_next_key st)) = (trace st ++ tr)%list
    /\ called_keys tr = [] /\ sleeps tr = []
    /\ (length (rotations tr) <= 1)%nat
    /\ (fst (_rotate_to_next_key st) = false -> tr = []).
Proof.
  pose proof (rotate_spec st) as (_ & _ & _ & _ & Hfalse & Htrue).
  destruct (fst (_rotate_to_next_key st)).
  - destruct Htrue as (_ & _ & ->); [done|]. eexists. split; [reflexivity|].
    split_and!; first [done | simpl; lia].
  - exists []. rewrite Hfalse by done. rewrite app_nil_r.
    split_and!; first [done | simpl; lia].
Qed.

Lemma retry_loop_bounds w self prompt remaining :
  forall attempt last_error st,
    let r := retry_loop w self prompt remaining attempt last_error st in
    exists tr, trace (snd r) = (trace st ++ tr)%list
      /\ (length (called_keys tr) <= remaining)%nat
      /\ (length (sleeps tr) <= length (called_keys tr))%nat
      /\ (length (rotations tr) <= remaining)%nat
      /\ rng (snd r) = (rng st + length (sleeps tr))%nat.
Proof.
  induction remaining as [|remaining IH]; intros attempt last_error st.
  { exists []. simpl. rewrite app_nil_r. split_and!; first [done | simpl; lia]. }
  destruct (_all_keys_exhausted st) eqn:Hex.
  { exists []. simpl. rewrite Hex. simpl. rewrite app_nil_r.
    split_and!; first [done | simpl; lia]. }
  destruct (_get_current_client st) as [c|] eqn:Hc.
  - destruct (generate_content w (trace st) c (model_name self) prompt
                (temperature self) (max_tokens self)) as [resp|e] eqn:Hreply.
    { rewrite (retry_loop_success _ _ _ _ _ _ _ c resp); [|done..].
      eexists. split; [reflexivity|]. simpl. split_and!; first [done | lia]. }
    destruct (is_quota_error (exn_str e)) eqn:Hq.
    2:{ rewrite (retry_loop_failed _ _ _ _ _ _ _ c e); [|done..].
        eexists. split; [reflexivity|]. simpl. split_and!; first [done | lia]. }
    rewrite (retry_loop_quota _ _ _ _ _ _ _ c e); [|done..]. cbv zeta.
    set (st1 := record_failure _ _).
    destruct (rotate_trace st1) as (tr1 & Htr1 & Hc1 & Hs1 & Hr1 & _).
    pose proof (rotate_spec st1) as (_ & _ & _ & Hrng & _).
    destruct (_rotate_to_next_key st1) as [[] st2]; simpl in *.
    + set (st3 := emit (EvSleep attempt (backoff_delay w st2 attempt)) (draw st2)).
      destruct (IH (S attempt) (Some e) st3) as (tr & Htr & Hcalls & Hsl & Hrot & Hrn).
      exists (EvCall (_get_current_key_name st) attempt QuotaExhausted
              :: tr1 ++ EvSleep attempt (backoff_delay w st2 attempt) :: tr)%list.
      split.
      { rewrite Htr. subst st3. simpl. rewrite Htr1. subst st1. simpl.
        rewrite <- !app_assoc. reflexivity. }
      rewrite Hrn. subst st3. simpl. rewrite Hrng.
      change (EvCall ?k ?a ?o :: ?l) with ([EvCall k a o] ++ l)%list.
      change (tr1 ++ ?e :: tr)%list with (tr1 ++ [e] ++ tr)%list.
      rewrite !called_keys_app, !sleeps_app, !rotations_app, Hc1, Hs1.
      simpl. rewrite !length_app. simpl. split_and!; lia.
    + exists (EvCall (_get_current_key_name st) attempt QuotaExhausted :: tr1)%list.
      split.
      { rewrite Htr1. subst st1. simpl. rewrite <- !app_assoc. reflexivity. }
      change (EvCall ?k ?a ?o :: ?l) with ([EvCall k a o] ++ l)%list.
      rewrite !called_keys_app, !sleeps_app, !rotations_app, Hc1, Hs1.
      simpl. rewrite Hrng. subst st1. simpl. split_and!; lia.
  - simpl. rewrite Hex, Hc.
    destruct (rotate_trace st) as (tr1 & Htr1 & Hc1 & Hs1 & Hr1 & _).
    pose proof (rotate_spec st) as (_ & _ & _ & Hrng & _).
    destruct (_rotate_to_next_key st) as [rotated st2]; simpl in *.
    destruct (IH (S attempt) last_error st2) as (tr & Htr & Hcalls & Hsl & Hrot & Hrn).
    exists (tr1 ++ tr)%list. split.
    { rewrite Htr, Htr1, <- app_assoc. reflexivity. }
    rewrite !called_keys_app, !sleeps_app, !rotations_app, Hc1, Hs1.
    simpl. rewrite !length_app, Hrn, Hrng. split_and!; lia.
Qed.

(** X6: One dispatch makes at most [max_retries] remote calls and logs at most
    [max_retries] rotations; it waits at most once per call, and draws one
    random number per wait and none otherwise. *)
Theorem dispatch_is_bounded_by_max_retries w self prompt max_retries st :
  let r := call_with_retry w self prompt max_retries st in
  exists tr, trace (snd r) = (trace st ++ tr)%list
    /\ (length (called_keys tr) <= max_retries)%nat
    /\ (length (sleeps tr) <= length (called_keys tr))%nat
    /\ (length (rotations tr) <= max_retries)%nat
    /\ rng (snd r) = (rng st + length (sleeps tr))%nat.
Proof.
  unfold call_with_retry. destruct (_all_keys_exhausted st).
  - exists []. simpl. rewrite app_nil_r. split_and!; first [done | simpl; lia].
  - apply retry_loop_bounds.
Qed.

(** ** What a dispatch returns and counts *)

Lemma rotate_adds st :
  (snd (_rotate_to_next_key st)).(trace) = trace st
  \/ exists a b, (snd (_rotate_to_next_key st)).(trace)
                 = (trace st ++ [EvRotation a b])%list.
Proof.
  pose proof (rotate_spec st) as (_ & _ & _ & _ & Hfalse & Htrue).
  destruct (fst (_rotate_to_next_key st)).
  - right. destruct Htrue as (_ & _ & ->); [done|]. by eexists _, _.
  - left. by apply Hfalse.
Qed.

Lemma retry_loop_returns w self prompt remaining :
  forall attempt last_error st resp,
    fst (retry_loop w self prompt remaining attempt last_error st) = Return resp ->
    let st' := snd (retry_loop w self prompt remaining attempt last_error st) in
    exists tr a c,
      trace st'
      = (trace st ++ tr ++ [EvCall (_get_current_key_name st') a Succeeded])%list
      /\ (attempt <= a < attempt + remaining)%nat
      /\ _get_current_client st' = Some c
      /\ generate_content w (trace st ++ tr) c (model_name self) prompt
           (temperature self) (max_tokens self) = Return resp
      /\ Forall quota_or_no_call tr
      /\ _shared_key_failures st' !! _get_current_key_name st' = Some 0%Z
      /\ _all_keys_exhausted st' = false.
Proof.
  induction remaining as [|remaining IH]; intros attempt last_error st resp Hret.
  { simpl in Hret. done. }
  destruct (_all_keys_exhausted st) eqn:Hex.
  { simpl in Hret. rewrite Hex in Hret. done. }
  destruct (_get_current_client st) as [c|] eqn:Hc.
  - destruct (generate_content w (trace st) c (model_name self) prompt
                (temperature self) (max_tokens self)) as [resp0|e] eqn:Hreply.
    { rewrite (retry_loop_success _ _ _ _ _ _ _ c resp0) in Hret |- *; [|done..].
      simpl in Hret. injection Hret as ->.
      exists [], attempt, c. cbn [snd]. rewrite app_nil_r.
      split_and!; try done; try lia.
      apply lookup_insert_eq. }
    destruct (is_quota_error (exn_str e)) eqn:Hq.
    2:{ rewrite (retry_loop_failed _ _ _ _ _ _ _ c e) in Hret; [|done..]. done. }
    rewrite (retry_loop_quota _ _ _ _ _ _ _ c e) in Hret |- *; [|done..].
    cbv zeta in Hret |- *.
    set (st1 := record_failure _ _) in *.
    pose proof (rotate_spec st1) as (_ & _ & _ & _ & _ & Htrue).
    destruct (_rotate_to_next_key st1) as [[] st2]; simpl in *; [|done].
    destruct Htrue as (_ & _ & Htr2); [done|].
    set (st3 := emit (EvSleep attempt (backoff_delay w st2 attempt)) (draw st2)) in *.
    destruct (IH (S attempt) (Some e) st3 resp Hret)
      as (tr & a & c' & Htr & Ha & Hc' & Hgen & Hall & Hf & Hex').
    exists ([EvCall (_get_current_key_name st) attempt QuotaExhausted;
             EvRotation (_get_current_key_name st) (_get_current_key_name st2);
             EvSleep attempt (backoff_delay w st2 attempt)] ++ tr)%list, a, c'.
    assert (Htr3 : trace st3
                   = (trace st ++ [EvCall (_get_current_key_name st) attempt QuotaExhausted;
                        EvRotation (_get_current_key_name st) (_get_current_key_name st2);
                        EvSleep attempt (backoff_delay w st2 attempt)])%list).
    { subst st3. simpl. rewrite Htr2. subst st1. simpl. by rewrite <- !app_assoc. }
    split_and!; try done; try lia.
    + rewrite Htr, Htr3, <- !app_assoc. reflexivity.
    + match goal with |- generate_content w ?t _ _ _ _ _ = _ =>
        replace t with (trace st3 ++ tr)%list end; [exact Hgen|].
      rewrite Htr3, <- app_assoc. reflexivity.
    + repeat constructor. exact Hall.
  - simpl in Hret |- *. rewrite Hex, Hc in Hret |- *.
    destruct (rotate_adds st) as [Htr2|(a0 & b0 & Htr2)];
      destruct (_rotate_to_next_key st) as [rotated st2]; simpl in *.
    + destruct (IH (S attempt) last_error st2 resp Hret)
        as (tr & a & c' & Htr & Ha & Hc' & Hgen & Hall & Hf & Hex').
      exists tr, a, c'. rewrite Htr2 in *. split_and!; try done; lia.
    + destruct (IH (S attempt) last_error st2 resp Hret)
        as (tr & a & c' & Htr & Ha & Hc' & Hgen & Hall & Hf & Hex').
      exists (EvRotation a0 b0 :: tr), a, c'. rewrite Htr2 in *.
      split_and!; try done; try lia.
      * rewrite Htr, <- !app_assoc. reflexivity.
      * match goal with |- generate_content w ?t _ _ _ _ _ = _ =>
          replace t with ((trace st ++ [EvRotation a0 b0]) ++ tr)%list end;
          [exact Hgen|].
        rewrite <- app_assoc. reflexivity.
      * by constructor.
Qed.

(** X7: When a dispatch returns a response, that response is the endpoint's
    answer to the last call of the dispatch, made with the client of the
    key that is current afterwards; every earlier call of the dispatch ran
    into the quota; the answering key's failure count is 0 and the breaker
    is untripped. *)
Theorem returned_response_is_from_current_key w self prompt max_retries st resp :
  fst (call_with_retry w self prompt max_retries st) = Return resp ->
  let st' := snd (call_with_retry w self prompt max_retries st) in
  exists tr a c,
    trace st'
    = (trace st ++ tr ++ [EvCall (_get_current_key_name st') a Succeeded])%list
    /\ (a < max_retries)%nat
    /\ _get_current_client st' = Some c
    /\ generate_content w (trace st ++ tr) c (model_name self) prompt
         (temperature self) (max_tokens self) = Return resp
    /\ Forall quota_or_no_call tr
    /\ _shared_key_failures st' !! _get_current_key_name st' = Some 0%Z
    /\ _all_keys_exhausted st' = false.
Proof.
  unfold call_with_retry. destruct (_all_keys_exhausted st); [done|].
  intros Hret.
  destruct (retry_loop_returns w self prompt max_retries 0 None st resp Hret)
    as (tr & a & c & H1 & H2 & H3 & H4 & H5 & H6 & H7).
  exists tr, a, c. split_and!; try done; lia.
Qed.

Lemma failed_calls_app key_name tr1 tr2 :
  failed_calls key_name (tr1 ++ tr2)
  = (failed_calls key_name tr1 + failed_calls key_name tr2)%Z.
Proof. unfold failed_calls. rewrite List.filter_app, length_app. lia. Qed.

Lemma failures_of_record_failure st k key_name :
  failures_of (record_failure k st) key_name
  = (failures_of st key_name + if String.eqb k key_name then 1 else 0)%Z.
Proof.
  unfold failures_of, record_failure. simpl.
  destruct (String.eqb_spec k key_name) as [->|Hne].
  - by rewrite lookup_insert_eq.
  - rewrite lookup_insert_ne by done. lia.
Qed.

Lemma rotate_failed_calls st key_name :
  exists tr, trace (snd (_rotate_to_next_key st)) = (trace st ++ tr)%list
             /\ failed_calls key_name tr = 0%Z.
Proof.
  destruct (rotate_adds st) as [->|(a & b & ->)].
  - exists []. by rewrite app_nil_r.
  - by eexists.
Qed.

Lemma retry_loop_failures w self prompt remaining key_name :
  forall attempt last_error st,
    let r := retry_loop w self prompt remaining attempt last_error st in
    exists tr, trace (snd r) = (trace st ++ tr)%list
      /\ failures_of (snd r) key_name
         = if is_return (fst r) && String.eqb (_get_current_key_name (snd r)) key_name
           then 0%Z
           else (failures_of st key_name + failed_calls key_name tr)%Z.
Proof.
  induction remaining as [|remaining IH]; intros attempt last_error st.
  { exists []. simpl. rewrite app_nil_r. split; [done|]. unfold failed_calls. simpl. lia. }
  destruct (_all_keys_exhausted st) eqn:Hex.
  { exists []. simpl. rewrite Hex. simpl. rewrite app_nil_r. split; [done|].
    unfold failed_calls. simpl. lia. }
  destruct (_get_current_client st) as [c|] eqn:Hc.
  - destruct (generate_content w (trace st) c (model_name self) prompt
                (temperature self) (max_tokens self)) as [resp|e] eqn:Hreply.
    { rewrite (retry_loop_success _ _ _ _ _ _ _ c resp); [|done..].
      eexists. split; [reflexivity|]. cbn [fst snd is_return andb].
      change (_get_current_key_name (record_success _ (emit _ st)))
        with (_get_current_key_name st).
      unfold failures_of, record_success. simpl.
      destruct (String.eqb_spec (_get_current_key_name st) key_name) as [->|Hne].
      - by rewrite lookup_insert_eq.
      - rewrite lookup_insert_ne by done. unfold failed_calls. simpl. lia. }
    destruct (is_quota_error (exn_str e)) eqn:Hq.
    2:{ rewrite (retry_loop_failed _ _ _ _ _ _ _ c e); [|done..].
        eexists. split; [reflexivity|]. cbn [fst snd is_return andb].
        rewrite failures_of_record_failure.
        change (failures_of (emit _ st) key_name) with (failures_of st key_name).
        unfold failed_calls. simpl.
        destruct (String.eqb (_get_current_key_name st) key_name); simpl; lia. }
    rewrite (retry_loop_quota _ _ _ _ _ _ _ c e); [|done..]. cbv zeta.
    set (st1 := record_failure _ _).
    assert (Hf1 : failures_of st1 key_name
                  = (failures_of st key_name
                     + failed_calls key_name
                         [EvCall (_get_current_key_name st) attempt QuotaExhausted])%Z).
    { subst st1. rewrite failures_of_record_failure.
      change (failures_of (emit _ st) key_name) with (failures_of st key_name).
      unfold failed_calls. simpl.
      destruct (String.eqb (_get_current_key_name st) key_name); simpl; lia. }
    destruct (rotate_failed_calls st1 key_name) as (tr1 & Htr1 & Hn1).
    assert (Hfs : failures_of (snd (_rotate_to_next_key st1)) key_name
                  = failures_of st1 key_name).
    { pose proof (rotate_spec st1) as (_ & Hfs & _). unfold failures_of. by rewrite Hfs. }
    destruct (_rotate_to_next_key st1) as [[] st2]; cbn [fst snd negb] in *.
    + set (st3 := emit (EvSleep attempt (backoff_delay w st2 attempt)) (draw st2)).
      destruct (IH (S attempt) (Some e) st3) as (tr & Htr & Hres).
      exists ([EvCall (_get_current_key_name st) attempt QuotaExhausted] ++ tr1
              ++ [EvSleep attempt (backoff_delay w st2 attempt)] ++ tr)%list.
      split.
      { rewrite Htr. subst st3. simpl. rewrite Htr1. subst st1. simpl.
        rewrite <- !app_assoc. reflexivity. }
      rewrite Hres. destruct (_ && _); [done|].
      rewrite !failed_calls_app, Hn1.
      change (failures_of st3 key_name) with (failures_of st2 key_name).
      rewrite Hfs, Hf1.
      change (failed_calls key_name [EvSleep _ _]) with 0%Z. lia.
    + exists ([EvCall (_get_current_key_name st) attempt QuotaExhausted] ++ tr1)%list.
      split.
      { cbn [snd set_exhausted trace]. rewrite Htr1. subst st1. simpl.
        rewrite <- !app_assoc. reflexivity. }
      rewrite failed_calls_app, Hn1.
      change (failures_of (set_exhausted true st2) key_name)
        with (failures_of st2 key_name).
      rewrite Hfs, Hf1. cbn [fst is_return andb]. lia.
  - simpl. rewrite Hex, Hc.
    destruct (rotate_failed_calls st key_name) as (tr1 & Htr1 & Hn1).
    assert (Hfs : failures_of (snd (_rotate_to_next_key st)) key_name
                  = failures_of st key_name).
    { pose proof (rotate_spec st) as (_ & Hfs & _). unfold failures_of. by rewrite Hfs. }
    destruct (_rotate_to_next_key st) as [rotated st2]; cbn [fst snd] in *.
    destruct (IH (S attempt) last_error st2) as (tr & Htr & Hres).
    exists (tr1 ++ tr)%list. split.
    { rewrite Htr, Htr1, <- app_assoc. reflexivity. }
    rewrite Hres. destruct (_ && _); [done|].
    rewrite failed_calls_app, Hn1, Hfs. lia.
Qed.

(** X8: The failure counts follow the calls: after a dispatch, the count of the
    key that answered is 0, and the count of every other key (of every key,
    when the dispatch failed) is its count before plus the number of calls
    on it that failed in this dispatch. *)
Theorem failure_counts_follow_calls w self prompt max_retries st key_name :
  let r := call_with_retry w self prompt max_retries st in
  exists tr, trace (snd r) = (trace st ++ tr)%list
    /\ failures_of (snd r) key_name
       = if is_return (fst r) && String.eqb (_get_current_key_name (snd r)) key_name
         then 0%Z
         else (failures_of st key_name + failed_calls key_name tr)%Z.
Proof.
  unfold call_with_retry. destruct (_all_keys_exhausted st).
  - exists []. simpl. rewrite app_nil_r. split; [done|]. unfold failed_calls. simpl. lia.
  - apply retry_loop_failures.
Qed.

(** ** When the breaker trips *)

Lemma not_eligible st orig p :
  eligible st orig p = false ->
  _get_key_name_at st p = orig \/ clients_get st (_get_key_name_at st p) = None.
Proof.
  unfold eligible. intros [H|H]%andb_false_iff.
  - right. by destruct (clients_get st _).
  - left. apply negb_false_iff in H. by apply String.eqb_eq.
Qed.

(** A failed rotation from a slot of the pool has looked at every other
    slot. *)
Lemma failed_rotation_no_alternative st :
  index_ok st ->
  fst (_rotate_to_next_key st) = false ->
  no_alternative st (_get_current_key_name st).
Proof.
  intros Hok Hf. unfold no_alternative.
  apply Forall_lookup_2. intros p name Hp.
  assert (Hlt : (p < length (_api_keys_loaded st))%nat).
  { apply lookup_lt_Some in Hp. unfold pool_names in Hp.
    by rewrite length_fmap in Hp. }
  apply key_name_at_lookup in Hp. subst name.
  destruct Hok as [[Hnil _]|Hi]; [rewrite Hnil in Hlt; simpl in Hlt; lia|].
  destruct (decide (p = _shared_key_index st)) as [->|Hne]; [by left|].
  assert (Hn : (2 <= length (_api_keys_loaded st))%nat) by lia.
  destruct (failed_rotation_index st Hn Hf) as (_ & Hno).
  set (n := length (_api_keys_loaded st)) in *.
  set (i := _shared_key_index st) in *.
  apply not_eligible.
  destruct (decide (i < p)%nat).
  - replace p with ((i + (p - i)) mod n)%nat by (rewrite Nat.mod_small; lia).
    apply Hno. lia.
  - replace p with ((i + (p + n - i)) mod n)%nat.
    + apply Hno. lia.
    + replace (i + (p + n - i))%nat with (p + 1 * n)%nat by lia.
      rewrite Nat.Div0.mod_add, Nat.mod_small; lia.
Qed.

Lemma no_alternative_same_pool st st' key_name :
  same_pool st st' -> no_alternative st' key_name -> no_alternative st key_name.
Proof.
  intros [Hk Hc]. unfold no_alternative, pool_names, clients_get.
  by rewrite Hk, Hc.
Qed.

Lemma retry_loop_trips w self prompt remaining :
  forall attempt last_error st,
    index_ok st ->
    _all_keys_exhausted st = false ->
    let r := retry_loop w self prompt remaining attempt last_error st in
    _all_keys_exhausted (snd r) = true ->
    fst r = Raise all_keys_exhausted_error
    /\ exists tr a key_name,
         trace (snd r) = (trace st ++ tr ++ [EvCall key_name a QuotaExhausted])%list
         /\ no_alternative st key_name.
Proof.
  induction remaining as [|remaining IH]; intros attempt last_error st Hok Hex.
  { simpl. congruence. }
  destruct (_get_current_client st) as [c|] eqn:Hc.
  - destruct (generate_content w (trace st) c (model_name self) prompt
                (temperature self) (max_tokens self)) as [resp|e] eqn:Hreply.
    { rewrite (retry_loop_success _ _ _ _ _ _ _ c resp); [|done..]. simpl. congruence. }
    destruct (is_quota_error (exn_str e)) eqn:Hq.
    2:{ rewrite (retry_loop_failed _ _ _ _ _ _ _ c e); [|done..]. simpl. congruence. }
    rewrite (retry_loop_quota _ _ _ _ _ _ _ c e); [|done..]. cbv zeta.
    set (st1 := record_failure _ _).
    assert (Hok1 : index_ok st1) by (by apply (index_ok_ext st)).
    pose proof (rotate_spec st1) as (Hp & _ & Hex2 & _ & Hfalse & Htrue).
    pose proof (rotate_index_ok st1 Hok1) as Hok2.
    pose proof (failed_rotation_no_alternative st1 Hok1) as Hna.
    destruct (_rotate_to_next_key st1) as [[] st2]; cbn [fst snd negb] in *.
    + destruct Htrue as (_ & _ & Htr2); [done|].
      set (st3 := emit (EvSleep attempt (backoff_delay w st2 attempt)) (draw st2)).
      intros Htrip.
      destruct (IH (S attempt) (Some e) st3) as (Hr & tr & a & k & Htr & Hno);
        [by apply (index_ok_ext st2)
        | change (_all_keys_exhausted st2 = false); rewrite Hex2; exact Hex
        | exact Htrip |].
      split; [done|].
      exists ([EvCall (_get_current_key_name st) attempt QuotaExhausted;
               EvRotation (_get_current_key_name st) (_get_current_key_name st2);
               EvSleep attempt (backoff_delay w st2 attempt)] ++ tr)%list, a, k.
      split.
      * rewrite Htr. subst st3. simpl. rewrite Htr2. subst st1. simpl.
        rewrite <- !app_assoc. reflexivity.
      * apply (no_alternative_same_pool st st3); [|done].
        destruct Hp as [Hk Hcl]. by split.
    + intros _. split; [done|].
      exists [], attempt, (_get_current_key_name st). split.
      * cbn [set_exhausted trace]. rewrite Hfalse by done. reflexivity.
      * by apply Hna.
  - simpl. rewrite Hex, Hc.
    pose proof (rotate_spec st) as (Hp & _ & Hex2 & _).
    pose proof (rotate_index_ok st Hok) as Hok2.
    destruct (rotate_adds st) as [Htr2|(a0 & b0 & Htr2)];
      destruct (_rotate_to_next_key st) as [rotated st2]; cbn [fst snd] in *;
      intros Htrip;
      (destruct (IH (S attempt) last_error st2) as (Hr & tr & a & k & Htr & Hno);
       [done | congruence | exact Htrip |]);
      (split; [done|]).
    + exists tr, a, k. rewrite Htr, Htr2.
      split; [done | by apply (no_alternative_same_pool st st2)].
    + exists (EvRotation a0 b0 :: tr), a, k. rewrite Htr, Htr2, <- !app_assoc.
      split; [done | by apply (no_alternative_same_pool st st2)].
Qed.

(** X9: The breaker is tripped by a dispatch only in one way: the last call of
    the dispatch ran into the quota and, apart from slots named like the
    one just called, no slot of the pool has a client; the dispatch then
    fails with the all-keys-exhausted error. *)
Theorem breaker_trips_only_without_alternative w self prompt max_retries st :
  index_ok st ->
  _all_keys_exhausted st = false ->
  let r := call_with_retry w self prompt max_retries st in
  _all_keys_exhausted (snd r) = true ->
  fst r = Raise all_keys_exhausted_error
  /\ exists tr a key_name,
       trace (snd r) = (trace st ++ tr ++ [EvCall key_name a QuotaExhausted])%list
       /\ no_alternative st key_name.
Proof.
  intros Hok Hex. unfold call_with_retry. rewrite Hex.
  by apply retry_loop_trips.
Qed.

Lemma breaker_trips_only_without_alternative_witness :
  let w := sample_world [("GEMINI_API_KEY", "q-primary");
                         ("GEMINI_API_KEY_2", "bad")] in
  let st := started w in
  let r := call_with_retry w sample_instance "prompt" default_max_retries st in
  (index_ok st
   /\ _all_keys_exhausted st = false
   /\ _all_keys_exhausted (snd r) = true)
  /\ fst r = Raise all_keys_exhausted_error
  /\ exists tr a key_name,
       trace (snd r) = (trace st ++ tr ++ [EvCall key_name a QuotaExhausted])%list
       /\ no_alternative st key_name.
Proof.
  intros w st r.
  assert (Hok : index_ok st) by (right; vm_compute; lia).
  assert (Hex : _all_keys_exhausted st = false) by (vm_compute; reflexivity).
  assert (Htrip : _all_keys_exhausted (snd r) = true) by (vm_compute; reflexivity).
  split; [by split_and!|].
  exact (breaker_trips_only_without_alternative w sample_instance "prompt"
           default_max_retries st Hok Hex Htrip).
Defined.

(** ** The breaker is never reset *)

Lemma init_keeps_breaker w st :
  _all_keys_exhausted (snd (__init__ w st)) = _all_keys_exhausted st.
Proof.
  rewrite init_state. destruct (is_nil (_api_keys_loaded st)); [|done].
  unfold _initialize_all_clients.
  match goal with |- context [fold_left _ ?l ?s] =>
    destruct (init_clients_fold w l s) as (_ & _ & He & _) end.
  by rewrite He.
Qed.

Lemma run_op_keeps_breaker w self o st :
  _all_keys_exhausted st = true ->
  _all_keys_exhausted (run_op w self o st) = true.
Proof.
  intros Hex. destruct o; simpl.
  - by rewrite init_keeps_breaker.
  - pose proof (rotate_spec st) as (_ & _ & He & _). by rewrite He.
  - done.
  - done.
  - by rewrite call_with_retry_tripped.
  - destruct (parse_intent_tripped w self user_input st Hex) as [_ Hr].
    apply rng_only_fields in Hr as (_ & He & _). by rewrite He.
Qed.

(** X10: Nothing resets the breaker: once it is tripped it stays tripped under
    every sequence of constructions, rotations, failure bookkeeping,
    dispatches and [parse_intent] calls. *)
Theorem tripped_breaker_is_never_reset w self ops st :
  _all_keys_exhausted st = true ->
  _all_keys_exhausted (run_ops w self ops st) = true.
Proof.
  revert st. induction ops as [|o ops IH]; intros st Hex; simpl; [done|].
  apply IH. by apply run_op_keeps_breaker.
Qed.

Lemma tripped_breaker_is_never_reset_witness :
  let w := sample_world [("GEMINI_API_KEY", "q-primary")] in
  let st := run_ops w sample_instance [OpInit; OpParse "an api"] class_initial in
  _all_keys_exhausted st = true
  /\ _all_keys_exhausted
       (run_ops w sample_instance
          [OpInit; OpRecordSuccess "PRIMARY"; OpRotate; OpCall "prompt" 3;
           OpParse "an api"] st) = true.
Proof.
  intros w st.
  assert (Hex : _all_keys_exhausted st = true) by (vm_compute; reflexivity).
  split; [exact Hex|].
  exact (tripped_breaker_is_never_reset w sample_instance
           [OpInit; OpRecordSuccess "PRIMARY"; OpRotate; OpCall "prompt" 3;
            OpParse "an api"] st Hex).
Defined.

(** ** Attempts on a slot without a client *)

(** X11: An attempt that finds the current slot without a client makes no
    remote call and still counts: it rotates and goes on with the next
    attempt number.  So a dispatch with [max_retries] 1 that starts on such
    a slot fails with "All retries failed" without any call, whatever the
    other slots are. *)
Theorem slot_without_client_uses_up_an_attempt w self prompt max_retries st :
  _all_keys_exhausted st = false ->
  _get_current_client st = None ->
  call_with_retry w self prompt (S max_retries) st
  = retry_loop w self prompt max_retries 1 None (snd (_rotate_to_next_key st))
  /\ fst (call_with_retry w self prompt 1 st) = Raise (Exception "All retries failed")
  /\ called_keys (trace (snd (call_with_retry w self prompt 1 st)))
     = called_keys (trace st).
Proof.
  intros Hex Hc. unfold call_with_retry. rewrite Hex. simpl. rewrite Hex, Hc.
  destruct (rotate_trace st) as (tr1 & Htr1 & Hc1 & _).
  destruct (_rotate_to_next_key st) as [rotated st2]; simpl in *.
  split_and!; try done.
  by rewrite Htr1, called_keys_app, Hc1, app_nil_r.
Qed.

Lemma slot_without_client_uses_up_an_attempt_witness :
  let w := sample_world [("GEMINI_API_KEY", "bad");
                         ("GEMINI_API_KEY_1", "k-backup")] in
  let st := started w in
  (_all_keys_exhausted st = false
   /\ _get_current_client st = None
   /\ clients_get st "BACKUP_1" = Some (Client "k-backup"))
  /\ fst (call_with_retry w sample_instance "prompt" 1 st)
     = Raise (Exception "All retries failed")
  /\ called_keys (trace (snd (call_with_retry w sample_instance "prompt" 1 st)))
     = called_keys (trace st).
Proof.
  intros w st.
  assert (Hex : _all_keys_exhausted st = false) by (vm_compute; reflexivity).
  assert (Hc : _get_current_client st = None) by (vm_compute; reflexivity).
  split; [split_and!; vm_compute; reflexivity|].
  destruct (slot_without_client_uses_up_an_attempt w sample_instance "prompt" 0 st
              Hex Hc) as (_ & H2 & H3).
  split; [exact H2 | exact H3].
Defined.

(** ** What validation accepts *)

Lemma in_strings_elem s l : in_strings s l = true <-> s ∈ l.
Proof.
  unfold in_strings. rewrite existsb_exists. split.
  - intros (x & Hx & Heq). apply String.eqb_eq in Heq. subst x.
    by apply list_elem_of_In.
  - intros H. exists s. split; [by apply list_elem_of_In | apply String.eqb_refl].
Qed.

Lemma check_required_dict fields d :
  check_required fields (VDict d)
  = match List.find (fun field => negb (is_some (dict_get d field))) fields with
    | Some field => Raise (ValueError ("Missing required field: " +:+ field))
    | None => Return tt
    end.
Proof.
  induction fields as [|f fields IH]; simpl; [done|].
  destruct (is_some (dict_get d f)); simpl; done.
Qed.

Lemma find_none_forall {A : Type} (p : A -> bool) l :
  List.find p l = None <-> Forall (fun x => p x = false) l.
Proof.
  induction l as [|x l IH]; simpl.
  - split; [constructor | done].
  - destruct (p x) eqn:E.
    + split; [done|]. intros H. inversion H; congruence.
    + rewrite IH. split; [by constructor | by inversion 1].
Qed.

Lemma validate_dict d :
  _validate_intent_structure (VDict d)
  = match first_missing d with
    | Some field => Raise (ValueError ("Missing required field: " +:+ field))
    | None =>
        match dict_get d "workload_type", dict_get d "parsing_confidence" with
        | Some workload, Some confidence =>
            if negb (match workload with
                     | VStr s => in_strings s valid_workloads
                     | _ => false
                     end)
            then Raise (ValueError "Invalid workload_type")
            else if negb (confidence_ok confidence)
                 then Raise (ValueError "Invalid parsing_confidence")
                 else Return tt
        | None, _ => Raise (Exn "KeyError" "workload_type")
        | Some workload, None =>
            if negb (match workload with
                     | VStr s => in_strings s valid_workloads
                     | _ => false
                     end)
            then Raise (ValueError "Invalid workload_type")
            else Raise (Exn "KeyError" "parsing_confidence")
        end
    end.
Proof.
  unfold _validate_intent_structure, first_missing.
  rewrite check_required_dict.
  destruct (List.find _ required_fields); simpl; [done|].
  destruct (dict_get d "workload_type"); simpl; [|done].
  destruct (dict_get d "parsing_confidence"); simpl; [done|].
  by destruct (negb _).
Qed.

Lemma first_missing_none d :
  first_missing d = None
  <-> Forall (fun field => is_some (dict_get d field) = true) required_fields.
Proof.
  unfold first_missing. rewrite find_none_forall.
  apply Forall_iff. intros f. by destruct (is_some _).
Qed.

Lemma validate_dict_error d e :
  _validate_intent_structure (VDict d) = Raise e -> exn_class e = "ValueError".
Proof.
  rewrite validate_dict.
  destruct (first_missing d) eqn:Hm; [by intros [= <-]|].
  apply first_missing_none in Hm.
  repeat (apply Forall_cons_1 in Hm as [? Hm]).
  destruct (dict_get d "workload_type"); [|done].
  destruct (dict_get d "parsing_confidence"); [|done].
  destruct (negb _); [by intros [= <-]|].
  destruct (negb _); [by intros [= <-] | done].
Qed.

(** X12: Validation accepts a value exactly when it is a well-formed intent;
    the nested objects [scale], [requirements] and [constraints] only have
    to be present. *)
Theorem validation_accepts_exactly_well_formed v :
  _validate_intent_structure v = Return tt <-> well_formed_intent v.
Proof.
  split.
  - intros Hv. destruct (validate_is_dict v Hv) as [d ->].
    rewrite validate_dict in Hv.
    destruct (first_missing d) eqn:Hm; [done|].
    apply first_missing_none in Hm.
    destruct (dict_get d "workload_type") as [workload|] eqn:Hw; [|done].
    destruct (dict_get d "parsing_confidence") as [confidence|] eqn:Hc.
    2:{ by destruct (negb _). }
    destruct workload as [| | | |s| | |]; cbn [negb] in Hv; try done.
    destruct (in_strings s valid_workloads) eqn:Hin; cbn [negb] in Hv; [|done].
    destruct (confidence_ok confidence) eqn:Hok; cbn [negb] in Hv; [|done].
    exists d, s, confidence. split_and!; try done. by apply in_strings_elem.
  - intros (d & workload & confidence & -> & Hreq & Hw & Hin & Hc & Hok).
    rewrite validate_dict.
    apply first_missing_none in Hreq. rewrite Hreq, Hw, Hc.
    apply in_strings_elem in Hin. by rewrite Hin, Hok.
Qed.

(** X13: On a dictionary, validation fails with a ValueError only, and when a
    required field is missing the error names the first missing one in the
    order workload_type, scale, requirements, constraints,
    parsing_confidence. *)
Theorem validation_reports_first_missing_field d :
  match _validate_intent_structure (VDict d) with
  | Return _ => first_missing d = None
  | Raise e =>
      exn_class e = "ValueError"
      /\ match first_missing d with
         | Some field => exn_str e = "Missing required field: " +:+ field
         | None => True
         end
  end.
Proof.
  rewrite validate_dict.
  destruct (first_missing d) eqn:Hm; [done|].
  apply first_missing_none in Hm.
  repeat (apply Forall_cons_1 in Hm as [? Hm]).
  destruct (dict_get d "workload_type"); [|done].
  destruct (dict_get d "parsing_confidence"); [|done].
  destruct (negb _); [done|]. by destruct (negb _).
Qed.

(** ** Substrings *)

Lemma append_assoc (a b c : string) : (a +:+ b) +:+ c = a +:+ (b +:+ c).
Proof.
  induction a as [|x a IH]; [done|].
  change (String x ((a +:+ b) +:+ c) = String x (a +:+ (b +:+ c))).
  by rewrite IH.
Qed.

Lemma prefixb_spec p s : prefixb p s = true <-> exists t, s = p +:+ t.
Proof.
  revert s. induction p as [|a p IH]; intros s; simpl.
  - split; [by exists s | done].
  - destruct s as [|b s].
    + split; [done | by intros [t Ht]].
    + rewrite andb_true_iff, IH. split.
      * intros [Hab [t ->]]. apply Ascii.eqb_eq in Hab. subst b. by exists t.
      * intros [t [= -> ->]]. split; [apply Ascii.eqb_refl | by exists t].
Qed.

Lemma str_in_spec sub s :
  str_in sub s = true <-> exists pre post, s = pre +:+ (sub +:+ post).
Proof.
  induction s as [|c s IH]; simpl.
  - rewrite orb_false_r, prefixb_spec. split.
    + intros [t Ht]. by exists EmptyString, t.
    + intros (pre & post & H). destruct pre; [by exists post | done].
  - rewrite orb_true_iff, prefixb_spec, IH. split.
    + intros [[t Ht]|(pre & post & ->)].
      * by exists EmptyString, t.
      * by exists (String c pre), post.
    + intros (pre & post & H). destruct pre as [|c' pre].
      * left. by exists post.
      * right. injection H as -> ->. by exists pre, post.
Qed.

(** A text that contains [b] contains every substring of [b]. *)
Lemma str_in_trans a b s :
  str_in a b = true -> str_in b s = true -> str_in a s = true.
Proof.
  rewrite !str_in_spec. intros (p1 & q1 & ->) (p2 & q2 & ->).
  exists (p2 +:+ p1), (q1 +:+ q2). by rewrite !append_assoc.
Qed.

(** ** The random choices of the fallback *)

Lemma random_randint_range w st a b :
  (a <= b)%Z ->
  exists z, random_randint w st a b = Return z /\ (a <= z <= b)%Z.
Proof.
  intros H. unfold random_randint.
  destruct (Z.ltb_spec b a); [lia|]. eexists. split; [reflexivity|].
  pose proof (Z.mod_pos_bound (Z.of_N (entropy w (rng st))) (b - a + 1)). lia.
Qed.

Lemma random_choice_elem {A : Type} w st (seq : list A) :
  seq <> [] -> exists x, random_choice w st seq = Return x /\ x ∈ seq.
Proof.
  intros Hne. unfold random_choice. destruct seq as [|a seq]; [done|].
  set (l := a :: seq).
  destruct (lookup_lt_is_Some_2 l
              (N.to_nat (entropy w (rng st) mod N.of_nat (length l)))) as [x Hx].
  - assert (entropy w (rng st) mod N.of_nat (length l) < N.of_nat (length l))%N
      by (apply N.mod_upper_bound; subst l; simpl; lia).
    lia.
  - rewrite Hx. exists x. split; [done|]. by eapply list_elem_of_lookup_2.
Qed.

Lemma estimate_rps_range w monthly_users st :
  exists z, estimate_rps w monthly_users st = (Return z, draw st)
            /\ ((rps_band monthly_users).1 <= z <= (rps_band monthly_users).2)%Z.
Proof.
  unfold estimate_rps, rps_band, m_randint.
  repeat case_match;
    match goal with
    | |- context [random_randint w st ?a ?b] =>
        destruct (random_randint_range w st a b) as (z & -> & Hz); [lia|]
    end; by exists z.
Qed.

Lemma detect_traffic_pattern_values w input_lower st :
  exists s st', detect_traffic_pattern w input_lower st = (Return s, st')
                /\ rng_only st st'
                /\ s ∈ ["steady"; "variable"; "bursty"].
Proof.
  unfold detect_traffic_pattern.
  repeat case_match;
    try (eexists _, st; split; [reflexivity|]; split; [apply rng_only_refl|];
         by apply (bool_decide_unpack _)).
  unfold m_choice.
  destruct (random_choice_elem w st ["steady"; "variable"; "bursty"])
    as (s & -> & Hs); [done|].
  exists s, (draw st). split_and!; [done | apply rng_only_draw | done].
Qed.

Lemma detect_monthly_users_default w user_input st :
  exists z st', detect_monthly_users w user_input st = (Return z, st')
                /\ rng_only st st'
                /\ (re_findall w numbers_pattern user_input = [] -> z = 10000%Z).
Proof.
  destruct (detect_monthly_users_total w user_input st) as (z & st' & H & Hr).
  exists z, st'. split_and!; [done | done |].
  intros Hnil. unfold detect_monthly_users in H. rewrite Hnil in H.
  by injection H.
Qed.

(** Rounding to two decimals keeps a value between two bounds given in
    hundredths. *)
Lemma round2_band (q : Qc) (a b : Z) :
  (qc a 100 <= q)%Qc -> (q <= qc b 100)%Qc ->
  (qc a 100 <= round2 q)%Qc /\ (round2 q <= qc b 100)%Qc.
Proof.
  intros Ha Hb.
  assert (Ha' : (a # 100 <= this q)%Q).
  { unfold Qcle in Ha. simpl in Ha. by rewrite Qred_correct in Ha. }
  assert (Hb' : (this q <= b # 100)%Q).
  { unfold Qcle in Hb. simpl in Hb. by rewrite Qred_correct in Hb. }
  unfold Qle in Ha', Hb'. simpl in Ha', Hb'.
  unfold round2, qc.
  destruct (this q) as [n d]. simpl in *.
  set (f := (n * 100 / Z.pos (d * 1))%Z).
  assert (Hmod : (n * 100 = Z.pos (d * 1) * f + (n * 100) mod Z.pos (d * 1))%Z)
    by (apply Z.div_mod; lia).
  assert (Hr : (0 <= (n * 100) mod Z.pos (d * 1) < Z.pos (d * 1))%Z)
    by (apply Z.mod_pos_bound; lia).
  assert (Hd : Z.pos (d * 1) = Z.pos d) by lia.
  assert (Hfa : (a <= f)%Z) by (apply Z.div_le_lower_bound; lia).
  assert (Hfb : (f <= b)%Z).
  { apply Z.lt_succ_r. apply Z.div_lt_upper_bound; lia. }
  set (m := match _ with Lt => f | Eq => _ | Gt => _ end).
  assert (Hm : (a <= m <= b)%Z).
  { subst m.
    destruct (Z.compare_spec (2 * (n * 100) - 2 * f * Z.pos (d * 1)) (Z.pos (d * 1)))
      as [He|Hl|Hg].
    - destruct (Z.even f); [lia|]. nia.
    - lia.
    - nia. }
  split; apply Q2Qc_le; unfold Qle; simpl; lia.
Qed.

(** ** The payload of the fallback responder *)

Lemma mock_confidence_range w user_input st :
  exists c, mock_confidence w user_input st = (Return c, draw st)
    /\ (qc (confidence_band (split_len user_input)).1 100 <= c)%Qc
    /\ (c <= qc (confidence_band (split_len user_input)).2 100)%Qc.
Proof.
  assert (Hband : forall a b : Z,
             (a <= b)%Z ->
             let u := random_uniform w st (qc a 100) (qc b 100) in
             (qc a 100 <= round2 u)%Qc /\ (round2 u <= qc b 100)%Qc).
  { intros a b Hab u.
    destruct (random_uniform_bounds w st (qc a 100) (qc b 100)) as [Hl Hu];
      [by apply qc_le|].
    by apply round2_band. }
  unfold mock_confidence, confidence_band, mbind, m_uniform, ret.
  repeat case_match; eexists; (split; [reflexivity|]); simpl.
  - replace (qc 6 10) with (qc 60 100) by (apply Qc_is_canon; reflexivity).
    apply Hband; lia.
  - apply Hband; lia.
  - apply Hband; lia.
Qed.

(** The payload of the fallback responder, field by field. *)
Lemma mock_parse_shape w user_input st :
  exists users rps traffic c st',
    _enhanced_mock_parse w user_input st
    = (Return (VDict
         [("workload_type",
           VStr (first_match workload_keywords (lower user_input) "api_backend"));
          ("scale", VDict [("monthly_users", VInt users);
                           ("estimated_rps", VInt rps);
                           ("traffic_pattern", VStr traffic)]);
          ("requirements",
           VDict [("latency", VStr (detect_latency (lower user_input)));
                  ("availability", VStr (detect_availability (lower user_input)));
                  ("geography", VStr (first_match regions (lower user_input) "global"));
                  ("compliance", VList (detect_compliance (lower user_input)))]);
          ("constraints",
           VDict [("budget_sensitivity",
                   VStr (detect_budget_sensitivity (lower user_input)));
                  ("team_experience", VStr (detect_team_experience (lower user_input)));
                  ("time_to_market", VStr (detect_time_to_market (lower user_input)))]);
          ("parsing_confidence", VFloat (Fin c));
          ("parsing_source", VStr "enhanced_mock");
          ("llm_model", VStr "mock_heuristic_v1");
          ("timestamp", VStr (utcnow_isoformat w (trace st')))]), st')
    /\ rng_only st st'
    /\ ((rps_band users).1 <= rps <= (rps_band users).2)%Z
    /\ (re_findall w numbers_pattern user_input = [] -> users = 10000%Z)
    /\ traffic ∈ ["steady"; "variable"; "bursty"]
    /\ (qc (confidence_band (split_len user_input)).1 100 <= c)%Qc
    /\ (c <= qc (confidence_band (split_len user_input)).2 100)%Qc.
Proof.
  unfold _enhanced_mock_parse, mbind.
  destruct (detect_monthly_users_default w user_input st)
    as (users & st1 & -> & R1 & Hdefault).
  destruct (estimate_rps_range w users st1) as (rps & -> & Hrps).
  destruct (detect_traffic_pattern_values w (lower user_input) (draw st1))
    as (traffic & st3 & -> & R3 & Htraffic).
  destruct (mock_confidence_range w user_input st3) as (c & -> & Hc0 & Hc1).
  exists users, rps, traffic, c, (draw st3).
  split; [reflexivity|].
  split; [eauto using rng_only_trans, rng_only_draw|].
  split; [exact Hrps|].
  by split_and!.
Qed.

Lemma first_match_among (values : list string) table input_lower dflt :
  dflt ∈ values -> Forall (fun entry => entry.1 ∈ values) table ->
  first_match table input_lower dflt ∈ values.
Proof. apply (first_match_elim (fun s => s ∈ values)). Qed.

Lemma detect_compliance_values input_lower :
  exists l : list string,
    detect_compliance input_lower = VStr <$> l
    /\ l `sublist_of` ["gdpr"; "hipaa"; "pci"].
Proof.
  unfold detect_compliance.
  destruct (any_in ["gdpr"; "europe"] input_lower),
           (any_in ["hipaa"; "health"] input_lower),
           (any_in ["pci"; "payment"] input_lower); simpl;
    [exists ["gdpr"; "hipaa"; "pci"] | exists ["gdpr"; "hipaa"]
    | exists ["gdpr"; "pci"] | exists ["gdpr"]
    | exists ["hipaa"; "pci"] | exists ["hipaa"]
    | exists ["pci"] | exists []];
    (split; [done|]);
    repeat first [apply sublist_skip | apply sublist_cons | apply sublist_nil].
Qed.

(** X14: Every payload of the fallback responder has the same shape, with the
    enumerated fields taken from fixed lists: it never reports the workload
    [batch_processing], the traffic pattern [seasonal], the latency [high],
    the availability [medium] or [low], a budget sensitivity below
    [medium], the experience [beginner] or [expert], or the time to market
    [flexible], all of which the prompt allows the remote model. *)
Theorem fallback_payload_schema w user_input st :
  exists d,
    fst (_enhanced_mock_parse w user_input st) = Return (VDict d)
    /\ d.*1 = ["workload_type"; "scale"; "requirements"; "constraints";
               "parsing_confidence"; "parsing_source"; "llm_model"; "timestamp"]
    /\ field_in (VDict d) ["workload_type"]
         ["api_backend"; "web_app"; "data_processing"; "ml_inference";
          "realtime_streaming"; "mobile_backend"; "gaming_server"]
    /\ (exists users, py_path (VDict d) ["scale"; "monthly_users"] = Some (VInt users))
    /\ (exists rps, py_path (VDict d) ["scale"; "estimated_rps"] = Some (VInt rps)
                    /\ (1 <= rps <= 1000)%Z)
    /\ field_in (VDict d) ["scale"; "traffic_pattern"]
         ["steady"; "variable"; "bursty"]
    /\ field_in (VDict d) ["requirements"; "latency"] ["low"; "ultra_low"; "medium"]
    /\ field_in (VDict d) ["requirements"; "availability"] ["critical"; "high"]
    /\ field_in (VDict d) ["requirements"; "geography"]
         ["india"; "us-east"; "us-west"; "europe"; "asia"; "australia"; "global"]
    /\ (exists l : list string,
          py_path (VDict d) ["requirements"; "compliance"] = Some (VList (VStr <$> l))
          /\ l `sublist_of` ["gdpr"; "hipaa"; "pci"])
    /\ field_in (VDict d) ["constraints"; "budget_sensitivity"] ["high"; "medium"]
    /\ field_in (VDict d) ["constraints"; "team_experience"]
         ["junior"; "senior"; "intermediate"]
    /\ field_in (VDict d) ["constraints"; "time_to_market"]
         ["immediate"; "1_week"; "1_month"]
    /\ field_in (VDict d) ["parsing_source"] ["enhanced_mock"]
    /\ field_in (VDict d) ["llm_model"] ["mock_heuristic_v1"].
Proof.
  destruct (mock_parse_shape w user_input st)
    as (users & rps & traffic & c & st' & -> & _ & Hrps & _ & Htraffic & _).
  eexists. split; [reflexivity|].
  split; [reflexivity|].
  split_and!.
  - eexists. split; [reflexivity|]. apply first_match_among.
    + by apply (bool_decide_unpack _).
    + unfold workload_keywords. repeat constructor; by apply (bool_decide_unpack _).
  - by eexists.
  - exists rps. split; [reflexivity|].
    unfold rps_band in Hrps. repeat case_match; simpl in Hrps; lia.
  - by eexists.
  - eexists. split; [reflexivity|]. unfold detect_latency.
    repeat case_match; by apply (bool_decide_unpack _).
  - eexists. split; [reflexivity|]. unfold detect_availability.
    repeat case_match; by apply (bool_decide_unpack _).
  - eexists. split; [reflexivity|]. apply first_match_among.
    + by apply (bool_decide_unpack _).
    + unfold regions. repeat constructor; by apply (bool_decide_unpack _).
  - destruct (detect_compliance_values (lower user_input)) as (l & Hl & Hsub).
    exists l. split; [|done]. cbn. by rewrite Hl.
  - eexists. split; [reflexivity|]. unfold detect_budget_sensitivity.
    repeat case_match; by apply (bool_decide_unpack _).
  - eexists. split; [reflexivity|]. unfold detect_team_experience.
    repeat case_match; by apply (bool_decide_unpack _).
  - eexists. split; [reflexivity|]. unfold detect_time_to_market.
    repeat case_match; by apply (bool_decide_unpack _).
  - eexists. split; [reflexivity|]. by apply (bool_decide_unpack _).
  - eexists. split; [reflexivity|]. by apply (bool_decide_unpack _).
Qed.

(** X15: In a fallback payload the estimated requests per second lie in the
    range that belongs to the number of monthly users: 1 to 10 below 1000
    users, 10 to 50 below 10000, 50 to 200 below 100000, 200 to 1000 from
    there on; and an input in which the number pattern finds nothing is
    taken to have 10000 users. *)
Theorem fallback_rps_follows_users w user_input st :
  exists d users rps,
    fst (_enhanced_mock_parse w user_input st) = Return (VDict d)
    /\ py_path (VDict d) ["scale"; "monthly_users"] = Some (VInt users)
    /\ py_path (VDict d) ["scale"; "estimated_rps"] = Some (VInt rps)
    /\ ((rps_band users).1 <= rps <= (rps_band users).2)%Z
    /\ (re_findall w numbers_pattern user_input = [] ->
        users = 10000%Z /\ (50 <= rps <= 200)%Z).
Proof.
  destruct (mock_parse_shape w user_input st)
    as (users & rps & traffic & c & st' & -> & _ & Hrps & Hdefault & _).
  eexists _, users, rps.
  split; [reflexivity|]. split; [reflexivity|]. split; [reflexivity|].
  split; [exact Hrps|].
  intros Hnil. specialize (Hdefault Hnil). subst users. split; [done|].
  exact Hrps.
Qed.

(** X16: The confidence of a fallback payload depends on the number of words
    of the input alone, a word being a run of characters between white
    space as [str.split] sees it, Unicode blanks included: between 0.60
    and 0.75 under ten words, between 0.75 and 0.85 under thirty, between
    0.85 and 0.95 from there on. *)
Theorem fallback_confidence_follows_length w user_input st :
  exists d c,
    fst (_enhanced_mock_parse w user_input st) = Return (VDict d)
    /\ py_path (VDict d) ["parsing_confidence"] = Some (VFloat (Fin c))
    /\ (qc (confidence_band (split_len user_input)).1 100 <= c)%Qc
    /\ (c <= qc (confidence_band (split_len user_input)).2 100)%Qc
    /\ (qc 60 100 <= c)%Qc /\ (c <= qc 95 100)%Qc.
Proof.
  destruct (mock_parse_shape w user_input st)
    as (users & rps & traffic & c & st' & -> & _ & _ & _ & _ & Hc0 & Hc1).
  eexists _, c.
  split; [reflexivity|]. split; [reflexivity|].
  split; [exact Hc0|]. split; [exact Hc1|]. split.
  - eapply Qcle_trans; [|exact Hc0]. apply qc_le.
    unfold confidence_band. repeat case_match; simpl; lia.
  - eapply Qcle_trans; [exact Hc1|]. apply qc_le.
    unfold confidence_band. repeat case_match; simpl; lia.
Qed.

(** X17: Keywords that can never decide: an input that mentions a websocket is
    classified [api_backend] or [web_app], never [realtime_streaming] on
    that account, because it contains "web"; one that says "app backend"
    is classified [api_backend], because it contains "backend"; and one
    that asks for "ultra low latency" is given the latency [low], because
    it contains "low latency". *)
Theorem earlier_keywords_shadow_later_ones w user_input st :
  exists d,
    fst (_enhanced_mock_parse w user_input st) = Return (VDict d)
    /\ (str_in "websocket" (lower user_input) = true ->
        field_in (VDict d) ["workload_type"] ["api_backend"; "web_app"])
    /\ (str_in "app backend" (lower user_input) = true ->
        field_in (VDict d) ["workload_type"] ["api_backend"])
    /\ (str_in "ultra low latency" (lower user_input) = true ->
        field_in (VDict d) ["requirements"; "latency"] ["low"]).
Proof.
  destruct (mock_parse_shape w user_input st)
    as (users & rps & traffic & c & st' & -> & _).
  eexists. split; [reflexivity|]. split_and!.
  - intros H. eexists. split; [reflexivity|].
    assert (Hweb : str_in "web" (lower user_input) = true)
      by (by apply (str_in_trans _ "websocket")).
    unfold workload_keywords. cbn [first_match].
    destruct (any_in _ (lower user_input)); [by left|].
    assert (Hany : any_in ["web"; "website"; "frontend"; "app"; "portal"; "dashboard"]
                     (lower user_input) = true).
    { unfold any_in. cbn [existsb]. by rewrite Hweb. }
    rewrite Hany. right. by left.
  - intros H. eexists. split; [reflexivity|].
    assert (Hb : str_in "backend" (lower user_input) = true)
      by (by apply (str_in_trans _ "app backend")).
    unfold workload_keywords. cbn [first_match].
    assert (Hany : any_in ["api"; "rest"; "endpoint"; "backend"; "service";
                           "microservice"] (lower user_input) = true).
    { unfold any_in. cbn [existsb]. rewrite Hb. by rewrite !orb_true_r. }
    rewrite Hany. by left.
  - intros H. eexists. split; [reflexivity|].
    assert (Hl : str_in "low latency" (lower user_input) = true)
      by (by apply (str_in_trans _ "ultra low latency")).
    unfold detect_latency. rewrite Hl. by left.
Qed.

Lemma earlier_keywords_shadow_later_ones_witness :
  let w := sample_world [] in
  let user_input := "A WebSocket app backend with ultra low latency" in
  (str_in "websocket" (lower user_input) = true
   /\ str_in "app backend" (lower user_input) = true
   /\ str_in "ultra low latency" (lower user_input) = true)
  /\ exists d,
       fst (_enhanced_mock_parse w user_input class_initial) = Return (VDict d)
       /\ field_in (VDict d) ["workload_type"] ["api_backend"]
       /\ field_in (VDict d) ["requirements"; "latency"] ["low"].
Proof.
  intros w user_input.
  assert (H1 : str_in "websocket" (lower user_input) = true) by (vm_compute; reflexivity).
  assert (H2 : str_in "app backend" (lower user_input) = true) by (vm_compute; reflexivity).
  assert (H3 : str_in "ultra low latency" (lower user_input) = true)
    by (vm_compute; reflexivity).
  split; [by split_and!|].
  destruct (earlier_keywords_shadow_later_ones w user_input class_initial)
    as (d & Hd & _ & Happ & Hlat).
  exists d. split_and!; [exact Hd | exact (Happ H2) | exact (Hlat H3)].
Defined.

(** ** The remote path and the result of [parse_intent] *)

Lemma extract_json_candidates w text :
  _extract_json_from_response w text
  = match json_candidate w "(\{.*\})" text with
    | Some json_str => Some json_str
    | None => json_candidate w "(\[.*\])" text
    end.
Proof.
  unfold _extract_json_from_response, json_candidate, without_fences, json_patterns.
  cbn [search_json].
  destruct (re_search w "(\{.*\})" _) as [obj|].
  - destruct (json_loads w obj); cbn [is_some]; [done|].
    destruct (re_search w "(\[.*\])" _) as [arr|]; [|done].
    by destruct (json_loads w arr).
  - destruct (re_search w "(\[.*\])" _) as [arr|]; [|done].
    by destruct (json_loads w arr).
Qed.

Lemma json_candidate_loads w pattern text json_str :
  json_candidate w pattern text = Some json_str ->
  is_some (json_loads w json_str) = true.
Proof.
  unfold json_candidate. destruct (re_search w pattern _) as [s|]; [|done].
  destruct (is_some (json_loads w s)) eqn:E; [|done]. by intros [= <-].
Qed.

Lemma extract_json_loads w text json_str :
  _extract_json_from_response w text = Some json_str ->
  is_some (json_loads w json_str) = true.
Proof.
  rewrite extract_json_candidates.
  destruct (json_candidate w "(\{.*\})" text) as [obj|] eqn:E.
  - intros [= <-]. by eapply json_candidate_loads.
  - intros H. by eapply json_candidate_loads.
Qed.

(** X18: What [_extract_json_from_response] returns has been accepted by
    [json.loads]; an object found in the text is preferred to an array;
    and nothing is returned exactly when neither is found or accepted. *)
Theorem extracted_json_is_loadable w text :
  (forall json_str,
     _extract_json_from_response w text = Some json_str ->
     is_some (json_loads w json_str) = true)
  /\ (forall obj,
        json_candidate w "(\{.*\})" text = Some obj ->
        _extract_json_from_response w text = Some obj)
  /\ (_extract_json_from_response w text = None
      <-> json_candidate w "(\{.*\})" text = None
          /\ json_candidate w "(\[.*\])" text = None).
Proof.
  split_and!.
  - intros json_str. apply extract_json_loads.
  - intros obj H. by rewrite extract_json_candidates, H.
  - rewrite extract_json_candidates.
    destruct (json_candidate w "(\{.*\})" text); split; try done.
    + by intros [? _].
    + by intros [_ ?].
Qed.

(** ** Errors of validation *)

Lemma check_required_error fields v e :
  check_required fields v = Raise e ->
  exn_class e = "ValueError" \/ exn_class e = "TypeError".
Proof.
  induction fields as [|f fields IH]; simpl; [done|].
  destruct (py_contains v f) as [present|e0] eqn:Hc; simpl.
  - destruct present; simpl; [exact IH|]. intros [= <-]. by left.
  - intros [= <-]. right.
    unfold py_contains in Hc. destruct v; try done; by injection Hc as <-.
Qed.

Lemma validate_error v e :
  _validate_intent_structure v = Raise e ->
  exn_class e = "ValueError" \/ exn_class e = "TypeError".
Proof.
  destruct v as [| | | | |l|d|];
    try (unfold _validate_intent_structure, bind;
         match goal with
         | |- context [check_required required_fields ?v] =>
             destruct (check_required required_fields v) as [[]|e0] eqn:Hc
         end;
         [simpl; intros [= <-]; by right
         | intros [= <-]; by eapply check_required_error]).
  intros He. left. by eapply validate_dict_error.
Qed.

Lemma not_json_error e :
  exn_class e = "ValueError" \/ exn_class e = "TypeError" ->
  is_JSONDecodeError e = false.
Proof. unfold is_JSONDecodeError. by intros [->| ->]. Qed.

Lemma validate_set d k v :
  k ∉ required_fields ->
  _validate_intent_structure (VDict (dict_set d k v))
  = _validate_intent_structure (VDict d).
Proof.
  intros Hk. apply validate_ext. apply Forall_forall. intros f Hf.
  apply dict_get_set_ne. intros ->. apply Hk. by apply list_elem_of_In.
Qed.

(** The remote path, by the outcome of the dispatch. *)
Lemma parse_with_gemini_cases w self user_input st :
  let r0 := call_with_retry w self (_create_intent_parsing_prompt user_input)
              default_max_retries st in
  match fst r0 with
  | Return resp =>
      (exists d0,
         _validate_intent_structure (VDict d0) = Return tt
         /\ _parse_with_gemini w self user_input st
            = (Return (VDict
                 (dict_set
                    (dict_set (dict_set d0 "parsing_source" (VStr "gemini_api"))
                       "llm_model" (VStr (model_name self)))
                    "active_key" (VStr (_get_current_key_name (snd r0))))),
               snd r0))
      \/ (exists e,
            _parse_with_gemini w self user_input st = (Raise e, snd r0)
            /\ (exn_class e = "ValueError" \/ exn_class e = "TypeError"))
  | Raise e =>
      _parse_with_gemini w self user_input st
      = if is_JSONDecodeError e
        then _enhanced_mock_parse w user_input (snd r0)
        else (Raise e, snd r0)
  end.
Proof.
  unfold _parse_with_gemini, try_except, mbind.
  destruct (call_with_retry w self (_create_intent_parsing_prompt user_input)
              default_max_retries st) as [[resp|e] st1]; cbn [fst snd].
  2:{ by destruct (is_JSONDecodeError e). }
  destruct (response_truthy resp); cbn [negb].
  2:{ right. eexists. split; [reflexivity | by left]. }
  destruct (is_empty (extract_response_text resp)).
  { right. eexists. split; [reflexivity | by left]. }
  destruct (_extract_json_from_response w (extract_response_text resp))
    as [json_text|] eqn:Hx.
  2:{ right. eexists. split; [reflexivity | by left]. }
  destruct (is_empty json_text).
  { right. eexists. split; [reflexivity | by left]. }
  apply extract_json_loads in Hx.
  destruct (json_loads w json_text) as [result|]; [|done].
  unfold lift.
  destruct (_validate_intent_structure result) as [[]|e] eqn:Hv.
  - destruct (validate_is_dict _ Hv) as [d0 ->]. left. exists d0. by split.
  - right. exists e. pose proof (validate_error _ _ Hv) as Hclass.
    rewrite (not_json_error e Hclass). by split.
Qed.

(** X19: Once the dispatch has returned a response, the remote path never
    answers with the fallback and draws no random number: it returns the
    validated payload of the response, tagged [gemini_api] with the model
    and the current key, or it raises a ValueError or a TypeError.  So its
    [except json.JSONDecodeError] branch is reached only by an exception of
    that class coming out of the dispatch. *)
Theorem answered_call_is_never_replaced_by_fallback w self user_input st resp :
  let r0 := call_with_retry w self (_create_intent_parsing_prompt user_input)
              default_max_retries st in
  fst r0 = Return resp ->
  snd (_parse_with_gemini w self user_input st) = snd r0
  /\ match fst (_parse_with_gemini w self user_input st) with
     | Return v =>
         exists d, v = VDict d
           /\ _validate_intent_structure (VDict d) = Return tt
           /\ tagged d "gemini_api" (model_name self) (_get_current_key_name (snd r0))
     | Raise e => exn_class e = "ValueError" \/ exn_class e = "TypeError"
     end.
Proof.
  intros r0 Hret. pose proof (parse_with_gemini_cases w self user_input st) as H.
  cbv zeta in H. fold r0 in H. rewrite Hret in H.
  destruct H as [(d0 & Hv & ->)|(e & -> & Hclass)]; cbn [fst snd]; [|done].
  split; [done|]. eexists. split; [reflexivity|]. split.
  - rewrite !validate_set by (by apply (bool_decide_unpack _)). exact Hv.
  - unfold tagged. split_and!.
    + rewrite !dict_get_set_ne by done. apply dict_get_set_eq.
    + rewrite dict_get_set_ne by done. apply dict_get_set_eq.
    + apply dict_get_set_eq.
Qed.

Lemma mock_parse_tagged w user_input st :
  exists d st',
    _enhanced_mock_parse w user_input st = (Return (VDict d), st')
    /\ _validate_intent_structure (VDict d) = Return tt
    /\ dict_get d "parsing_source" = Some (VStr "enhanced_mock")
    /\ dict_get d "llm_model" = Some (VStr "mock_heuristic_v1").
Proof.
  destruct (mock_parse_spec w user_input st) as (d & st' & Hd & _ & [Hv _] & Hs & _).
  destruct (mock_parse_shape w user_input st)
    as (users & rps & traffic & c & st'' & Hshape & _).
  rewrite Hshape in Hd. injection Hd as <- <-.
  eexists _, _. split; [exact Hshape|]. split_and!; [exact Hv | done | done].
Qed.

(** The two ways [parse_intent] makes its result: from the validated
    payload of the remote answer, or from a payload of the fallback
    responder; either is then stamped with the time and the key. *)
Lemma parse_intent_cases w self user_input st :
  let r := parse_intent w self user_input st in
  (exists d0,
     _validate_intent_structure (VDict d0) = Return tt
     /\ fst r
        = Return (VDict
            (dict_set
               (dict_set
                  (dict_set
                     (dict_set (dict_set d0 "parsing_source" (VStr "gemini_api"))
                        "llm_model" (VStr (model_name self)))
                     "active_key" (VStr (_get_current_key_name (snd r))))
                  "processing_time_ms"
                  (VInt (elapsed_ms w (time_time w (trace st)) (snd r))))
               "active_key" (VStr (_get_current_key_name (snd r))))))
  \/ (exists st1 dm key,
        _enhanced_mock_parse w user_input st1 = (Return (VDict dm), snd r)
        /\ (key = "MOCK_FALLBACK" \/ key = _get_current_key_name (snd r))
        /\ fst r
           = Return (VDict
               (dict_set
                  (dict_set dm "processing_time_ms"
                     (VInt (elapsed_ms w (time_time w (trace st)) (snd r))))
                  "active_key" (VStr key)))).
Proof.
  pose proof (parse_with_gemini_cases w self user_input st) as H. cbv zeta in H.
  unfold parse_intent, try_except, mbind.
  set (start_time := time_time w (trace st)).
  destruct (call_with_retry w self (_create_intent_parsing_prompt user_input)
              default_max_retries st) as [[resp|e] st1]; cbn [fst snd] in H.
  - destruct H as [(d0 & Hv & ->)|(e & -> & _)].
    + left. exists d0. rewrite stamp_dict. by split.
    + right. destruct (mock_parse_tagged w user_input st1) as (d & st' & Hm & _).
      rewrite Hm, stamp_dict. exists st1, d, "MOCK_FALLBACK". cbn [fst snd].
      split_and!; [done | by left | done].
  - rewrite H. destruct (is_JSONDecodeError e).
    + right. destruct (mock_parse_tagged w user_input st1) as (d & st' & Hm & _).
      rewrite Hm, stamp_dict. exists st1, d, (_get_current_key_name st').
      cbn [fst snd]. split_and!; [done | by right | done].
    + right. destruct (mock_parse_tagged w user_input st1) as (d & st' & Hm & _).
      rewrite Hm, stamp_dict. exists st1, d, "MOCK_FALLBACK". cbn [fst snd].
      split_and!; [done | by left | done].
Qed.

(** X20: Whatever path produced it, the result of [parse_intent] passes
    [_validate_intent_structure], carries the processing time, and names
    its origin: the remote payload tagged [gemini_api] with the model and
    the current key, or the fallback payload tagged [enhanced_mock], under
    the key name MOCK_FALLBACK or, when the fallback was taken inside the
    remote path, under the name of the current key. *)
Theorem parse_intent_result_is_validated_and_tagged w self user_input st :
  let r := parse_intent w self user_input st in
  exists d ms,
    fst r = Return (VDict d)
    /\ _validate_intent_structure (VDict d) = Return tt
    /\ dict_get d "processing_time_ms" = Some (VInt ms)
    /\ (tagged d "gemini_api" (model_name self) (_get_current_key_name (snd r))
        \/ (exists key, tagged d "enhanced_mock" "mock_heuristic_v1" key
              /\ (key = "MOCK_FALLBACK" \/ key = _get_current_key_name (snd r)))).
Proof.
  intros r.
  destruct (parse_intent_cases w self user_input st)
    as [(d0 & Hv & Hr)|(st1 & dm & key & Hm & Hkey & Hr)]; fold r in Hr |- *.
  - eexists _, _. split; [exact Hr|]. split_and!.
    + rewrite !validate_set by (by apply (bool_decide_unpack _)). exact Hv.
    + rewrite dict_get_set_ne by done. apply dict_get_set_eq.
    + left. unfold tagged. split_and!.
      * rewrite !dict_get_set_ne by done. apply dict_get_set_eq.
      * rewrite !dict_get_set_ne by done. apply dict_get_set_eq.
      * apply dict_get_set_eq.
  - destruct (mock_parse_tagged w user_input st1) as (d & st' & Hm' & Hv & Hs & Hl).
    rewrite Hm in Hm'. injection Hm' as <- _.
    eexists _, _. split; [exact Hr|]. split_and!.
    + rewrite !validate_set by (by apply (bool_decide_unpack _)). exact Hv.
    + rewrite dict_get_set_ne by done. apply dict_get_set_eq.
    + right. exists key. split; [|exact Hkey]. unfold tagged. split_and!.
      * by rewrite !dict_get_set_ne.
      * by rewrite !dict_get_set_ne.
      * apply dict_get_set_eq.
Qed.

(** ** The status report *)

Lemma get_status_keys self st :
  dict_get
    (match get_status self st with VDict d => d | _ => [] end) "keys"
  = Some (VDict ((fun name => (name, key_status_of st name)) <$> pool_names st)).
Proof.
  unfold get_status, pool_names. cbn [dict_get String.eqb Ascii.eqb Bool.eqb].
  simpl. do 2 f_equal.
  induction (_api_keys_loaded st) as [|[name key] l IH]; [done|].
  rewrite !fmap_cons. f_equal. exact IH.
Qed.

Lemma run_op_pool_loaded w self o st :
  pool_loaded_from w st -> pool_loaded_from w (run_op w self o st).
Proof.
  intros Hp. destruct o; simpl.
  - rewrite init_state.
    destruct (_api_keys_loaded st) as [|entry keys] eqn:Hkeys; simpl.
    + unfold _initialize_all_clients.
      match goal with |- pool_loaded_from w (fold_left _ ?l ?s) =>
        destruct (init_clients_fold w l s) as (Hk & _) end.
      right. by rewrite Hk.
    + exact Hp.
  - pose proof (rotate_spec st) as ([Hk _] & _). unfold pool_loaded_from.
    by rewrite Hk.
  - done.
  - done.
  - destruct (call_with_retry_pool w self prompt max_retries st) as [[Hk _] _].
    unfold pool_loaded_from. by rewrite Hk.
  - destruct (parse_intent_pool w self user_input st) as [[Hk _] _].
    unfold pool_loaded_from. by rewrite Hk.
Qed.

Lemma run_ops_pool_loaded w self ops :
  forall st, pool_loaded_from w st -> pool_loaded_from w (run_ops w self ops st).
Proof.
  induction ops as [|o ops IH]; intros st Hp; simpl; [done|].
  apply IH. by apply run_op_pool_loaded.
Qed.

Lemma pool_loaded_NoDup w st : pool_loaded_from w st -> NoDup (pool_names st).
Proof.
  unfold pool_names. intros [->| ->]; [constructor|].
  destruct (load_api_keys_names w) as [_ Hnd]. exact Hnd.
Qed.

Lemma flagged_one (names : list string) (f : string -> pyval) cur :
  NoDup names ->
  (forall name, py_path (f name) ["is_current"] = Some (VBool (String.eqb name cur))) ->
  flagged_current ((fun name => (name, f name)) <$> names)
  = if bool_decide (cur ∈ names) then [cur] else [].
Proof.
  intros Hnd Hf. unfold flagged_current.
  induction names as [|n names IH]; [done|].
  inversion_clear Hnd as [|? ? Hnot Hnd'].
  rewrite fmap_cons. cbn [omap list_omap fst snd]. rewrite Hf.
  change (list_omap ?g ?l) with (omap g l). rewrite (IH Hnd').
  destruct (String.eqb_spec n cur) as [->|Hne].
  - rewrite (bool_decide_eq_false_2 _ Hnot), bool_decide_eq_true_2; [done | by left].
  - destruct (decide (cur ∈ names)) as [Hin|Hin].
    + rewrite !bool_decide_eq_true_2; [done | by right | done].
    + rewrite !bool_decide_eq_false_2; [done | | done].
      intros [->|H]%elem_of_cons; done.
Qed.

Lemma current_in_pool st :
  index_ok st ->
  bool_decide (_get_current_key_name st ∈ pool_names st)
  = negb (is_nil (pool_names st)).
Proof.
  intros [[Hnil Hz]|Hlt].
  - unfold pool_names. rewrite Hnil. reflexivity.
  - pose proof (pool_names_lookup st _ Hlt) as Hl.
    rewrite bool_decide_eq_true_2 by (by eapply list_elem_of_lookup_2).
    by destruct (pool_names st).
Qed.

(** X21: In every state the client can get into, [get_status] reports its seven
    fields, one entry per slot of the pool in pool order, and flags exactly
    one entry as current, the one of the current key; with an empty pool it
    flags none and names the key UNKNOWN.  The report has no field
    [api_key_configured]. *)
Theorem status_flags_exactly_the_current_slot w self ops :
  let st := run_ops w self ops class_initial in
  exists d keys,
    get_status self st = VDict d
    /\ d.*1 = ["current_key"; "total_keys"; "keys"; "model_name"; "mock_mode";
               "max_tokens"; "temperature"]
    /\ dict_get d "api_key_configured" = None
    /\ dict_get d "current_key" = Some (VStr (_get_current_key_name st))
    /\ dict_get d "total_keys" = Some (VInt (Z.of_nat (length (pool_names st))))
    /\ dict_get d "keys" = Some (VDict keys)
    /\ keys = (fun name => (name, key_status_of st name)) <$> pool_names st
    /\ flagged_current keys
       = if is_nil (pool_names st) then [] else [_get_current_key_name st].
Proof.
  intros st.
  assert (Hok : index_ok st).
  { apply (run_ops_invariant w self ops class_initial). by left. }
  assert (Hnd : NoDup (pool_names st)).
  { apply (pool_loaded_NoDup w), run_ops_pool_loaded. by left. }
  pose proof (get_status_keys self st) as Hkeys.
  unfold get_status in *. eexists _, _. split; [reflexivity|].
  split_and!; [reflexivity | reflexivity | reflexivity | | exact Hkeys | reflexivity |].
  - cbn [dict_get String.eqb Ascii.eqb Bool.eqb]. unfold pool_names.
    by rewrite length_fmap.
  - rewrite (flagged_one _ (key_status_of st) (_get_current_key_name st) Hnd)
      by done.
    rewrite (current_in_pool st Hok). by destruct (is_nil _).
Qed.

(** X22: Right after construction the report tells, slot by slot, whether the
    SDK accepted the key ([initialized]), shows no failures, and has the
    first loaded slot as the current one. *)
Theorem status_after_construction w self name key :
  (name, key) ∈ _load_api_keys w ->
  key_status_of (started w) name
  = VDict [("initialized", VBool (is_some (genai_Client w key)));
           ("failures", VInt 0);
           ("is_current", VBool (bool_decide (head (_load_api_keys w).*1 = Some name)))]
  /\ exists d keys,
       get_status self (started w) = VDict d
       /\ dict_get d "keys" = Some (VDict keys)
       /\ dict_get keys name = Some (key_status_of (started w) name).
Proof.
  intros Hel.
  destruct (started_slots w) as (Hk & Hi & _ & _ & Hin & _).
  destruct (Hin name key Hel) as [Hc Hf].
  split.
  - unfold key_status_of, clients_get, failures_of. rewrite Hc, Hf. simpl.
    do 4 f_equal.
    unfold _get_current_key_name, _get_key_name_at. rewrite Hk, Hi.
    destruct (_load_api_keys w) as [|[n k] l]; simpl.
    + by apply elem_of_nil in Hel.
    + destruct (String.eqb_spec name n) as [->|Hne].
      * by rewrite bool_decide_eq_true_2.
      * rewrite bool_decide_eq_false_2; [done|]. by intros [= ->].
  - pose proof (get_status_keys self (started w)) as Hkeys.
    unfold get_status in *. eexists _, _. split; [reflexivity|].
    split; [exact Hkeys|].
    assert (Hname : name ∈ pool_names (started w)).
    { unfold pool_names. rewrite Hk. apply list_elem_of_fmap. by exists (name, key). }
    clear -Hname. induction (pool_names (started w)) as [|n l IH].
    + by apply elem_of_nil in Hname.
    + rewrite fmap_cons. cbn [dict_get].
      destruct (String.eqb_spec n name) as [->|Hne]; [done|].
      apply IH. apply elem_of_cons in Hname as [->|H]; done.
Qed.

Lemma status_after_construction_witness :
  let w := sample_world [("GEMINI_API_KEY", "k-primary");
                         ("GEMINI_API_KEY_2", "bad")] in
  ("BACKUP_2", "bad") ∈ _load_api_keys w
  /\ key_status_of (started w) "BACKUP_2"
     = VDict [("initialized", VBool false); ("failures", VInt 0);
              ("is_current", VBool false)].
Proof.
  intros w.
  assert (Hel : ("BACKUP_2", "bad") ∈ _load_api_keys w).
  { change (_load_api_keys w) with [("PRIMARY", "k-primary"); ("BACKUP_2", "bad")].
    right. left. }
  split; [exact Hel|].
  destruct (status_after_construction w sample_instance "BACKUP_2" "bad" Hel)
    as [-> _].
  reflexivity.
Defined.

Lemma validate_well_formed v :
  _validate_intent_structure v = Return tt ->
  exists d workload,
    v = VDict d /\ dict_get d "workload_type" = Some (VStr workload)
    /\ workload ∈ valid_workloads.
Proof.
  intros Hv. destruct (validate_is_dict v Hv) as [d ->].
  rewrite validate_dict in Hv.
  destruct (first_missing d); [done|].
  destruct (dict_get d "workload_type") as [workload|] eqn:Hw; [|done].
  destruct (dict_get d "parsing_confidence").
  2:{ by destruct (negb _). }
  destruct workload as [| | | |s| | |]; cbn [negb] in Hv; try done.
  destruct (in_strings s valid_workloads) eqn:Hin; cbn [negb] in Hv; [|done].
  exists d, s. split_and!; [done | done |]. by apply in_strings_elem.
Qed.

Lemma categorize_valid workload :
  workload ∈ valid_workloads ->
  exists category,
    _categorize_workload (VStr workload) = Return category
    /\ category ∈ ["compute_intensive"; "data_intensive"; "ai_ml"; "realtime"].
Proof.
  unfold valid_workloads. intros H.
  repeat (apply elem_of_cons in H as [->|H]);
    try (eexists; split; [reflexivity | by apply (bool_decide_unpack _)]).
  by apply elem_of_nil in H.
Qed.

(** X23: The workload type of every result of [parse_intent] has a category of
    its own: phase 1's catch-all category "general" is never the answer for
    it, and the lookup never raises. *)
Theorem parsed_workload_is_never_general w self user_input st :
  exists d workload category,
    fst (parse_intent w self user_input st) = Return (VDict d)
    /\ dict_get d "workload_type" = Some workload
    /\ _categorize_workload workload = Return category
    /\ category ∈ ["compute_intensive"; "data_intensive"; "ai_ml"; "realtime"].
Proof.
  assert (H : exists d, fst (parse_intent w self user_input st) = Return (VDict d)
                        /\ _validate_intent_structure (VDict d) = Return tt).
  { destruct (parse_intent_cases w self user_input st)
      as [(d0 & Hv & Hr)|(st1 & dm & key & Hm & _ & Hr)].
    - eexists. split; [exact Hr|].
      rewrite !validate_set by (by apply (bool_decide_unpack _)). exact Hv.
    - destruct (mock_parse_tagged w user_input st1) as (d & st' & Hm' & Hv & _).
      rewrite Hm in Hm'. injection Hm' as <- _.
      eexists. split; [exact Hr|].
      rewrite !validate_set by (by apply (bool_decide_unpack _)). exact Hv. }
  destruct H as (d & Hr & Hv).
  destruct (validate_well_formed _ Hv) as (d' & workload & [= <-] & Hw & Hin).
  destruct (categorize_valid workload Hin) as (category & Hc & Hcat).
  by exists d, (VStr workload), category.
Qed.

(** What phase 1 reads from an intent for its risk level. *)
Lemma assess_risk_ext d d' :
  dict_get d' "constraints" = dict_get d "constraints" ->
  dict_get d' "requirements" = dict_get d "requirements" ->
  _assess_risk_level (VDict d') = _assess_risk_level (VDict d).
Proof.
  intros Hc Hr. unfold _assess_risk_level, py_getitem2, py_getitem, bind.
  by rewrite Hc, Hr.
Qed.

Lemma assess_risk_levels (team availability time_to_market : string)
    (compliance : list pyval) workload scale latency geography budget rest :
  exists level,
    _assess_risk_level
      (VDict (("workload_type", workload) :: ("scale", scale)
              :: ("requirements",
                  VDict [("latency", latency);
                         ("availability", VStr availability);
                         ("geography", geography);
                         ("compliance", VList compliance)])
              :: ("constraints",
                  VDict [("budget_sensitivity", budget);
                         ("team_experience", VStr team);
                         ("time_to_market", VStr time_to_market)])
              :: rest))
    = Return level
    /\ level ∈ ["low"; "medium"; "high"].
Proof.
  unfold _assess_risk_level. cbn -[py_in_strs py_eq_str py_truthy Z.add Z.eqb Z.leb].
  destruct (py_in_strs _ _), (py_eq_str (VStr availability) _), (py_truthy _),
           (py_eq_str (VStr time_to_market) _);
    eexists; (split; [reflexivity | by apply (bool_decide_unpack _)]).
Qed.

Lemma scale_tier_of_int users :
  exists tier,
    _determine_scale_tier (VInt users) = Return tier
    /\ tier ∈ ["tier_1_tiny"; "tier_2_small"; "tier_3_medium"; "tier_4_large";
               "tier_5_enterprise"].
Proof.
  unfold _determine_scale_tier, py_lt_int, bind.
  repeat case_match; eexists; (split; [reflexivity | by apply (bool_decide_unpack _)]).
Qed.

(** X24: On every result of [parse_intent] that carries the tag of the fallback,
    phase 1's helpers return without raising: the scale tier of its
    [monthly_users] and the risk level, one of low, medium and high. *)
Theorem phase1_helpers_accept_fallback_results w self user_input st d :
  fst (parse_intent w self user_input st) = Return (VDict d) ->
  dict_get d "parsing_source" = Some (VStr "enhanced_mock") ->
  (exists users tier,
     py_path (VDict d) ["scale"; "monthly_users"] = Some (VInt users)
     /\ _determine_scale_tier (VInt users) = Return tier
     /\ tier ∈ ["tier_1_tiny"; "tier_2_small"; "tier_3_medium"; "tier_4_large";
                "tier_5_enterprise"])
  /\ (exists level,
        _assess_risk_level (VDict d) = Return level
        /\ level ∈ ["low"; "medium"; "high"]).
Proof.
  intros Hr Hsrc.
  destruct (parse_intent_cases w self user_input st)
    as [(d0 & Hv & Hr')|(st1 & dm & key & Hm & _ & Hr')];
    rewrite Hr in Hr'; injection Hr' as Hd.
  { rewrite Hd, !dict_get_set_ne in Hsrc by done.
    by rewrite dict_get_set_eq in Hsrc. }
  destruct (mock_parse_shape w user_input st1)
    as (users & rps & traffic & c & st' & Hshape & _).
  rewrite Hshape in Hm. injection Hm as Hdm _.
  split.
  - destruct (scale_tier_of_int users) as (tier & Htier & Hin).
    exists users, tier. split_and!; [|done..].
    rewrite Hd. cbn [py_path]. rewrite !dict_get_set_ne by done.
    rewrite <- Hdm. reflexivity.
  - rewrite (assess_risk_ext dm d).
    + rewrite <- Hdm. apply assess_risk_levels.
    + rewrite Hd. by rewrite !dict_get_set_ne.
    + rewrite Hd. by rewrite !dict_get_set_ne.
Qed.

(** X25: Validation does not protect phase 1: a payload that passes
    [_validate_intent_structure] and whose [constraints] lack a
    [team_experience] makes the risk assessment raise a KeyError or a
    TypeError. *)
Theorem validated_payload_can_fail_risk_assessment d :
  _validate_intent_structure (VDict d) = Return tt ->
  py_path (VDict d) ["constraints"; "team_experience"] = None ->
  exists e,
    _assess_risk_level (VDict d) = Raise e
    /\ (exn_class e = "KeyError" \/ exn_class e = "TypeError").
Proof.
  intros _ Hpath. unfold _assess_risk_level, py_getitem2, bind.
  cbn [py_path] in Hpath. cbn [py_getitem].
  destruct (dict_get d "constraints") as [obj|]; [|eexists; split; [reflexivity | by left]].
  destruct obj as [| | | | | |cs|];
    try (eexists; split; [reflexivity | by right]).
  cbn [py_getitem]. destruct (dict_get cs "team_experience"); [done|].
  eexists. split; [reflexivity | by left].
Qed.

Lemma validated_payload_can_fail_risk_assessment_witness :
  let d := [("workload_type", VStr "web_app"); ("scale", VNone);
            ("requirements", VNone); ("constraints", VNone);
            ("parsing_confidence", VInt 1)] in
  _validate_intent_structure (VDict d) = Return tt
  /\ exists e,
       _assess_risk_level (VDict d) = Raise e
       /\ (exn_class e = "KeyError" \/ exn_class e = "TypeError").
Proof.
  intros d.
  assert (Hv : _validate_intent_structure (VDict d) = Return tt)
    by (vm_compute; reflexivity).
  split; [exact Hv|].
  apply (validated_payload_can_fail_risk_assessment d Hv). reflexivity.
Defined.

(** ** Reaching a working slot *)

Lemma usable_client st p :
  all_usable st -> (p < length (_api_keys_loaded st))%nat ->
  exists c, clients_get st (_get_key_name_at st p) = Some c.
Proof.
  intros Hall Hp. unfold all_usable in Hall.
  eapply Forall_lookup_1 in Hall; [|by apply pool_names_lookup].
  destruct (clients_get st _) as [c|]; [by exists c | done].
Qed.

(** One step of a walk: the current slot is out of quota, the next slot
    of the ring has a client and another name. *)
Lemma retry_loop_step w self prompt remaining attempt last_error st :
  NoDup (pool_names st) ->
  (2 <= length (_api_keys_loaded st))%nat ->
  all_usable st ->
  (_shared_key_index st < length (_api_keys_loaded st))%nat ->
  _all_keys_exhausted st = false ->
  slot_out_of_quota w self prompt st (_shared_key_index st) ->
  exists e st',
    is_quota_error (exn_str e) = true
    /\ retry_loop w self prompt (S remaining) attempt last_error st
       = retry_loop w self prompt remaining (S attempt) (Some e) st'
    /\ same_pool st st'
    /\ _shared_key_index st'
       = ((_shared_key_index st + 1) mod length (_api_keys_loaded st))%nat
    /\ _all_keys_exhausted st' = false
    /\ exists d,
         trace st'
         = (trace st ++ [EvCall (_get_current_key_name st) attempt QuotaExhausted;
                         EvRotation (_get_current_key_name st)
                           (_get_current_key_name st');
                         EvSleep attempt d])%list.
Proof.
  intros Hnd Hlen Hall Hi Hex Hquota.
  set (cur := _get_key_name_at st (_shared_key_index st)).
  assert (Hcur : pool_names st !! _shared_key_index st = Some cur)
    by by apply pool_names_lookup.
  destruct (usable_client st _ Hall Hi) as [c Hc].
  destruct (Hquota c (trace st) Hc) as (e & Hreply & Hq).
  exists e.
  rewrite (retry_loop_quota _ _ _ _ _ _ _ c e); [|done..]. cbv zeta.
  change (_get_current_key_name st) with cur.
  set (st1 := record_failure cur (emit (EvCall cur attempt QuotaExhausted) st)).
  set (i' := ((_shared_key_index st + 1) mod length (_api_keys_loaded st))%nat).
  assert (Hi' : (i' < length (_api_keys_loaded st))%nat)
    by (apply Nat.mod_upper_bound; lia).
  set (next := _get_key_name_at st i').
  assert (Hnext : pool_names st !! i' = Some next) by by apply pool_names_lookup.
  assert (Hne : next <> cur).
  { intros Heq. rewrite Heq in Hnext.
    pose proof (NoDup_lookup _ _ _ _ Hnd Hnext Hcur) as Hsame.
    by apply (next_index_differs (_shared_key_index st)
                (length (_api_keys_loaded st))). }
  rewrite (rotate_next_usable st1 next); [|done | done | | done].
  2:{ change (clients_get st1 next) with (clients_get st next).
      destruct (usable_client st i' Hall Hi') as [c' Hc']. fold next in Hc'.
      by rewrite Hc'. }
  cbn [negb].
  change (_get_current_key_name st1) with cur.
  change (_shared_key_index st1) with (_shared_key_index st).
  change (_api_keys_loaded st1) with (_api_keys_loaded st). fold i'.
  set (st2 := emit (EvRotation cur next) (set_index i' st1)).
  eexists. split; [exact Hq|]. split; [reflexivity|].
  split_and!; try done.
  eexists. subst st2 st1. simpl. rewrite <- !app_assoc. reflexivity.
Qed.

Lemma retry_loop_reaches w self prompt resp d :
  forall remaining attempt last_error st,
    NoDup (pool_names st) ->
    all_usable st ->
    (_shared_key_index st < length (_api_keys_loaded st))%nat ->
    _all_keys_exhausted st = false ->
    (d < remaining)%nat ->
    (d < length (_api_keys_loaded st))%nat ->
    (forall j, (j < d)%nat ->
       slot_out_of_quota w self prompt st (ring_position st j)) ->
    slot_answers w self prompt st (ring_position st d) resp ->
    let r := retry_loop w self prompt remaining attempt last_error st in
    fst r = Return resp
    /\ _shared_key_index (snd r) = ring_position st d
    /\ _all_keys_exhausted (snd r) = false
    /\ exists tr, trace (snd r) = (trace st ++ tr)%list
         /\ called_keys tr = ring_names st (_shared_key_index st) (S d)
         /\ sleeps tr = seq attempt d.
Proof.
  induction d as [|d IH];
    intros remaining attempt last_error st Hnd Hall Hi Hex Hrem Hlen Hquota Hans.
  - destruct remaining as [|remaining]; [lia|].
    unfold ring_position in *. rewrite Nat.add_0_r, Nat.mod_small in * by done.
    destruct (usable_client st _ Hall Hi) as [c Hc].
    rewrite (retry_loop_success _ _ _ _ _ _ _ c resp); [|done | done | by apply Hans].
    cbn [fst snd]. split_and!; try done.
    eexists. split; [reflexivity|].
    rewrite ring_names_S, Nat.mod_small by done. done.
  - destruct remaining as [|remaining]; [lia|].
    assert (H0 : slot_out_of_quota w self prompt st (_shared_key_index st)).
    { specialize (Hquota 0%nat). unfold ring_position in Hquota.
      rewrite Nat.add_0_r, Nat.mod_small in Hquota by done. apply Hquota. lia. }
    destruct (retry_loop_step w self prompt remaining attempt last_error st)
      as (e & st' & Hq & -> & [Hk Hcl] & Hidx & Hex' & dl & Htr); try done; [lia|].
    assert (Hring : forall j, ring_position st' j = ring_position st (S j)).
    { intros j. unfold ring_position. rewrite Hk, Hidx. apply ring_step. }
    assert (Hpool : pool_names st' = pool_names st)
      by (unfold pool_names; by rewrite Hk).
    destruct (IH remaining (S attempt) (Some e) st')
      as (Hr & Hi' & Hb & tr & Htr' & Hkeys & Hsl).
    + by rewrite Hpool.
    + by apply (all_usable_same_pool st).
    + rewrite Hidx, Hk. apply Nat.mod_upper_bound. lia.
    + done.
    + lia.
    + rewrite Hk. lia.
    + intros j Hj c tr0 Hc. rewrite Hring in Hc.
      unfold clients_get, _get_key_name_at in Hc. rewrite Hcl, Hk in Hc.
      apply (Hquota (S j)); [lia | done].
    + intros c tr0 Hc. rewrite Hring in Hc.
      unfold clients_get, _get_key_name_at in Hc. rewrite Hcl, Hk in Hc.
      by apply Hans.
    + split_and!; [done | by rewrite Hi', Hring | done |].
      eexists. split; [rewrite Htr', Htr, <- app_assoc; reflexivity|].
      split.
      * rewrite ring_names_S, Nat.mod_small by done.
        change (?a :: ?b :: ?c :: tr) with ([a; b; c] ++ tr)%list.
        rewrite called_keys_app. simpl. f_equal.
        rewrite Hkeys. unfold ring_names. rewrite Hk, Hidx.
        apply list_fmap_ext. intros _ j _. simpl.
        unfold _get_key_name_at. by rewrite Hk.
      * change (?a :: ?b :: ?c :: tr) with ([a; b; c] ++ tr)%list.
        rewrite sleeps_app. simpl. by f_equal.
Qed.

(** A walk over slots that are all out of quota: one call per attempt,
    each on the next slot of the ring. *)
Lemma retry_loop_walk w self prompt :
  forall remaining attempt last_error st,
    NoDup (pool_names st) ->
    (2 <= length (_api_keys_loaded st))%nat ->
    all_usable st ->
    (_shared_key_index st < length (_api_keys_loaded st))%nat ->
    _all_keys_exhausted st = false ->
    (forall j, (j < remaining)%nat ->
       slot_out_of_quota w self prompt st (ring_position st j)) ->
    let r := retry_loop w self prompt remaining attempt last_error st in
    _all_keys_exhausted (snd r) = false
    /\ (exists e, fst r = Raise e
          /\ ((0 < remaining)%nat -> is_quota_error (exn_str e) = true))
    /\ exists tr, trace (snd r) = (trace st ++ tr)%list
         /\ called_keys tr = ring_names st (_shared_key_index st) remaining
         /\ sleeps tr = seq attempt remaining.
Proof.
  induction remaining as [|remaining IH];
    intros attempt last_error st Hnd Hlen Hall Hi Hex Hquota.
  { simpl. split_and!; [done| |exists []; by rewrite app_nil_r].
    destruct last_error as [e|]; simpl; eexists; (split; [reflexivity|lia]). }
  assert (H0 : slot_out_of_quota w self prompt st (_shared_key_index st)).
  { specialize (Hquota 0%nat). unfold ring_position in Hquota.
    rewrite Nat.add_0_r, Nat.mod_small in Hquota by done. apply Hquota. lia. }
  destruct (retry_loop_step w self prompt remaining attempt last_error st)
    as (e & st' & Hq & -> & [Hk Hcl] & Hidx & Hex' & dl & Htr); try done.
  assert (Hring : forall j, ring_position st' j = ring_position st (S j)).
  { intros j. unfold ring_position. rewrite Hk, Hidx. apply ring_step. }
  assert (Hpool : pool_names st' = pool_names st)
    by (unfold pool_names; by rewrite Hk).
  destruct (IH (S attempt) (Some e) st')
    as (Hb & (e' & Hr & He') & tr & Htr' & Hkeys & Hsl).
  - by rewrite Hpool.
  - by rewrite Hk.
  - by apply (all_usable_same_pool st).
  - rewrite Hidx, Hk. apply Nat.mod_upper_bound. lia.
  - done.
  - intros j Hj c tr0 Hc. rewrite Hring in Hc.
    unfold clients_get, _get_key_name_at in Hc. rewrite Hcl, Hk in Hc.
    apply (Hquota (S j)); [lia | done].
  - split_and!; [done | |].
    + exists e'. split; [done|]. intros _.
      destruct remaining as [|remaining]; [|apply He'; lia].
      simpl in Hr. by injection Hr as <-.
    + eexists. split; [rewrite Htr', Htr, <- app_assoc; reflexivity|].
      split.
      * rewrite ring_names_S, Nat.mod_small by done.
        change (?a :: ?b :: ?c :: tr) with ([a; b; c] ++ tr)%list.
        rewrite called_keys_app. simpl. f_equal.
        rewrite Hkeys. unfold ring_names. rewrite Hk, Hidx.
        apply list_fmap_ext. intros _ j _. simpl.
        unfold _get_key_name_at. by rewrite Hk.
      * change (?a :: ?b :: ?c :: tr) with ([a; b; c] ++ tr)%list.
        rewrite sleeps_app. simpl. by f_equal.
Qed.

(** ** The clients over the life of the process *)

Lemma run_op_same_pool w self o st :
  same_pool (started w) st -> same_pool (started w) (run_op w self o st).
Proof.
  intros Hp. destruct o; simpl.
  - rewrite init_state.
    destruct (_api_keys_loaded st) as [|entry keys] eqn:Hkeys; simpl; [|exact Hp].
    destruct Hp as [Hk Hcl]. rewrite Hkeys in Hk.
    destruct (started_slots w) as (Hload & _). simpl in Hload.
    rewrite <- Hk in Hload. rewrite <- Hload.
    unfold _initialize_all_clients. simpl. split; [by rewrite <- Hk | done].
  - pose proof (rotate_spec st) as (Hp' & _). eauto using same_pool_trans.
  - exact Hp.
  - exact Hp.
  - destruct (call_with_retry_pool w self prompt max_retries st) as [Hp' _].
    eauto using same_pool_trans.
  - destruct (parse_intent_pool w self user_input st) as [Hp' _].
    eauto using same_pool_trans.
Qed.

Lemma run_ops_same_pool w self ops :
  forall st, same_pool (started w) st ->
    same_pool (started w) (run_ops w self ops st).
Proof.
  induction ops as [|o ops IH]; intros st Hp; simpl; [done|].
  apply IH. by apply run_op_same_pool.
Qed.

Lemma retry_loop_calls_have_clients w self prompt remaining :
  forall attempt last_error st,
    let r := retry_loop w self prompt remaining attempt last_error st in
    exists tr, trace (snd r) = (trace st ++ tr)%list
      /\ Forall (fun k => is_some (clients_get st k) = true) (called_keys tr).
Proof.
  induction remaining as [|remaining IH]; intros attempt last_error st.
  { exists []. simpl. rewrite app_nil_r. by split. }
  destruct (_all_keys_exhausted st) eqn:Hex.
  { exists []. simpl. rewrite Hex. simpl. rewrite app_nil_r. by split. }
  destruct (_get_current_client st) as [c|] eqn:Hc.
  - assert (Hcur : is_some (clients_get st (_get_current_key_name st)) = true).
    { unfold _get_current_client in Hc.
      fold (_get_current_key_name st) in Hc.
      by destruct (clients_get st (_get_current_key_name st)). }
    destruct (generate_content w (trace st) c (model_name self) prompt
                (temperature self) (max_tokens self)) as [resp|e] eqn:Hreply.
    { rewrite (retry_loop_success _ _ _ _ _ _ _ c resp); [|done..].
      eexists. split; [reflexivity|]. simpl. by constructor. }
    destruct (is_quota_error (exn_str e)) eqn:Hq.
    2:{ rewrite (retry_loop_failed _ _ _ _ _ _ _ c e); [|done..].
        eexists. split; [reflexivity|]. simpl. by constructor. }
    rewrite (retry_loop_quota _ _ _ _ _ _ _ c e); [|done..]. cbv zeta.
    set (st1 := record_failure _ _).
    destruct (rotate_trace st1) as (tr1 & Htr1 & Hc1 & _).
    pose proof (rotate_spec st1) as (Hp & _).
    destruct (_rotate_to_next_key st1) as [[] st2]; simpl in *.
    + set (st3 := emit (EvSleep attempt (backoff_delay w st2 attempt)) (draw st2)).
      destruct (IH (S attempt) (Some e) st3) as (tr & Htr & Hcalls).
      exists (EvCall (_get_current_key_name st) attempt QuotaExhausted
              :: tr1 ++ EvSleep attempt (backoff_delay w st2 attempt) :: tr)%list.
      split.
      { rewrite Htr. subst st3. simpl. rewrite Htr1.
        rewrite <- !app_assoc. reflexivity. }
      change (EvCall ?k ?a ?o :: ?l) with ([EvCall k a o] ++ l)%list.
      change (tr1 ++ ?e :: tr)%list with (tr1 ++ [e] ++ tr)%list.
      rewrite !called_keys_app, Hc1. simpl. constructor; [done|].
      assert (Hsame : same_pool st st3).
      { eapply (same_pool_trans _ st1); [by split|].
        eapply same_pool_trans; [exact Hp|]. by split. }
      eapply Forall_impl; [|exact Hcalls]. intros k Hk. simpl in Hk.
      by rewrite <- (clients_get_same_pool st st3).
    + exists (EvCall (_get_current_key_name st) attempt QuotaExhausted :: tr1)%list.
      split.
      { rewrite Htr1. rewrite <- !app_assoc. reflexivity. }
      change (EvCall ?k ?a ?o :: ?l) with ([EvCall k a o] ++ l)%list.
      rewrite !called_keys_app, Hc1. simpl. by constructor.
  - simpl. rewrite Hex, Hc.
    destruct (rotate_trace st) as (tr1 & Htr1 & Hc1 & _).
    pose proof (rotate_spec st) as (Hp & _).
    destruct (_rotate_to_next_key st) as [rotated st2]; simpl in *.
    destruct (IH (S attempt) last_error st2) as (tr & Htr & Hcalls).
    exists (tr1 ++ tr)%list. split.
    { rewrite Htr, Htr1, <- app_assoc. reflexivity. }
    rewrite !called_keys_app, Hc1. simpl.
    eapply Forall_impl; [|exact Hcalls]. intros k Hk. simpl in Hk.
    by rewrite <- (clients_get_same_pool st st2).
Qed.

(** X26: With every slot holding a client, slots named apart and the
    breaker untripped, when the [d] slots from the current one on are out
    of quota and the slot after them answers, with [d] below
    [max_retries] and below the pool size, [call_with_retry] returns that
    slot's response after exactly [d + 1] calls, one per slot in ring
    order, with one wait after each of the first [d]; the index ends on
    the answering slot and the breaker stays untripped. *)
Theorem dispatch_reaches_nearest_working_slot
    w self prompt max_retries st d resp :
  NoDup (pool_names st) ->
  all_usable st ->
  (_shared_key_index st < length (_api_keys_loaded st))%nat ->
  _all_keys_exhausted st = false ->
  (d < max_retries)%nat ->
  (d < length (_api_keys_loaded st))%nat ->
  (forall j, (j < d)%nat ->
     slot_out_of_quota w self prompt st (ring_position st j)) ->
  slot_answers w self prompt st (ring_position st d) resp ->
  let r := call_with_retry w self prompt max_retries st in
  fst r = Return resp
  /\ _shared_key_index (snd r) = ring_position st d
  /\ _all_keys_exhausted (snd r) = false
  /\ exists tr, trace (snd r) = (trace st ++ tr)%list
       /\ called_keys tr = ring_names st (_shared_key_index st) (S d)
       /\ sleeps tr = seq 0 d.
Proof.
  intros Hnd Hall Hi Hex Hd Hlen Hquota Hans. unfold call_with_retry.
  rewrite Hex. by apply retry_loop_reaches.
Qed.

Lemma dispatch_reaches_nearest_working_slot_witness :
  let w := sample_world [("GEMINI_API_KEY", "q-primary");
                         ("GEMINI_API_KEY_1", "q-backup");
                         ("GEMINI_API_KEY_2", "k-spare")] in
  let st := started w in
  let r := call_with_retry w sample_instance "prompt" default_max_retries st in
  fst r = Return (sample_response "k-spare")
  /\ _shared_key_index (snd r) = 2%nat
  /\ _all_keys_exhausted (snd r) = false
  /\ exists tr, trace (snd r) = (trace st ++ tr)%list
       /\ called_keys tr = ["PRIMARY"; "BACKUP_1"; "BACKUP_2"]
       /\ sleeps tr = [0; 1]%nat.
Proof.
  intros w st r.
  apply (dispatch_reaches_nearest_working_slot w sample_instance "prompt"
           default_max_retries st 2 (sample_response "k-spare")).
  - apply (bool_decide_unpack _). vm_compute. exact I.
  - apply (bool_decide_unpack _). vm_compute. exact I.
  - vm_compute. lia.
  - reflexivity.
  - vm_compute. lia.
  - vm_compute. lia.
  - intros j Hj c tr Hc. destruct j as [|[|j]]; [| |lia];
      vm_compute in Hc; injection Hc as <-; exists quota_error;
      (split; [reflexivity | vm_compute; reflexivity]).
  - intros c tr Hc. vm_compute in Hc. injection Hc as <-. reflexivity.
Defined.

(** X27: With at least two slots, every slot holding a client, slots
    named apart and the breaker untripped, when the [max_retries] slots
    from the current one on (in ring order, wrapping around) are out of
    quota, [call_with_retry] fails with the endpoint's quota error after
    calling exactly those, and leaves the breaker untripped: a slot
    further away is not tried, whatever it would answer. *)
Theorem working_slot_beyond_max_retries_is_not_tried
    w self prompt max_retries st :
  NoDup (pool_names st) ->
  (2 <= length (_api_keys_loaded st))%nat ->
  all_usable st ->
  (_shared_key_index st < length (_api_keys_loaded st))%nat ->
  _all_keys_exhausted st = false ->
  (0 < max_retries)%nat ->
  (forall j, (j < max_retries)%nat ->
     slot_out_of_quota w self prompt st (ring_position st j)) ->
  let r := call_with_retry w self prompt max_retries st in
  (exists e, fst r = Raise e /\ is_quota_error (exn_str e) = true)
  /\ _all_keys_exhausted (snd r) = false
  /\ exists tr, trace (snd r) = (trace st ++ tr)%list
       /\ called_keys tr = ring_names st (_shared_key_index st) max_retries
       /\ sleeps tr = seq 0 max_retries.
Proof.
  intros Hnd Hlen Hall Hi Hex Hpos Hquota. unfold call_with_retry. rewrite Hex.
  destruct (retry_loop_walk w self prompt max_retries 0 None st)
    as (Hb & (e & Hr & He) & Htr); try done.
  split_and!; [|done|done]. exists e. auto.
Qed.

Lemma working_slot_beyond_max_retries_is_not_tried_witness :
  let w := sample_world [("GEMINI_API_KEY", "q-primary");
                         ("GEMINI_API_KEY_1", "q-backup");
                         ("GEMINI_API_KEY_2", "q-spare");
                         ("GEMINI_API_KEY_3", "k-last")] in
  let st := started w in
  let r := call_with_retry w sample_instance "prompt" default_max_retries st in
  (clients_get st "BACKUP_3" = Some (Client "k-last")
   /\ forall tr,
        generate_content w tr (Client "k-last") (model_name sample_instance)
          "prompt" (temperature sample_instance) (max_tokens sample_instance)
        = Return (sample_response "k-last"))
  /\ (exists e, fst r = Raise e /\ is_quota_error (exn_str e) = true)
  /\ _all_keys_exhausted (snd r) = false
  /\ exists tr, trace (snd r) = (trace st ++ tr)%list
       /\ called_keys tr = ["PRIMARY"; "BACKUP_1"; "BACKUP_2"]
       /\ sleeps tr = [0; 1; 2]%nat.
Proof.
  intros w st r. split; [split; [vm_compute; reflexivity | intros tr; reflexivity]|].
  apply (working_slot_beyond_max_retries_is_not_tried w sample_instance "prompt"
           default_max_retries st).
  - apply (bool_decide_unpack _). vm_compute. exact I.
  - vm_compute. lia.
  - apply (bool_decide_unpack _). vm_compute. exact I.
  - vm_compute. lia.
  - reflexivity.
  - vm_compute. lia.
  - intros j Hj c tr Hc. destruct j as [|[|[|j]]]; [| | |vm_compute in Hj; lia];
      vm_compute in Hc; injection Hc as <-; exists quota_error;
      (split; [reflexivity | vm_compute; reflexivity]).
Defined.

(** X28: After the first construction, no sequence of operations (further
    constructions in the same environment, rotations, failure and success
    records, dispatches, [parse_intent]) changes the pool or any client:
    a slot whose client could not be built stays without one, and no
    dispatch ever calls it. *)
Theorem clients_are_built_once w self ops :
  let st := run_ops w self ops (started w) in
  same_pool (started w) st
  /\ forall name key prompt max_retries,
       (name, key) ∈ _load_api_keys w ->
       genai_Client w key = None ->
       clients_get st name = None
       /\ forall tr,
            trace (snd (call_with_retry w self prompt max_retries st))
            = (trace st ++ tr)%list ->
            name ∉ called_keys tr.
Proof.
  intros st.
  assert (Hp : same_pool (started w) st)
    by (apply run_ops_same_pool, same_pool_refl).
  split; [exact Hp|].
  intros name key prompt max_retries Hin Hnone.
  assert (Hc : clients_get st name = None).
  { rewrite (clients_get_same_pool (started w)) by done.
    destruct (started_slots w) as (_ & _ & _ & _ & Hcl & _).
    destruct (Hcl name key Hin) as [Hcl' _]. unfold clients_get. simpl in Hcl'.
    by rewrite Hcl', Hnone. }
  split; [exact Hc|].
  intros tr Htr Hcalled.
  assert (Hcalls : exists tr', trace (snd (call_with_retry w self prompt max_retries st))
                               = (trace st ++ tr')%list
                     /\ Forall (fun k => is_some (clients_get st k) = true)
                          (called_keys tr')).
  { unfold call_with_retry. destruct (_all_keys_exhausted st).
    - exists []. simpl. rewrite app_nil_r. by split.
    - apply retry_loop_calls_have_clients. }
  destruct Hcalls as (tr' & Htr' & Hall).
  rewrite Htr in Htr'. apply app_inv_head in Htr' as <-.
  rewrite Forall_forall in Hall.
  apply list_elem_of_In in Hcalled. specialize (Hall name Hcalled).
  by rewrite Hc in Hall.
Qed.

Lemma clients_are_built_once_witness :
  let w := sample_world [("GEMINI_API_KEY", "bad");
                         ("GEMINI_API_KEY_1", "k-backup")] in
  let st := run_ops w sample_instance
              [OpCall "prompt" 3; OpInit; OpParse "an api"] (started w) in
  (("PRIMARY", "bad") ∈ _load_api_keys w /\ genai_Client w "bad" = None)
  /\ clients_get st "PRIMARY" = None
  /\ forall tr,
       trace (snd (call_with_retry w sample_instance "prompt" 3 st))
       = (trace st ++ tr)%list ->
       "PRIMARY" ∉ called_keys tr.
Proof.
  intros w st.
  assert (Hin : ("PRIMARY", "bad") ∈ _load_api_keys w)
    by (apply (bool_decide_unpack _); vm_compute; exact I).
  assert (Hnone : genai_Client w "bad" = None) by reflexivity.
  split; [by split|].
  destruct (clients_are_built_once w sample_instance
              [OpCall "prompt" 3; OpInit; OpParse "an api"]) as [_ H].
  exact (H "PRIMARY" "bad" "prompt" 3%nat Hin Hnone).
Defined.

(** ** Further instances of the conditional statements *)

Lemma returned_response_is_from_current_key_witness :
  let w := sample_world [("GEMINI_API_KEY", "q-primary");
                         ("GEMINI_API_KEY_1", "k-backup")] in
  let st := started w in
  let st' := snd (call_with_retry w sample_instance "prompt" default_max_retries st) in
  fst (call_with_retry w sample_instance "prompt" default_max_retries st)
  = Return (sample_response "k-backup")
  /\ _get_current_key_name st' = "BACKUP_1"
  /\ exists tr a c,
       trace st'
       = (trace st ++ tr ++ [EvCall (_get_current_key_name st') a Succeeded])%list
       /\ (a < default_max_retries)%nat
       /\ _get_current_client st' = Some c
       /\ generate_content w (trace st ++ tr) c (model_name sample_instance) "prompt"
            (temperature sample_instance) (max_tokens sample_instance)
          = Return (sample_response "k-backup")
       /\ Forall quota_or_no_call tr
       /\ _shared_key_failures st' !! _get_current_key_name st' = Some 0%Z
       /\ _all_keys_exhausted st' = false.
Proof.
  intros w st st'.
  assert (Hret : fst (call_with_retry w sample_instance "prompt"
                        default_max_retries st)
                 = Return (sample_response "k-backup")) by (vm_compute; reflexivity).
  split; [exact Hret|]. split; [vm_compute; reflexivity|].
  exact (returned_response_is_from_current_key w sample_instance "prompt"
           default_max_retries st (sample_response "k-backup") Hret).
Defined.

Lemma extracted_json_is_loadable_witness :
  let w := answering_world [] in
  _extract_json_from_response w "{}" = Some "{}"
  /\ is_some (json_loads w "{}") = true.
Proof.
  intros w.
  assert (Hx : _extract_json_from_response w "{}" = Some "{}")
    by (vm_compute; reflexivity).
  split; [exact Hx|].
  destruct (extracted_json_is_loadable w "{}") as (Hloads & _).
  exact (Hloads "{}" Hx).
Defined.

Lemma answered_call_is_never_replaced_by_fallback_witness :
  let w := answering_world [("GEMINI_API_KEY", "k-primary")] in
  let st := started w in
  let r0 := call_with_retry w sample_instance (_create_intent_parsing_prompt "an api")
              default_max_retries st in
  (fst r0 = Return (sample_response "k-primary")
   /\ is_return (fst (_parse_with_gemini w sample_instance "an api" st)) = true)
  /\ snd (_parse_with_gemini w sample_instance "an api" st) = snd r0
  /\ match fst (_parse_with_gemini w sample_instance "an api" st) with
     | Return v =>
         exists d, v = VDict d
           /\ _validate_intent_structure (VDict d) = Return tt
           /\ tagged d "gemini_api" (model_name sample_instance)
                (_get_current_key_name (snd r0))
     | Raise e => exn_class e = "ValueError" \/ exn_class e = "TypeError"
     end.
Proof.
  intros w st r0.
  assert (Hret : fst r0 = Return (sample_response "k-primary"))
    by (vm_compute; reflexivity).
  split; [split; [exact Hret | vm_compute; reflexivity]|].
  exact (answered_call_is_never_replaced_by_fallback w sample_instance "an api" st
           (sample_response "k-primary") Hret).
Defined.

Lemma fallback_rps_follows_users_witness :
  let w := sample_world [] in
  re_findall w numbers_pattern "an api" = []
  /\ exists d users rps,
       fst (_enhanced_mock_parse w "an api" class_initial) = Return (VDict d)
       /\ py_path (VDict d) ["scale"; "monthly_users"] = Some (VInt users)
       /\ py_path (VDict d) ["scale"; "estimated_rps"] = Some (VInt rps)
       /\ users = 10000%Z /\ (50 <= rps <= 200)%Z.
Proof.
  intros w.
  assert (Hnil : re_findall w numbers_pattern "an api" = []) by reflexivity.
  split; [exact Hnil|].
  destruct (fallback_rps_follows_users w "an api" class_initial)
    as (d & users & rps & Hd & Hu & Hr & _ & Hdefault).
  exists d, users, rps.
  split; [exact Hd|]. split; [exact Hu|]. split; [exact Hr|].
  exact (Hdefault Hnil).
Defined.

Lemma phase1_helpers_accept_fallback_results_witness :
  let w := sample_world [] in
  exists d,
    fst (parse_intent w sample_instance "an api" (started w)) = Return (VDict d)
    /\ dict_get d "parsing_source" = Some (VStr "enhanced_mock")
    /\ (exists users tier,
          py_path (VDict d) ["scale"; "monthly_users"] = Some (VInt users)
          /\ _determine_scale_tier (VInt users) = Return tier
          /\ tier ∈ ["tier_1_tiny"; "tier_2_small"; "tier_3_medium"; "tier_4_large";
                     "tier_5_enterprise"])
    /\ (exists level,
          _assess_risk_level (VDict d) = Return level
          /\ level ∈ ["low"; "medium"; "high"]).
Proof.
  intros w.
  destruct (parse_intent_returns w sample_instance "an api" (started w)) as [d Hd].
  exists d.
  assert (Hsrc : dict_get d "parsing_source" = Some (VStr "enhanced_mock")).
  { assert (H : match fst (parse_intent w sample_instance "an api" (started w)) with
                | Return (VDict d') =>
                    dict_get d' "parsing_source" = Some (VStr "enhanced_mock")
                | _ => False
                end) by (vm_compute; reflexivity).
    by rewrite Hd in H. }
  split; [exact Hd|]. split; [exact Hsrc|].
  exact (phase1_helpers_accept_fallback_results w sample_instance "an api"
           (started w) d Hd Hsrc).
Defined.
